(** * SoC tutorial bot: a shallow embedding of its decision logic

    The development follows the layout of the repository:
    - [Season]: the season lookup of [src/utils/helpers.py] and its copy
      in [src/models/statistics.py], with the range table of
      [src/core/tutorial/steps_data.py];
    - [Settings]: [BotSettings] load / save of [src/models/settings.py];
    - [Performance]: [PerformanceMonitor.check_resources];
    - [Emulator]: the multi-point swipe of the emulator facade;
    - [Recognition]: overlap suppression of [image.py];
    - [Ocr]: season matching of [text.py];
    - [Bot]: the tutorial loop and the recovery cascade of [bot.py];
    - [TutorialRuns], [MainLoop]: whole runs of the tutorial loop and of
      [_run], with [start], [stop], [pause] and [resume];
    - [Suppression], [Templates]: the overlap suppression on any number
      of candidates and [find_all_templates];
    - [Pacing], [Ldplayer], [Adb]: the pacing of the facade, the
      LDPlayer console and the screenshot of the ADB transport;
    - [SettingsReset]: partial files, [from_dict] and
      [reset_to_defaults];
    - [Stats], [History]: [BotStatistics] and the rolling history of
      the performance monitor;
    - [Handlers]: the step handlers [find_and_click_multiple] and
      [select_server] of [steps_factory.py].

    Python integers are [Z]; the 64-bit integers of numpy are [Z] with
    the wrap-around written out; a Python [float] that the code adds up
    is a binary64 [float]; a Python [str] is a Rocq [string] where it is
    only compared for equality, and a list of code points where the code
    looks inside it.  Durations of [time.sleep] are written in
    milliseconds. *)

From Stdlib Require Import ZArith QArith Lia List Bool String Ascii.
From Stdlib Require PrimFloat Uint63.
From stdpp Require Import base gmap strings list sorting.
Import ListNotations.

Local Open Scope string_scope.
Local Open Scope list_scope.
Local Open Scope Z_scope.

(* ===================================================================== *)
(** * Outcomes of Python calls *)
(* ===================================================================== *)

(** A call either returns a value or raises; the text of the exception is
    kept because the bot copies it into its statistics. *)
Inductive result (A : Type) : Type :=
| Ok (value : A)
| Raise (message : string).
Arguments Ok {A} value.
Arguments Raise {A} message.

Definition raised {A : Type} (r : result A) : bool :=
  match r with
  | Ok _ => false
  | Raise _ => true
  end.

(* ===================================================================== *)
(** * Season lookup *)
(* ===================================================================== *)

Module Season.

Definition S1 : string := "Сезон S1".
Definition S2 : string := "Сезон S2".
Definition S3 : string := "Сезон S3".
Definition S4 : string := "Сезон S4".
Definition S5 : string := "Сезон S5".
Definition X1 : string := "Сезон X1".
Definition X2 : string := "Сезон X2".
Definition X3 : string := "Сезон X3".
Definition unknown_season : string := "Неизвестный сезон".

(** [helpers.get_season_for_server]: the [if]/[elif] chain, top down. *)
Definition get_season_for_server (server_number : Z) : string :=
  if 577 <=? server_number then S1
  else if (541 <=? server_number) && (server_number <=? 576) then S2
  else if (505 <=? server_number) && (server_number <=? 540) then S3
  else if (481 <=? server_number) && (server_number <=? 504) then S4
  else if (433 <=? server_number) && (server_number <=? 480) then S5
  else if (409 <=? server_number) && (server_number <=? 432) then X1
  else if (266 <=? server_number) && (server_number <=? 407) then X2
  else if (1 <=? server_number) && (server_number <=? 264) then X3
  else unknown_season.

(** [BotStatistics._get_season_for_server]: the hand-made copy kept by
    the statistics model. *)
Definition stats_get_season_for_server (server_number : Z) : string :=
  if 577 <=? server_number then S1
  else if (541 <=? server_number) && (server_number <=? 576) then S2
  else if (505 <=? server_number) && (server_number <=? 540) then S3
  else if (481 <=? server_number) && (server_number <=? 504) then S4
  else if (433 <=? server_number) && (server_number <=? 480) then S5
  else if (409 <=? server_number) && (server_number <=? 432) then X1
  else if (266 <=? server_number) && (server_number <=? 407) then X2
  else if (1 <=? server_number) && (server_number <=? 264) then X3
  else unknown_season.

(** [steps_data.SEASON_SERVER_RANGES], in declaration order. *)
Definition SEASON_SERVER_RANGES : list (string * (Z * Z)) :=
  [ (S1, (577, 600)); (S2, (541, 576)); (S3, (505, 540));
    (S4, (481, 504)); (S5, (433, 480)); (X1, (409, 432));
    (X2, (266, 407)); (X3, (1, 264)) ].

Definition season_names : list string := map fst SEASON_SERVER_RANGES.

(** Dictionary lookup [SEASON_SERVER_RANGES.get(name)]. *)
Fixpoint range_of (tbl : list (string * (Z * Z))) (name : string)
  : option (Z * Z) :=
  match tbl with
  | [] => None
  | (k, r) :: tbl' => if String.eqb k name then Some r else range_of tbl' name
  end.

(** The season has a documented range and the range contains [n]. *)
Definition in_documented_range (name : string) (n : Z) : Prop :=
  exists lo hi, range_of SEASON_SERVER_RANGES name = Some (lo, hi)
                /\ lo <= n <= hi.

(** The totality property on servers 1..600, as a predicate on a lookup. *)
Definition total_on_1_600 (lookup : Z -> string) : Prop :=
  forall n, 1 <= n <= 600 ->
    In (lookup n) season_names /\ in_documented_range (lookup n) n.

(** Servers that no season range contains. *)
Definition uncovered (n : Z) : Prop := n = 265 \/ n = 408.

Ltac split_ranges n :=
  repeat match goal with
    | |- context [?a <=? n] => destruct (Z.leb_spec a n)
    | |- context [n <=? ?a] => destruct (Z.leb_spec n a)
    end; cbn [andb]; try lia.

Lemma stats_copy_agrees n :
  stats_get_season_for_server n = get_season_for_server n.
Proof. reflexivity. Qed.

Lemma lookup_in_range n :
  1 <= n <= 600 -> ~ uncovered n ->
  In (get_season_for_server n) season_names
  /\ in_documented_range (get_season_for_server n) n.
Proof.
  unfold uncovered, get_season_for_server, in_documented_range.
  intros Hn Hu.
  split_ranges n;
    (split; [ vm_compute; tauto
            | eexists _, _; split; [ vm_compute; reflexivity | lia ] ]).
Qed.

Lemma lookup_open_ended n : 577 <= n -> get_season_for_server n = S1.
Proof.
  intros Hn. unfold get_season_for_server.
  destruct (Z.leb_spec 577 n); [ reflexivity | lia ].
Qed.

Lemma lookup_unknown_iff n :
  get_season_for_server n = unknown_season <-> n <= 0 \/ uncovered n.
Proof.
  unfold uncovered, get_season_for_server. split.
  - split_ranges n; intros Heq; solve [ vm_compute in Heq; discriminate Heq | lia ].
  - intros Hcase. split_ranges n; reflexivity.
Qed.

Lemma unknown_not_a_season : ~ In unknown_season season_names.
Proof. vm_compute. intuition discriminate. Qed.

(** ** C1 *)

(** C1, as stated, fails: server 265 lies in 1..600 but the lookup (and
    its copy in the statistics model) answers the unknown-season text,
    which is none of the 8 season names; and server 601 resolves to S1,
    not to the unknown-season text. *)
Lemma season_lookup_gap_265 :
  ~ total_on_1_600 get_season_for_server
  /\ ~ total_on_1_600 stats_get_season_for_server
  /\ get_season_for_server 265 = unknown_season
  /\ get_season_for_server 601 = S1
  /\ S1 <> unknown_season.
Proof.
  assert (Hgap : ~ total_on_1_600 get_season_for_server).
  { intros H. destruct (H 265 ltac:(lia)) as [Hin _].
    apply unknown_not_a_season. exact Hin. }
  repeat split; try exact Hgap; try reflexivity.
  discriminate.
Qed.

(** C1, amended: for every server number from 1 to 600 other than 265
    and 408, the lookup and its copy in the statistics model return one
    of the 8 season names and the range documented for that season
    contains the number; 577 and 600 resolve to S1, 1 to X3; 0, 265 and
    408 resolve to the unknown-season text; every number from 577 up,
    601 included, resolves to S1. *)
Theorem season_lookup_amended :
  (forall n, 1 <= n <= 600 -> ~ uncovered n ->
     In (get_season_for_server n) season_names
     /\ in_documented_range (get_season_for_server n) n
     /\ stats_get_season_for_server n = get_season_for_server n)
  /\ get_season_for_server 577 = S1
  /\ get_season_for_server 600 = S1
  /\ get_season_for_server 1 = X3
  /\ get_season_for_server 0 = unknown_season
  /\ get_season_for_server 265 = unknown_season
  /\ get_season_for_server 408 = unknown_season
  /\ (forall n, 577 <= n -> get_season_for_server n = S1).
Proof.
  split.
  - intros n Hn Hu. destruct (lookup_in_range n Hn Hu) as [H1 H2].
    repeat split; assumption.
  - repeat split; try reflexivity. apply lookup_open_ended.
Qed.

Lemma season_lookup_amended_witness :
  In (get_season_for_server 300) season_names
  /\ in_documented_range (get_season_for_server 300) 300
  /\ stats_get_season_for_server 300 = get_season_for_server 300.
Proof.
  apply (proj1 season_lookup_amended 300); unfold uncovered; lia.
Defined.

End Season.

(* ===================================================================== *)
(** * Bot settings: JSON load and save *)
(* ===================================================================== *)

Module Settings.

(** What [json.load] can produce and [json.dump] can write.  A float is
    kept by its shortest decimal form, mantissa and exponent, which is
    what the JSON text holds; [json.dump] followed by [json.load] gives
    the value back. *)
#[local] Unset Elimination Schemes.
Inductive json : Type :=
| JNull
| JBool (b : bool)
| JInt (n : Z)
| JFloat (mantissa exponent : Z)
| JStr (s : string)
| JArr (items : list json)
| JObj (members : list (string * json)).
#[local] Set Elimination Schemes.

(** A file either holds a JSON document or text that [json.load]
    rejects. *)
Inductive file : Type :=
| Garbage
| Doc (j : json).

(** The 15 keys of [BotSettings.to_dict], in the order it lists them. *)
Definition settings_keys : list string :=
  [ "ldplayer_path"; "start_server"; "end_server"; "click_delay";
    "device_id"; "emulator_index"; "assets_path"; "tessdata_path";
    "dark_theme"; "auto_start"; "minimize_to_tray"; "log_level";
    "log_to_file"; "performance_monitoring"; "performance_interval" ].

(** The names the class body of [BotSettings] defines. *)
Definition class_attrs : list string :=
  [ "__init__"; "_load_settings"; "save_settings"; "to_dict";
    "from_dict"; "reset_to_defaults" ].

Definition is_dunder (name : string) : bool := String.prefix "__" name.

Section Runtime.

(** [<repo_root>/assets], computed from [__file__]. *)
Variable default_assets_path : string.
(** The names every instance inherits from Python's [object]
    ([__class__], [__dict__], [__doc__], ...): they depend on the
    interpreter version. *)
Variable object_attr : string -> bool.
(** [setattr] on such a name; [None] when it raises. *)
Variable setattr_object :
  string -> json -> gmap string json -> option (gmap string json).
(** Whether the OS lets the process create and write the path. *)
Variable writable : string -> bool.

Hypothesis object_attr_dunder :
  forall name, object_attr name = true -> is_dunder name = true.

(** The instance [__dict__] that [__init__] builds before it loads
    the file. *)
Definition defaults (config_path : string) : gmap string json :=
  list_to_map
    [ ("ldplayer_path", JNull);
      ("start_server", JInt 577);
      ("end_server", JInt 550);
      ("click_delay", JFloat 15 (-1));
      ("device_id", JNull);
      ("emulator_index", JStr "0");
      ("assets_path", JStr default_assets_path);
      ("tessdata_path", JNull);
      ("dark_theme", JBool true);
      ("auto_start", JBool false);
      ("minimize_to_tray", JBool false);
      ("log_level", JStr "INFO");
      ("log_to_file", JBool true);
      ("performance_monitoring", JBool true);
      ("performance_interval", JFloat 50 (-1));
      ("config_path", JStr config_path) ].

(** [hasattr(self, key)]: the instance dictionary, the class, then
    [object]. *)
Definition hasattr (self : gmap string json) (key : string) : bool :=
  bool_decide (is_Some (self !! key))
  || existsb (String.eqb key) class_attrs
  || object_attr key.

(** [setattr(self, key, value)]: a name of [object] goes through the
    interpreter's own slot; any other name is stored in the instance
    dictionary, where it shadows a method of the same name. *)
Definition setattr (self : gmap string json) (key : string) (value : json)
  : option (gmap string json) :=
  if object_attr key then setattr_object key value self
  else Some (<[key := value]> self).

(** The loop [for key, value in settings.items()] of
    [_load_settings]; the instance is mutated in place, so a raising
    [setattr] leaves the updates made before it.  The flag tells
    whether the loop raised. *)
Fixpoint apply_items (items : list (string * json))
  (self : gmap string json) : gmap string json * bool :=
  match items with
  | [] => (self, false)
  | (key, value) :: rest =>
      if hasattr self key then
        match setattr self key value with
        | Some self' => apply_items rest self'
        | None => (self, true)
        end
      else apply_items rest self
  end.

(** [_load_settings]: the instance after the call, and whether the
    [except] branch logged an error.  [__init__] calls it with the
    constructor's string in [config_path]; any other value there is
    taken to make [os.path.exists] raise.  The log line after the loop
    reads [self.config_path] again, which raises when the loop left the
    instance without it. *)
Definition _load_settings (self : gmap string json)
  (fs : gmap string file) : gmap string json * bool :=
  match self !! "config_path" with
  | Some (JStr path) =>
      match fs !! path with
      | None => (self, false)
      | Some Garbage => (self, true)
      | Some (Doc (JObj items)) =>
          let '(loaded, failed) := apply_items items self in
          (loaded,
           failed || negb (bool_decide (is_Some (loaded !! "config_path"))))
      | Some (Doc _) => (self, true)
      end
  | _ => (self, true)
  end.

(** [BotSettings(config_path)]. *)
Definition BotSettings_init (config_path : string)
  (fs : gmap string file) : gmap string json :=
  fst (_load_settings (defaults config_path) fs).

(** [to_dict]: reads the 15 attributes; [None] is [AttributeError]. *)
Definition to_dict (self : gmap string json)
  : option (list (string * json)) :=
  mapM (fun key => value ← self !! key; Some (key, value)) settings_keys.

(** [save_settings]: the returned flag and the file system after. *)
Definition save_settings (self : gmap string json)
  (fs : gmap string file) : bool * gmap string file :=
  match self !! "config_path" with
  | Some (JStr path) =>
      if bool_decide (is_Some (self !! "to_dict")) then (false, fs)
      else
        match to_dict self with
        | None => (false, fs)
        | Some settings =>
            if writable path
            then (true, <[path := Doc (JObj settings)]> fs)
            else (false, fs)
        end
  | _ => (false, fs)
  end.

(** ** Lemmas *)

Definition store_items (items : list (string * json))
  (self : gmap string json) : gmap string json :=
  foldl (fun d kv => <[kv.1 := kv.2]> d) self items.

Lemma store_items_is_Some items key : forall self : gmap string json,
  is_Some (self !! key) -> is_Some (store_items items self !! key).
Proof.
  unfold store_items.
  induction items as [ | [k v] rest IH ]; intros self Hsome; [ exact Hsome | ].
  cbn [foldl fst snd]. apply IH.
  destruct (decide (k = key)) as [-> | Hne].
  - rewrite lookup_insert_eq. exists v. reflexivity.
  - rewrite lookup_insert_ne by exact Hne. exact Hsome.
Qed.

Lemma settings_key_not_object key :
  In key settings_keys -> object_attr key = false.
Proof.
  intros Hin. destruct (object_attr key) eqn:E; [ | reflexivity ].
  apply object_attr_dunder in E.
  cbn in Hin.
  repeat (destruct Hin as [<- | Hin]; [ discriminate E | ]).
  destruct Hin.
Qed.

Lemma apply_items_plain items : forall self,
  Forall (fun kv => object_attr kv.1 = false
                    /\ is_Some (self !! kv.1)) items ->
  apply_items items self = (store_items items self, false).
Proof.
  induction items as [ | [key value] rest IH ]; intros self Hall.
  - reflexivity.
  - inversion Hall as [ | ? ? [Hobj Hsome] Hrest ]; subst.
    cbn [apply_items]. unfold hasattr, setattr. cbn in Hobj, Hsome.
    rewrite Hobj, (bool_decide_eq_true_2 _ Hsome). cbn.
    apply IH.
    eapply Forall_impl; [ exact Hrest | ].
    intros [k v] [Ho Hs]. split; [ exact Ho | ]. cbn in *.
    destruct (decide (key = k)) as [-> | Hne].
    + rewrite lookup_insert_eq. eauto.
    + rewrite lookup_insert_ne by exact Hne. exact Hs.
Qed.

Lemma apply_items_skip items1 key value items2 : forall self,
  hasattr (apply_items items1 self).1 key = false ->
  apply_items (items1 ++ (key, value) :: items2) self
  = apply_items (items1 ++ items2) self.
Proof.
  induction items1 as [ | [k v] rest IH ]; intros self Hno.
  - cbn in *. rewrite Hno. reflexivity.
  - cbn in *. destruct (hasattr self k); [ | apply IH; exact Hno ].
    destruct (setattr self k v); [ apply IH; exact Hno | reflexivity ].
Qed.

Lemma hasattr_insert_ne self k v key :
  k <> key -> hasattr (<[k := v]> self) key = hasattr self key.
Proof.
  intros Hne. unfold hasattr.
  rewrite lookup_insert_ne by exact Hne. reflexivity.
Qed.

Lemma hasattr_preserved items1 key : forall self,
  Forall (fun kv => object_attr kv.1 = false /\ kv.1 <> key) items1 ->
  hasattr self key = false ->
  hasattr (apply_items items1 self).1 key = false.
Proof.
  induction items1 as [ | [k v] rest IH ]; intros self Hall Hno.
  - exact Hno.
  - inversion Hall as [ | ? ? [Hobj Hne] Hrest ]; subst. cbn in Hobj, Hne.
    cbn [apply_items]. destruct (hasattr self k).
    + unfold setattr. rewrite Hobj. apply IH; [ exact Hrest | ].
      rewrite hasattr_insert_ne by exact Hne. exact Hno.
    + apply IH; assumption.
Qed.

Lemma to_dict_inv self settings :
  to_dict self = Some settings ->
  map fst settings = settings_keys
  /\ Forall (fun kv => self !! kv.1 = Some kv.2) settings.
Proof.
  unfold to_dict, settings_keys. intros H. cbn in H.
  repeat match type of H with
    | context [self !! ?k] =>
        let E := fresh "E" in
        destruct (self !! k) eqn:E; cbn in H; [ | discriminate H ]
    end.
  injection H as <-. split; [ reflexivity | ].
  repeat constructor; assumption.
Qed.

Lemma defaults_config_path path :
  defaults path !! "config_path" = Some (JStr path).
Proof. reflexivity. Qed.

Lemma defaults_has_settings_keys path :
  Forall (fun key => is_Some (defaults path !! key)) settings_keys.
Proof. unfold settings_keys. repeat constructor; vm_compute; eauto. Qed.

Lemma store_settings_lookup self0 settings :
  map fst settings = settings_keys ->
  Forall (fun kv => store_items settings self0 !! kv.1 = Some kv.2) settings.
Proof.
  unfold settings_keys. intros Hkeys.
  repeat (destruct settings as [ | [? ?] settings ]; [ discriminate Hkeys | ]).
  destruct settings; [ | discriminate Hkeys ].
  cbn in Hkeys. injection Hkeys as -> -> -> -> -> -> -> -> -> -> -> -> -> -> ->.
  unfold store_items. cbn [foldl fst snd].
  repeat constructor; cbn [fst snd];
    repeat first [ apply lookup_insert_eq
                 | rewrite lookup_insert_ne by discriminate ].
Qed.

Lemma to_dict_intro self settings :
  map fst settings = settings_keys ->
  Forall (fun kv => self !! kv.1 = Some kv.2) settings ->
  to_dict self = Some settings.
Proof.
  unfold to_dict. intros <-. induction 1 as [ | [k v] rest Hk _ IH ].
  - reflexivity.
  - cbn in *. rewrite Hk. cbn. rewrite IH. reflexivity.
Qed.

(** Saving, then building a fresh instance from the written file. *)
Lemma save_then_init self fs path settings :
  self !! "config_path" = Some (JStr path) ->
  self !! "to_dict" = None ->
  to_dict self = Some settings ->
  writable path = true ->
  let fs' := <[path := Doc (JObj settings)]> fs in
  save_settings self fs = (true, fs')
  /\ _load_settings (defaults path) fs'
     = (BotSettings_init path fs', false)
  /\ to_dict (BotSettings_init path fs') = Some settings
  /\ Forall (fun key => BotSettings_init path fs' !! key = self !! key)
       settings_keys.
Proof.
  intros Hcfg Hmeth Hdict Hw fs'.
  destruct (to_dict_inv _ _ Hdict) as [Hkeys Hvals].
  assert (Hload : _load_settings (defaults path) fs'
                  = (store_items settings (defaults path), false)).
  { unfold _load_settings. rewrite defaults_config_path.
    unfold fs'. rewrite lookup_insert_eq.
    rewrite (apply_items_plain settings (defaults path)).
    - rewrite bool_decide_eq_true_2; [ reflexivity | ].
      apply store_items_is_Some. rewrite defaults_config_path.
      exists (JStr path). reflexivity.
    - apply Forall_forall. intros [k v] Hin. cbn.
      assert (Hk : In k settings_keys).
      { rewrite <- Hkeys. apply in_map_iff. exists (k, v).
        split; [ reflexivity | apply list_elem_of_In; exact Hin ]. }
      split; [ apply settings_key_not_object; exact Hk | ].
      pose proof (defaults_has_settings_keys path) as Hd.
      rewrite Forall_forall in Hd. apply Hd, list_elem_of_In, Hk. }
  assert (Hinit : BotSettings_init path fs'
                  = store_items settings (defaults path)).
  { unfold BotSettings_init. rewrite Hload. reflexivity. }
  pose proof (store_settings_lookup (defaults path) settings Hkeys) as Hnew.
  repeat split.
  - unfold save_settings. rewrite Hcfg, Hmeth, Hdict, Hw.
    rewrite bool_decide_eq_false_2; [ reflexivity | ].
    intros [? ?]; discriminate.
  - rewrite Hinit. exact Hload.
  - rewrite Hinit. apply to_dict_intro; assumption.
  - rewrite Hinit, <- Hkeys. apply Forall_fmap.
    rewrite Forall_forall in Hvals, Hnew. apply Forall_forall.
    intros kv Hin. unfold compose.
    rewrite (Hnew _ Hin), (Hvals _ Hin). reflexivity.
Qed.

(** A key that names no attribute when the loop reaches it. *)
Lemma load_skips_non_attribute self fs path items1 key value items2 :
  self !! "config_path" = Some (JStr path) ->
  fs !! path = Some (Doc (JObj (items1 ++ (key, value) :: items2))) ->
  Forall (fun kv => object_attr kv.1 = false /\ kv.1 <> key) items1 ->
  hasattr self key = false ->
  _load_settings self fs
  = _load_settings self (<[path := Doc (JObj (items1 ++ items2))]> fs).
Proof.
  intros Hcfg Hfile Hbefore Hno. unfold _load_settings.
  rewrite Hcfg, Hfile, lookup_insert_eq.
  match goal with
  | |- match ?with_key with _ => _ end = match ?without with _ => _ end =>
      assert (Hskip : with_key = without)
        by (apply apply_items_skip, hasattr_preserved; assumption)
  end.
  rewrite Hskip. reflexivity.
Qed.

End Runtime.

(** ** A reference runtime

    The names of [object] in CPython 3.11 and later and what [setattr]
    does with them on an instance of a plain class: [__class__] and
    [__weakref__] refuse a JSON value, [__dict__] takes a JSON object as
    the new instance dictionary, the other names are stored like any
    attribute. *)

Definition cpython_object_attrs : list string :=
  [ "__class__"; "__delattr__"; "__dict__"; "__dir__"; "__doc__";
    "__eq__"; "__format__"; "__ge__"; "__getattribute__";
    "__getstate__"; "__gt__";
    "__hash__"; "__init_subclass__"; "__le__"; "__lt__"; "__module__";
    "__ne__"; "__new__"; "__reduce__"; "__reduce_ex__"; "__repr__";
    "__setattr__"; "__sizeof__"; "__str__"; "__subclasshook__";
    "__weakref__" ].

Definition cpython_object_attr (name : string) : bool :=
  existsb (String.eqb name) cpython_object_attrs.

Definition cpython_setattr_object (name : string) (value : json)
  (self : gmap string json) : option (gmap string json) :=
  if String.eqb name "__class__" || String.eqb name "__weakref__" then None
  else if String.eqb name "__dict__" then
    match value with
    | JObj members => Some (list_to_map members)
    | _ => None
    end
  else Some (<[name := value]> self).

Lemma cpython_object_attr_dunder name :
  cpython_object_attr name = true -> is_dunder name = true.
Proof.
  unfold cpython_object_attr, cpython_object_attrs. cbn [existsb].
  rewrite !orb_true_iff. intros H.
  repeat (destruct H as [H | H];
          [ apply String.eqb_eq in H; subst name; reflexivity | ]).
  discriminate H.
Qed.

(** The claim of the specification about a key outside the settings
    fields: whatever else the document holds, dropping that key from it
    does not change what loading does. *)
Definition non_field_keys_ignored
  (object_attr : string -> bool)
  (setattr_object :
     string -> json -> gmap string json -> option (gmap string json))
  : Prop :=
  forall self fs path items1 key value items2,
    ~ In key settings_keys ->
    self !! "config_path" = Some (JStr path) ->
    fs !! path = Some (Doc (JObj (items1 ++ (key, value) :: items2))) ->
    _load_settings object_attr setattr_object self fs
    = _load_settings object_attr setattr_object self
        (<[path := Doc (JObj (items1 ++ items2))]> fs).

(** ** C6 *)

(** C6, as stated, fails: [config_path] is none of the settings fields
    that [to_dict] lists, yet a document holding that key is not loaded
    like the document without it: [hasattr] accepts the name and the
    loop overwrites the attribute.  A key named like a method is stored
    too: after loading a document with the key [to_dict], the instance
    can no longer be saved. *)
Lemma config_path_key_is_applied :
  ~ In "config_path" settings_keys
  /\ ~ non_field_keys_ignored cpython_object_attr cpython_setattr_object
  /\ save_settings (fun _ => true)
       (_load_settings cpython_object_attr cpython_setattr_object
          (defaults "assets" "config.json")
          {[ "config.json" := Doc (JObj [("to_dict", JInt 1)]) ]}).1
       ∅
     = (false, ∅).
Proof.
  split; [ | split ].
  - cbn. intuition discriminate.
  - intros H.
    specialize (H (defaults "assets" "config.json")
                  {[ "config.json" :=
                       Doc (JObj [("config_path", JStr "other.json")]) ]}
                  "config.json" [] "config_path" (JStr "other.json") []).
    assert (Hneq : ~ In "config_path" settings_keys)
      by (cbn; intuition discriminate).
    specialize (H Hneq eq_refl eq_refl).
    apply (f_equal (fun r => r.1 !! "config_path")) in H.
    vm_compute in H. discriminate H.
  - reflexivity.
Qed.

(** C6, amended: saving a settings object and building a fresh instance
    from the written file reproduces every one of the 15 settings fields
    exactly (the save reports success, the load logs no error); and a key
    of the loaded document that names no attribute of the settings object
    (no field, not [config_path], no method, no name of [object]) is
    ignored, provided no key before it in the document is a name of
    [object]: loading gives the same instance, and the same error flag,
    as loading the document without that key. *)
Theorem settings_roundtrip_and_ignored_key
  (default_assets_path : string)
  (object_attr : string -> bool)
  (setattr_object :
     string -> json -> gmap string json -> option (gmap string json))
  (writable : string -> bool) :
  (forall name, object_attr name = true -> is_dunder name = true) ->
  (forall self fs path settings,
      self !! "config_path" = Some (JStr path) ->
      self !! "to_dict" = None ->
      to_dict self = Some settings ->
      writable path = true ->
      let fs' := <[path := Doc (JObj settings)]> fs in
      save_settings writable self fs = (true, fs')
      /\ _load_settings object_attr setattr_object
           (defaults default_assets_path path) fs'
         = (BotSettings_init default_assets_path object_attr
              setattr_object path fs', false)
      /\ to_dict (BotSettings_init default_assets_path object_attr
                    setattr_object path fs') = Some settings
      /\ Forall (fun key =>
                   BotSettings_init default_assets_path object_attr
                     setattr_object path fs' !! key = self !! key)
           settings_keys)
  /\ (forall self fs path items1 key value items2,
        self !! "config_path" = Some (JStr path) ->
        fs !! path = Some (Doc (JObj (items1 ++ (key, value) :: items2))) ->
        Forall (fun kv => object_attr kv.1 = false /\ kv.1 <> key) items1 ->
        hasattr object_attr self key = false ->
        _load_settings object_attr setattr_object self fs
        = _load_settings object_attr setattr_object self
            (<[path := Doc (JObj (items1 ++ items2))]> fs)).
Proof.
  intros Hdunder. split.
  - intros self fs path settings. apply save_then_init. exact Hdunder.
  - intros self fs path items1 key value items2.
    apply load_skips_non_attribute.
Qed.

(** A settings object edited after construction, saved to an empty file
    system and read back; and a document with a stray key. *)
Definition edited_settings : gmap string json :=
  <["start_server" := JInt 505]>
    (<["log_level" := JStr "DEBUG"]> (defaults "assets" "config.json")).

Lemma settings_roundtrip_and_ignored_key_witness :
  (exists settings,
      to_dict edited_settings = Some settings
      /\ to_dict (BotSettings_init "assets" cpython_object_attr
                    cpython_setattr_object "config.json"
                    (<["config.json" := Doc (JObj settings)]> ∅))
         = Some settings)
  /\ _load_settings cpython_object_attr cpython_setattr_object
       (defaults "assets" "config.json")
       {[ "config.json" :=
            Doc (JObj [("end_server", JInt 500); ("colour", JStr "red")]) ]}
     = _load_settings cpython_object_attr cpython_setattr_object
         (defaults "assets" "config.json")
         (<["config.json" := Doc (JObj [("end_server", JInt 500)])]>
            {[ "config.json" :=
                 Doc (JObj [("end_server", JInt 500);
                            ("colour", JStr "red")]) ]}).
Proof.
  pose proof (settings_roundtrip_and_ignored_key "assets"
                cpython_object_attr cpython_setattr_object (fun _ => true)
                cpython_object_attr_dunder) as [Hround Hskip].
  split.
  - destruct (to_dict edited_settings) as [settings | ] eqn:Hd;
      [ | vm_compute in Hd; discriminate Hd ].
    exists settings. split; [ reflexivity | ].
    apply (Hround edited_settings ∅ "config.json" settings);
      [ reflexivity | reflexivity | exact Hd | reflexivity ].
  - apply (Hskip (defaults "assets" "config.json") _ "config.json"
             [("end_server", JInt 500)] "colour" (JStr "red") []).
    + reflexivity.
    + reflexivity.
    + repeat constructor. cbn. discriminate.
    + vm_compute. reflexivity.
Defined.

End Settings.


(* ===================================================================== *)
(** * Performance monitor: the resource check *)
(* ===================================================================== *)

Module Performance.

Local Open Scope Q_scope.

(** The numbers [psutil] hands out are floats; every float it can return
    is a rational and the checks compare against integer constants, so
    they are kept as [Q].  Memory sizes are byte counts. *)

(** What one run of [check_resources] gets from [psutil], call by call,
    in the order the code makes the calls. *)
Record Psutil : Type := {
  cpu_percent : result Q;                   (* psutil.cpu_percent() *)
  virtual_memory_update : result (Q * Z);   (* .percent, .available *)
  disk_usage : result Q;                    (* psutil.disk_usage('/').percent *)
  process_cpu_percent : result Q;           (* self.process.cpu_percent() *)
  cpu_count : result (option Z);            (* psutil.cpu_count() *)
  process_memory_percent : result Q;        (* self.process.memory_percent() *)
  virtual_memory_check : result (Q * Z)     (* second call, line 203 *)
}.

(** The metric attributes of [PerformanceMonitor]. *)
Record Monitor : Type := {
  cpu_usage : Q;
  memory_usage : Q;
  disk_usage_pct : Q;
  process_cpu_usage : Q;
  process_memory_usage : Q
}.

(** The monitor as [__init__] leaves it. *)
Definition new_monitor : Monitor :=
  {| cpu_usage := 0; memory_usage := 0; disk_usage_pct := 0;
     process_cpu_usage := 0; process_memory_usage := 0 |}.

Definition set_cpu_usage (v : Q) (m : Monitor) : Monitor :=
  {| cpu_usage := v; memory_usage := memory_usage m;
     disk_usage_pct := disk_usage_pct m;
     process_cpu_usage := process_cpu_usage m;
     process_memory_usage := process_memory_usage m |}.

Definition set_memory_usage (v : Q) (m : Monitor) : Monitor :=
  {| cpu_usage := cpu_usage m; memory_usage := v;
     disk_usage_pct := disk_usage_pct m;
     process_cpu_usage := process_cpu_usage m;
     process_memory_usage := process_memory_usage m |}.

Definition set_disk_usage (v : Q) (m : Monitor) : Monitor :=
  {| cpu_usage := cpu_usage m; memory_usage := memory_usage m;
     disk_usage_pct := v;
     process_cpu_usage := process_cpu_usage m;
     process_memory_usage := process_memory_usage m |}.

Definition set_process_cpu_usage (v : Q) (m : Monitor) : Monitor :=
  {| cpu_usage := cpu_usage m; memory_usage := memory_usage m;
     disk_usage_pct := disk_usage_pct m;
     process_cpu_usage := v;
     process_memory_usage := process_memory_usage m |}.

Definition set_process_memory_usage (v : Q) (m : Monitor) : Monitor :=
  {| cpu_usage := cpu_usage m; memory_usage := memory_usage m;
     disk_usage_pct := disk_usage_pct m;
     process_cpu_usage := process_cpu_usage m;
     process_memory_usage := v |}.

(** [a > b] on the sampled numbers. *)
Definition Qgtb (a b : Q) : bool := negb (Qle_bool a b).
(** [a < b]. *)
Definition Qltb (a b : Q) : bool := negb (Qle_bool b a).

(** [update_metrics]: the assignments run in order; the first raising
    call ends the [try] body, keeps what was assigned before it, and is
    logged, not re-raised.  The flag tells whether the [except] branch
    ran. *)
Definition update_metrics (ps : Psutil) (m : Monitor) : Monitor * bool :=
  match cpu_percent ps with
  | Raise _ => (m, true)
  | Ok cpu =>
    let m := set_cpu_usage cpu m in
    match virtual_memory_update ps with
    | Raise _ => (m, true)
    | Ok (mem_percent, _) =>
      let m := set_memory_usage mem_percent m in
      match disk_usage ps with
      | Raise _ => (m, true)
      | Ok disk =>
        let m := set_disk_usage disk m in
        match process_cpu_percent ps with
        | Raise _ => (m, true)
        | Ok pcpu =>
          match cpu_count ps with
          | Raise _ => (m, true)
          | Ok None => (m, true)               (* float / None: TypeError *)
          | Ok (Some n) =>
            if (n =? 0)%Z then (m, true)       (* ZeroDivisionError *)
            else
              let m := set_process_cpu_usage (pcpu / inject_Z n) m in
              match process_memory_percent ps with
              | Raise _ => (m, true)
              | Ok pmem => (set_process_memory_usage pmem m, false)
              end
          end
        end
      end
    end
  end.

(** [check_resources]: the verdict, the monitor after the call, and
    whether its own [except] branch ran. *)
Definition check_resources (ps : Psutil) (m : Monitor)
  : bool * Monitor * bool :=
  let m := fst (update_metrics ps m) in
  if Qgtb (cpu_usage m) 95 then (false, m, false)
  else if Qgtb (memory_usage m) 90 then (false, m, false)
  else if Qgtb (disk_usage_pct m) 95 then (false, m, false)
  else
    match virtual_memory_check ps with
    | Raise _ => (true, m, true)
    | Ok (_, available) =>
      let available_memory_mb := inject_Z available / inject_Z (1024 * 1024) in
      if Qltb available_memory_mb 500 then (false, m, false)
      else (true, m, false)
    end.

(** The verdict alone. *)
Definition resources_ok (ps : Psutil) (m : Monitor) : bool :=
  fst (fst (check_resources ps m)).

(** Whether some call made during the check raised: inside
    [update_metrics], or in [check_resources] itself. *)
Definition exception_during_check (ps : Psutil) (m : Monitor) : bool :=
  snd (update_metrics ps m) || snd (check_resources ps m).

(** The fail-open policy as the specification words it. *)
Definition fail_open_on_any_exception : Prop :=
  forall ps m, exception_during_check ps m = true -> resources_ok ps m = true.

Definition MB : Z := (1024 * 1024)%Z.

(** One sampling run with the given readings and no raising call. *)
Definition readings (cpu mem disk : Q) (available : Z) : Psutil :=
  {| cpu_percent := Ok cpu;
     virtual_memory_update := Ok (mem, available);
     disk_usage := Ok disk;
     process_cpu_percent := Ok 0;
     cpu_count := Ok (Some 4%Z);
     process_memory_percent := Ok 0;
     virtual_memory_check := Ok (mem, available) |}.

(** ** Lemmas *)

Lemma Qgtb_true a b : Qgtb a b = true <-> b < a.
Proof.
  unfold Qgtb. rewrite negb_true_iff, <- not_true_iff_false, Qle_bool_iff.
  split; [ apply Qnot_le_lt | apply Qlt_not_le ].
Qed.

Lemma Qgtb_false a b : Qgtb a b = false <-> a <= b.
Proof.
  unfold Qgtb. rewrite negb_false_iff. apply Qle_bool_iff.
Qed.

Lemma available_mb_below (available : Z) :
  Qltb (inject_Z available / inject_Z (1024 * 1024)) 500 = true
  <-> (available < 500 * MB)%Z.
Proof.
  unfold Qltb, MB. rewrite negb_true_iff, <- not_true_iff_false, Qle_bool_iff.
  change (1024 * 1024)%Z with 1048576%Z.
  unfold Qle, Qdiv, Qmult, Qinv, inject_Z. cbn [Qnum Qden].
  lia.
Qed.

Lemma available_mb_enough (available : Z) :
  Qltb (inject_Z available / inject_Z (1024 * 1024)) 500 = false
  <-> (500 * MB <= available)%Z.
Proof.
  rewrite <- not_true_iff_false, available_mb_below. lia.
Qed.

(** The three checked metrics after a sampling run whose first three
    calls returned, whatever the later calls do. *)
Lemma update_metrics_sampled ps m cpu mem available disk :
  cpu_percent ps = Ok cpu ->
  virtual_memory_update ps = Ok (mem, available) ->
  disk_usage ps = Ok disk ->
  cpu_usage (update_metrics ps m).1 = cpu
  /\ memory_usage (update_metrics ps m).1 = mem
  /\ disk_usage_pct (update_metrics ps m).1 = disk.
Proof.
  intros Hc Hm Hd. unfold update_metrics. rewrite Hc, Hm, Hd.
  destruct (process_cpu_percent ps); [ | now repeat split ].
  destruct (cpu_count ps) as [ [n | ] | ]; try (now repeat split).
  destruct (n =? 0)%Z; [ now repeat split | ].
  destruct (process_memory_percent ps); now repeat split.
Qed.

Lemma update_metrics_cpu ps m cpu :
  cpu_percent ps = Ok cpu -> cpu_usage (update_metrics ps m).1 = cpu.
Proof.
  intros Hc. unfold update_metrics. rewrite Hc.
  destruct (virtual_memory_update ps) as [ [mem a] | ]; [ | reflexivity ].
  destruct (disk_usage ps); [ | reflexivity ].
  destruct (process_cpu_percent ps); [ | reflexivity ].
  destruct (cpu_count ps) as [ [n | ] | ]; try reflexivity.
  destruct (n =? 0)%Z; [ reflexivity | ].
  destruct (process_memory_percent ps); reflexivity.
Qed.

(** The verdict in terms of the stored metrics and the second memory
    query. *)
Lemma resources_ok_iff ps m :
  resources_ok ps m = true <->
  cpu_usage (update_metrics ps m).1 <= 95
  /\ memory_usage (update_metrics ps m).1 <= 90
  /\ disk_usage_pct (update_metrics ps m).1 <= 95
  /\ match virtual_memory_check ps with
     | Raise _ => True
     | Ok (_, available) => (500 * MB <= available)%Z
     end.
Proof.
  unfold resources_ok, check_resources.
  set (m' := (update_metrics ps m).1).
  destruct (Qgtb (cpu_usage m') 95) eqn:Ec.
  { apply Qgtb_true in Ec. cbn. split; [ discriminate | ].
    intros [H _]. exfalso. exact (Qlt_not_le _ _ Ec H). }
  destruct (Qgtb (memory_usage m') 90) eqn:Em.
  { apply Qgtb_true in Em. cbn. split; [ discriminate | ].
    intros (_ & H & _). exfalso. exact (Qlt_not_le _ _ Em H). }
  destruct (Qgtb (disk_usage_pct m') 95) eqn:Ed.
  { apply Qgtb_true in Ed. cbn. split; [ discriminate | ].
    intros (_ & _ & H & _). exfalso. exact (Qlt_not_le _ _ Ed H). }
  apply Qgtb_false in Ec, Em, Ed.
  destruct (virtual_memory_check ps) as [ [mem available] | msg ].
  - destruct (Qltb _ 500) eqn:Ea; cbn.
    + apply available_mb_below in Ea.
      split; [ discriminate | intros (_ & _ & _ & H); lia ].
    + apply available_mb_enough in Ea. tauto.
  - cbn. tauto.
Qed.

(** ** C8 *)

(** C8, as stated, fails in its last part: on a fresh monitor, a run in
    which [psutil.cpu_percent] answers 96 and [psutil.virtual_memory]
    raises has an exception raised during the check, and the verdict is
    not-OK: [update_metrics] swallows the exception and the thresholds
    are applied to what was stored. *)
Lemma swallowed_exception_not_ok :
  ~ fail_open_on_any_exception.
Proof.
  intros H.
  specialize (H {| cpu_percent := Ok 96;
                   virtual_memory_update := Raise "psutil.Error";
                   disk_usage := Ok 10;
                   process_cpu_percent := Ok 0;
                   cpu_count := Ok (Some 4%Z);
                   process_memory_percent := Ok 0;
                   virtual_memory_check := Raise "psutil.Error" |}
                new_monitor eq_refl).
  vm_compute in H. discriminate H.
Qed.

(** C8, amended: [check_resources] reports not-OK when the sampled system
    CPU usage is 96% and OK at exactly 95% (the other readings being
    within their limits); not-OK when available memory is 499 MB and OK
    at exactly 500 MB; in general it reports OK exactly when the stored
    CPU usage is at most 95, memory usage at most 90, disk usage at most
    95, and the available-memory query either raises or returns at least
    500 MB.  An exception that reaches the handler of [check_resources]
    itself makes it report OK; an exception raised inside
    [update_metrics] is swallowed there and the limits are then applied
    to the values stored so far. *)
Theorem check_resources_thresholds :
  (forall ps m, cpu_percent ps = Ok 96 -> resources_ok ps m = false)
  /\ (forall ps m mem disk a1 mem2 a2,
        cpu_percent ps = Ok 95 ->
        virtual_memory_update ps = Ok (mem, a1) ->
        disk_usage ps = Ok disk ->
        virtual_memory_check ps = Ok (mem2, a2) ->
        mem <= 90 -> disk <= 95 -> (500 * MB <= a2)%Z ->
        resources_ok ps m = true)
  /\ (forall ps m cpu mem disk a1 mem2,
        cpu_percent ps = Ok cpu ->
        virtual_memory_update ps = Ok (mem, a1) ->
        disk_usage ps = Ok disk ->
        cpu <= 95 -> mem <= 90 -> disk <= 95 ->
        (virtual_memory_check ps = Ok (mem2, 499 * MB)%Z ->
         resources_ok ps m = false)
        /\ (virtual_memory_check ps = Ok (mem2, 500 * MB)%Z ->
            resources_ok ps m = true))
  /\ (forall ps m, snd (check_resources ps m) = true ->
        resources_ok ps m = true)
  /\ (forall ps m,
        resources_ok ps m = true <->
        cpu_usage (update_metrics ps m).1 <= 95
        /\ memory_usage (update_metrics ps m).1 <= 90
        /\ disk_usage_pct (update_metrics ps m).1 <= 95
        /\ match virtual_memory_check ps with
           | Raise _ => True
           | Ok (_, available) => (500 * MB <= available)%Z
           end).
Proof.
  split; [ | split; [ | split; [ | split ] ] ].
  - intros ps m Hc. apply not_true_iff_false. rewrite resources_ok_iff.
    rewrite (update_metrics_cpu ps m 96 Hc). intros [H _].
    revert H. apply Qlt_not_le. reflexivity.
  - intros ps m mem disk a1 mem2 a2 Hc Hm Hd Hv Hmem Hdisk Ha.
    apply resources_ok_iff.
    destruct (update_metrics_sampled ps m _ _ _ _ Hc Hm Hd) as (-> & -> & ->).
    rewrite Hv. repeat split; try assumption. discriminate.
  - intros ps m cpu mem disk a1 mem2 Hc Hm Hd Hcpu Hmem Hdisk.
    destruct (update_metrics_sampled ps m _ _ _ _ Hc Hm Hd) as (Ec & Em & Ed).
    split; intros Hv.
    + apply not_true_iff_false. rewrite resources_ok_iff, Hv.
      intros (_ & _ & _ & H). unfold MB in H. lia.
    + apply resources_ok_iff. rewrite Ec, Em, Ed, Hv.
      repeat split; try assumption. lia.
  - intros ps m. unfold resources_ok, check_resources.
    repeat match goal with
      | |- context [if ?b then _ else _] => destruct b; cbn; try discriminate
      end.
    destruct (virtual_memory_check ps) as [ [? ?] | ]; cbn;
      [ | reflexivity ].
    destruct (Qltb _ 500); cbn; [ discriminate | reflexivity ].
  - apply resources_ok_iff.
Qed.

Lemma check_resources_thresholds_witness :
  resources_ok (readings 96 50 50 (4096 * MB)) new_monitor = false
  /\ resources_ok (readings 95 50 50 (4096 * MB)) new_monitor = true
  /\ resources_ok (readings 40 50 50 (499 * MB)) new_monitor = false
  /\ resources_ok (readings 40 50 50 (500 * MB)) new_monitor = true.
Proof.
  destruct check_resources_thresholds as (H96 & H95 & Hmem & _).
  split; [ | split ].
  - apply H96. reflexivity.
  - apply (H95 _ new_monitor 50 50 (4096 * MB)%Z 50 (4096 * MB)%Z);
      try reflexivity; try (intros Hlt; discriminate Hlt).
  - pose proof (Hmem (readings 40 50 50 (499 * MB)) new_monitor
                  40 50 50 (499 * MB)%Z 50 eq_refl eq_refl eq_refl) as Hlow.
    pose proof (Hmem (readings 40 50 50 (500 * MB)) new_monitor
                  40 50 50 (500 * MB)%Z 50 eq_refl eq_refl eq_refl) as Hhigh.
    split.
    + apply Hlow; try (intros Hlt; discriminate Hlt). reflexivity.
    + apply Hhigh; try (intros Hlt; discriminate Hlt). reflexivity.
Defined.

End Performance.


(* ===================================================================== *)
(** * Emulator facade: the multi-point swipe *)
(* ===================================================================== *)

Module Emulator.

(** What the facade asks of the outside, in the order it asks. *)
Inductive event : Type :=
| Sleep (ms : Z)                            (* time.sleep(ms / 1000) *)
| AdbSwipe (start_x start_y end_x end_y duration_ms : Z).
                                            (* self.adb.swipe(...) *)

Definition is_swipe (ev : event) : bool :=
  match ev with
  | AdbSwipe _ _ _ _ _ => true
  | Sleep _ => false
  end.

(** The facade's own fields, with the log of what it asked so far. *)
Record Facade (World : Type) : Type := {
  world : World;
  last_action_time : Z;       (* milliseconds *)
  trace : list event
}.
Arguments world {World} _.
Arguments last_action_time {World} _.
Arguments trace {World} _.

(** [self.min_action_interval = 1.5]. *)
Definition min_action_interval : Z := 1500.

Section Facade.

Variable World : Type.
(** [time.time()], in milliseconds. *)
Variable time_now : World -> Z.
(** [time.sleep]. *)
Variable time_sleep : Z -> World -> World.
(** [ADB.swipe]: it catches its own exceptions and returns a flag. *)
Variable adb_swipe : Z -> Z -> Z -> Z -> Z -> World -> World * bool.

Definition sleep (ms : Z) (e : Facade World) : Facade World :=
  {| world := time_sleep ms (world e);
     last_action_time := last_action_time e;
     trace := trace e ++ [Sleep ms] |}.

Definition swipe_leg (p q : Z * Z) (duration_ms : Z) (e : Facade World)
  : bool * Facade World :=
  let '(w, ok) := adb_swipe p.1 p.2 q.1 q.2 duration_ms (world e) in
  (ok, {| world := w;
          last_action_time := last_action_time e;
          trace := trace e ++ [AdbSwipe p.1 p.2 q.1 q.2 duration_ms] |}).

Definition touch (e : Facade World) : Facade World :=
  {| world := world e;
     last_action_time := time_now (world e);
     trace := trace e |}.

(** [wait_for_interval]. *)
Definition wait_for_interval (e : Facade World) : Facade World :=
  let current_time := time_now (world e) in
  let time_since_last_action := current_time - last_action_time e in
  if time_since_last_action <? min_action_interval
  then sleep (min_action_interval - time_since_last_action) e
  else e.

(** The body of [for i in range(len(points) - 1)], from index [i] for
    [count] more rounds; a missing point would be an [IndexError]. *)
Fixpoint swipe_legs (points : list (Z * Z)) (segment_duration : Z)
  (i count : nat) (success : bool) (e : Facade World)
  : result (bool * Facade World) :=
  match count with
  | O => Ok (success, e)
  | S count' =>
      match points !! i, points !! S i with
      | Some start, Some finish =>
          let '(res, e) := swipe_leg start finish segment_duration e in
          let success := success && res in
          let e := sleep 100 e in
          swipe_legs points segment_duration (S i) count' success e
      | _, _ => Raise "IndexError"
      end
  end.

(** [complex_swipe(points, duration_ms)]. *)
Definition complex_swipe (points : list (Z * Z)) (duration_ms : Z)
  (e : Facade World) : bool * Facade World :=
  if (length points <? 2)%nat then (false, e)
  else
    let e := wait_for_interval e in
    let segment_duration := duration_ms / (Z.of_nat (length points) - 1) in
    match swipe_legs points segment_duration 0 (length points - 1) true e with
    | Ok (success, e) => (success, touch e)
    | Raise _ => (false, e)
    end.

(** The events of the legs along a list of points: a swipe between
    neighbours, then the 0.1 s pause. *)
Fixpoint leg_events (points : list (Z * Z)) (segment_duration : Z)
  : list event :=
  match points with
  | p :: (q :: _) as rest =>
      AdbSwipe p.1 p.2 q.1 q.2 segment_duration :: Sleep 100
        :: leg_events rest segment_duration
  | _ => []
  end.

(** The device and the flag after the legs along a list of points, run
    on the device [w]: [ADB.swipe] between neighbours, the 0.1 s pause
    after each, and the conjunction of the flags. *)
Fixpoint legs_outcome (points : list (Z * Z)) (segment_duration : Z)
  (w : World) : World * bool :=
  match points with
  | p :: (q :: _) as rest =>
      let '(w, ok) := adb_swipe p.1 p.2 q.1 q.2 segment_duration w in
      let '(w, oks) := legs_outcome rest segment_duration (time_sleep 100 w) in
      (w, ok && oks)
  | _ => (w, true)
  end.

(** What [wait_for_interval] did: nothing, or one sleep on the device. *)
Definition paced (e e0 : Facade World) (pacing : list event) : Prop :=
  trace e0 = trace e ++ pacing
  /\ ((pacing = [] /\ world e0 = world e)
      \/ exists ms, pacing = [Sleep ms] /\ world e0 = time_sleep ms (world e)).

(** ** Lemmas *)

Lemma wait_for_interval_paced e :
  exists pacing, paced e (wait_for_interval e) pacing.
Proof.
  unfold wait_for_interval, paced.
  destruct (_ <? min_action_interval).
  - eexists [Sleep _]. cbn. split; [ reflexivity | right; eauto ].
  - exists []. rewrite app_nil_r. split; [ reflexivity | left; split; reflexivity ].
Qed.

Lemma legs_outcome_cons p q rest seg w :
  legs_outcome (p :: q :: rest) seg w
  = (let leg := adb_swipe p.1 p.2 q.1 q.2 seg w in
     let out := legs_outcome (q :: rest) seg (time_sleep 100 leg.1) in
     (out.1, leg.2 && out.2)).
Proof.
  change (legs_outcome (p :: q :: rest) seg w)
    with (let '(w1, ok) := adb_swipe p.1 p.2 q.1 q.2 seg w in
          let '(w2, oks) := legs_outcome (q :: rest) seg (time_sleep 100 w1) in
          (w2, ok && oks)).
  destruct (adb_swipe p.1 p.2 q.1 q.2 seg w) as [w1 ok]. cbn [fst snd].
  destruct (legs_outcome (q :: rest) seg (time_sleep 100 w1)) as [w2 oks].
  reflexivity.
Qed.

(** The loop runs the legs on the device, in order, and returns the
    conjunction of their flags. *)
Lemma swipe_legs_run points seg : forall count i success e,
  (i + count < length points)%nat ->
  let legs := firstn (S count) (skipn i points) in
  swipe_legs points seg i count success e
  = Ok (success && (legs_outcome legs seg (world e)).2,
        {| world := (legs_outcome legs seg (world e)).1;
           last_action_time := last_action_time e;
           trace := trace e ++ leg_events legs seg |}).
Proof.
  induction count as [ | count IH ]; intros i success e Hlen legs.
  - cbn [swipe_legs]. unfold legs.
    destruct (skipn i points) as [ | p rest ]; cbn;
      [ | destruct rest ]; rewrite app_nil_r, andb_true_r; destruct e;
      reflexivity.
  - cbn [swipe_legs].
    destruct (lookup_lt_is_Some_2 points i ltac:(lia)) as [p Hp].
    destruct (lookup_lt_is_Some_2 points (S i) ltac:(lia)) as [q Hq].
    rewrite Hp, Hq. unfold legs.
    rewrite (drop_S points p i Hp), (drop_S points q (S i) Hq).
    change (firstn (S (S count)) (p :: q :: skipn (S (S i)) points))
      with (p :: q :: firstn count (skipn (S (S i)) points)).
    rewrite legs_outcome_cons. unfold swipe_leg.
    destruct (adb_swipe _ _ _ _ _ _) as [w ok]. cbn [fst snd].
    rewrite (IH (S i) (success && ok)) by lia.
    rewrite (drop_S points q (S i) Hq).
    change (firstn (S count) (q :: skipn (S (S i)) points))
      with (q :: firstn count (skipn (S (S i)) points)).
    cbn [sleep world trace last_action_time leg_events].
    rewrite <- !app_assoc, andb_assoc. reflexivity.
Qed.

(** With two points or more, the call paces once, then runs one leg per
    pair of neighbours, each of [duration_ms // (len(points) - 1)], and
    stamps the time of the last action. *)
Lemma complex_swipe_run points duration_ms e :
  (2 <= length points)%nat ->
  let segment_duration := duration_ms / (Z.of_nat (length points) - 1) in
  let e0 := wait_for_interval e in
  let out := legs_outcome points segment_duration (world e0) in
  complex_swipe points duration_ms e
  = (out.2,
     {| world := out.1; last_action_time := time_now out.1;
        trace := trace e0 ++ leg_events points segment_duration |}).
Proof.
  intros Hlen segment_duration e0 out. unfold complex_swipe.
  destruct (Nat.ltb_spec (length points) 2) as [Hlt | _]; [ lia | ].
  fold segment_duration. fold e0.
  rewrite (swipe_legs_run points segment_duration (length points - 1) 0 true e0)
    by lia.
  replace (S (length points - 1)) with (length points) by lia.
  cbn [skipn]. rewrite firstn_all. fold out. reflexivity.
Qed.

Lemma leg_events_swipes points seg :
  length (List.filter is_swipe (leg_events points seg))
  = (length points - 1)%nat.
Proof.
  induction points as [ | p [ | q rest ] IH ]; try reflexivity.
  cbn [leg_events List.filter is_swipe length] in *. rewrite IH. cbn. lia.
Qed.

End Facade.

Arguments paced {World} time_sleep e e0 pacing.

(** ** C7 *)

(** C7: [complex_swipe] with 4 points and a total of 1500 ms asks the
    device for exactly 3 swipes of 500 ms each, one per pair of
    neighbouring points and each on the device as the previous leg and
    its pause left it, with a 0.1 s sleep after each of them (so between
    any two legs), after at most one pacing sleep; it returns the
    conjunction of the three flags of [ADB.swipe] and stamps the time
    of the last action.  In general it runs [len(points) - 1] legs of
    [duration_ms // (len(points) - 1)] in this way; with fewer than 2
    points it returns [False] at once, leaving the facade and the device
    untouched and the log of requests empty. *)
Theorem complex_swipe_legs (World : Type)
  (time_now : World -> Z) (time_sleep : Z -> World -> World)
  (adb_swipe : Z -> Z -> Z -> Z -> Z -> World -> World * bool) :
  (forall p0 p1 p2 p3 e,
      let e0 := wait_for_interval World time_now time_sleep e in
      let leg1 := adb_swipe p0.1 p0.2 p1.1 p1.2 500 (world e0) in
      let leg2 := adb_swipe p1.1 p1.2 p2.1 p2.2 500 (time_sleep 100 leg1.1) in
      let leg3 := adb_swipe p2.1 p2.2 p3.1 p3.2 500 (time_sleep 100 leg2.1) in
      let device := time_sleep 100 leg3.1 in
      complex_swipe World time_now time_sleep adb_swipe
        [p0; p1; p2; p3] 1500 e
      = (leg1.2 && leg2.2 && leg3.2,
         {| world := device; last_action_time := time_now device;
            trace := trace e0
                     ++ [ AdbSwipe p0.1 p0.2 p1.1 p1.2 500; Sleep 100;
                          AdbSwipe p1.1 p1.2 p2.1 p2.2 500; Sleep 100;
                          AdbSwipe p2.1 p2.2 p3.1 p3.2 500; Sleep 100 ] |})
      /\ exists pacing, paced time_sleep e e0 pacing)
  /\ (forall points duration_ms e,
        (2 <= length points)%nat ->
        let segment_duration :=
          duration_ms / (Z.of_nat (length points) - 1) in
        let e0 := wait_for_interval World time_now time_sleep e in
        let out :=
          legs_outcome World time_sleep adb_swipe points segment_duration
            (world e0) in
        complex_swipe World time_now time_sleep adb_swipe
          points duration_ms e
        = (out.2,
           {| world := out.1; last_action_time := time_now out.1;
              trace := trace e0 ++ leg_events points segment_duration |})
        /\ (exists pacing, paced time_sleep e e0 pacing)
        /\ length (List.filter is_swipe
                     (leg_events points segment_duration))
           = (length points - 1)%nat)
  /\ (forall points duration_ms e,
        (length points < 2)%nat ->
        complex_swipe World time_now time_sleep adb_swipe
          points duration_ms e = (false, e)).
Proof.
  split; [ | split ].
  - intros p0 p1 p2 p3 e e0 leg1 leg2 leg3 device.
    split; [ | apply wait_for_interval_paced ].
    rewrite (complex_swipe_run World time_now time_sleep adb_swipe
               [p0; p1; p2; p3] 1500 e) by (cbn; lia).
    change (1500 / (Z.of_nat (length [p0; p1; p2; p3]) - 1)) with 500.
    fold e0. cbn [legs_outcome leg_events]. subst device leg3 leg2 leg1.
    destruct (adb_swipe p0.1 p0.2 p1.1 p1.2 500 (world e0)) as [w1 ok1].
    cbn [fst snd].
    destruct (adb_swipe p1.1 p1.2 p2.1 p2.2 500 (time_sleep 100 w1))
      as [w2 ok2].
    cbn [fst snd].
    destruct (adb_swipe p2.1 p2.2 p3.1 p3.2 500 (time_sleep 100 w2))
      as [w3 ok3].
    cbn [fst snd]. rewrite andb_true_r, andb_assoc. reflexivity.
  - intros points duration_ms e Hlen segment_duration e0 out.
    split; [ | split ].
    + apply complex_swipe_run, Hlen.
    + apply wait_for_interval_paced.
    + apply leg_events_swipes.
  - intros points duration_ms e Hlen. unfold complex_swipe.
    destruct (Nat.ltb_spec (length points) 2) as [_ | Hge]; [ reflexivity | lia ].
Qed.

(** A device with a clock in milliseconds: a swipe takes its duration
    and succeeds unless it starts off the screen, to the left. *)
Definition clock_swipe (x1 y1 x2 y2 duration_ms : Z) (now : Z) : Z * bool :=
  (now + duration_ms, 0 <=? x1).

Definition idle_facade : Facade Z :=
  {| world := 0; last_action_time := 0; trace := [] |}.

Definition square_path : list (Z * Z) :=
  [(100, 200); (300, 200); (300, 400); (100, 400)].

Lemma complex_swipe_legs_witness :
  (let segment_duration := 1000 / (Z.of_nat (length square_path) - 1) in
   let e0 := wait_for_interval Z id Z.add idle_facade in
   let out :=
     legs_outcome Z Z.add clock_swipe square_path segment_duration
       (world e0) in
   complex_swipe Z id Z.add clock_swipe square_path 1000 idle_facade
   = (out.2,
      {| world := out.1; last_action_time := id out.1;
         trace := trace e0 ++ leg_events square_path segment_duration |})
   /\ (exists pacing, paced Z.add idle_facade e0 pacing)
   /\ length (List.filter is_swipe
                (leg_events square_path segment_duration))
      = (length square_path - 1)%nat)
  /\ complex_swipe Z id Z.add clock_swipe [(100, 200)] 1000 idle_facade
     = (false, idle_facade).
Proof.
  destruct (complex_swipe_legs Z id Z.add clock_swipe) as (_ & Hgen & Hshort).
  split.
  - apply Hgen. cbn. lia.
  - apply Hshort. cbn. lia.
Defined.

End Emulator.


(* ===================================================================== *)
(** * Image recognition: overlap suppression *)
(* ===================================================================== *)

Module Recognition.

(** A candidate [(x, y, w, h)]; a row [[x1, y1, x2, y2]] of
    [boxes_array] has the same shape.  [np.array] makes the rows of
    Python integers an array of 64-bit integers, so the sums, differences
    and products that numpy computes on them wrap around. *)
Definition box : Type := Z * Z * Z * Z.

(** The number a signed 64-bit integer holds for [z]. *)
Definition int64 (z : Z) : Z := (z + 2 ^ 63) mod 2 ^ 64 - 2 ^ 63.

Definition add64 (a b : Z) : Z := int64 (a + b).
Definition sub64 (a b : Z) : Z := int64 (a - b).
Definition mul64 (a b : Z) : Z := int64 (a * b).

(** [[x, y, x + w, y + h]], computed on the numbers of the candidate
    before the array is made. *)
Definition corners (b : box) : box :=
  let '(x, y, w, h) := b in (x, y, x + w, y + h).

(** [(boxes_array[i, 0], boxes_array[i, 1], x2 - x1, y2 - y1)]. *)
Definition uncorner (c : box) : box :=
  let '(x1, y1, x2, y2) := c in (x1, y1, sub64 x2 x1, sub64 y2 y1).

(** [(x2 - x1 + 1) * (y2 - y1 + 1)]. *)
Definition area_of (c : box) : Z :=
  let '(x1, y1, x2, y2) := c in
  mul64 (add64 (sub64 x2 x1) 1) (add64 (sub64 y2 y1) 1).

(** [w * h] of the overlap of a picked row with another row. *)
Definition inter_area (c d : box) : Z :=
  let '(cx1, cy1, cx2, cy2) := c in
  let '(dx1, dy1, dx2, dy2) := d in
  let xx1 := Z.max cx1 dx1 in
  let yy1 := Z.max cy1 dy1 in
  let xx2 := Z.min cx2 dx2 in
  let yy2 := Z.min cy2 dy2 in
  let w := Z.max 0 (add64 (sub64 xx2 xx1) 1) in
  let h := Z.max 0 (add64 (sub64 yy2 yy1) 1) in
  mul64 w h.

(** [(w * h) / area > 0.3] on integer arrays: the quotient is computed
    in floating point; for areas of less than 10^15 in absolute value
    the test agrees with the exact comparison of [10 * (w * h)] with
    [3 * area].  A zero area gives [inf], [-inf] or, for [0 / 0],
    [nan]; dividing by a negative area turns the comparison round. *)
Definition overlap_exceeds (inter area : Z) : bool :=
  if 0 <? area then 3 * area <? 10 * inter
  else if area =? 0 then 0 <? inter
  else 10 * inter <? 3 * area.

(** Row [i] of [boxes_array]; indices are always in range, the default
    row has area 0. *)
Definition row (boxes_array : list box) (i : nat) : box :=
  nth i boxes_array (0, 0, -1, -1).

(** [np.argsort(area)]: the positions by increasing area.  numpy leaves
    the order of equal areas to the sort it picks: its default sorts up
    to 16 numbers by insertion, which keeps equal areas in index order
    as this one does, and longer arrays by a quicksort, which need not.
    What is proved for every sort is stated with [sorts_by_area]
    below. *)
Fixpoint insert_index (area : list Z) (i : nat) (sorted : list nat)
  : list nat :=
  match sorted with
  | [] => [i]
  | j :: rest =>
      if nth i area 0 <=? nth j area 0 then i :: j :: rest
      else j :: insert_index area i rest
  end.

Definition argsort (area : list Z) : list nat :=
  foldr (insert_index area) [] (seq 0 (length area)).

(** The [while len(idxs) > 0] loop; [fuel] bounds the rounds, each of
    which drops at least the last position. *)
Fixpoint suppression_loop (fuel : nat) (boxes_array : list box)
  (area : list Z) (idxs pick : list nat) : list nat :=
  match fuel with
  | O => pick
  | S fuel' =>
      match idxs with
      | [] => pick
      | _ :: _ =>
          let last := (length idxs - 1)%nat in
          let i := nth last idxs O in
          let pick := pick ++ [i] in
          let others := firstn last idxs in          (* idxs[:last] *)
          let keep (j : nat) : bool :=
            negb (overlap_exceeds
                    (inter_area (row boxes_array i) (row boxes_array j))
                    (nth j area 0)) in
          suppression_loop fuel' boxes_array area
            (List.filter keep others) pick
      end
  end.

(** [_non_max_suppression(boxes)] with [overlap_thresh = 0.3], over the
    sort that [np.argsort] runs. *)
Definition non_max_suppression_with (sort : list Z -> list nat)
  (boxes : list box) : list box :=
  match boxes with
  | [] => []
  | _ :: _ =>
      let boxes_array := map corners boxes in
      let area := map area_of boxes_array in
      let idxs := rev (sort area) in
      let pick := suppression_loop (length idxs) boxes_array area idxs [] in
      map (fun i => uncorner (row boxes_array i)) pick
  end.

Definition _non_max_suppression (boxes : list box) : list box :=
  non_max_suppression_with argsort boxes.

(** What [np.argsort] promises: the positions of the array, each once,
    by increasing value. *)
Definition sorts_by_area (sort : list Z -> list nat) : Prop :=
  forall area,
    Permutation (sort area) (seq 0 (length area))
    /\ StronglySorted (fun i j => nth i area 0 <= nth j area 0) (sort area).

Example nms_nested :
  _non_max_suppression [(0, 0, 99, 99); (0, 0, 9, 9)]
  = [(0, 0, 9, 9); (0, 0, 99, 99)].
Proof. reflexivity. Qed.

Example nms_close :
  _non_max_suppression [(0, 0, 10, 10); (0, 0, 9, 9)] = [(0, 0, 9, 9)].
Proof. reflexivity. Qed.

Example nms_adjacent_small :
  _non_max_suppression [(0, 0, 1, 1); (1, 0, 1, 1)] = [(0, 0, 1, 1)].
Proof. reflexivity. Qed.

(** The area of a candidate of 4000000001 pixels a side does not fit 64
    bits: it wraps around to a negative number, the candidate is picked
    first and the 11 x 11 one inside it is dropped. *)
Example nms_wraps :
  area_of (corners (0, 0, 4000000000, 4000000000)) = -2446744065709551615
  /\ _non_max_suppression
       [(0, 0, 10, 10); (0, 0, 4000000000, 4000000000)]
     = [(0, 0, 4000000000, 4000000000)].
Proof. split; reflexivity. Qed.

(** ** The same pass on rows

    The loop looks at positions only through the rows they name, so the
    pass is a greedy selection on the rows taken by increasing area. *)

(** Picking [c] removes [d]. *)
Definition suppresses (c d : box) : bool :=
  overlap_exceeds (inter_area c d) (area_of d).

Definition keeps (c d : box) : bool := negb (suppresses c d).

Fixpoint insert_box (c : box) (sorted : list box) : list box :=
  match sorted with
  | [] => [c]
  | d :: rest =>
      if area_of c <=? area_of d then c :: d :: rest
      else d :: insert_box c rest
  end.

Definition sort_boxes (rows : list box) : list box :=
  foldr insert_box [] rows.

Fixpoint greedy (fuel : nat) (rows : list box) : list box :=
  match fuel with
  | O => []
  | S fuel' =>
      match rows with
      | [] => []
      | c :: rest => c :: greedy fuel' (List.filter (keeps c) rest)
      end
  end.

Definition greedy_all (rows : list box) : list box :=
  greedy (length rows) rows.

Definition by_area (c d : box) : Prop := area_of c <= area_of d.

(** Two candidates with no common pixel, corners included. *)
Definition separated (a b : box) : Prop :=
  let '(ax, ay, aw, ah) := a in
  let '(bx, by_, bw, bh) := b in
  ax + aw < bx \/ bx + bw < ax \/ ay + ah < by_ \/ by_ + bh < ay.

(** Numbers of a screen: at most [2 ^ 24] in absolute value.  On
    candidates of such sizes no area wraps around and the floating-point
    quotient decides as the exact one does; when their places are such
    numbers too, the overlap does not wrap around either. *)
Definition coordinate_limit : Z := 16777216.

Definition small (n : Z) : Prop := - coordinate_limit <= n <= coordinate_limit.

Definition sized (b : box) : Prop :=
  let '(_, _, w, h) := b in small w /\ small h.

Definition in_range (b : box) : Prop :=
  let '(x, y, w, h) := b in small x /\ small y /\ small w /\ small h.

(** The same for a row: the sides are small. *)
Definition fits (c : box) : Prop :=
  let '(x1, y1, x2, y2) := c in small (x2 - x1) /\ small (y2 - y1).

(** The pixels two candidates share, counted as on a screen. *)
Definition shared_pixels (a b : box) : Z :=
  let '(ax, ay, aw, ah) := a in
  let '(bx, by_, bw, bh) := b in
  Z.max 0 (Z.min (ax + aw) (bx + bw) - Z.max ax bx + 1)
  * Z.max 0 (Z.min (ay + ah) (by_ + bh) - Z.max ay by_ + 1).

(** ** Lemmas *)

(** *** Numbers that do not wrap around *)

Lemma int64_fits z : - 2 ^ 63 <= z < 2 ^ 63 -> int64 z = z.
Proof.
  unfold int64. change (2 ^ 64) with 18446744073709551616.
  change (2 ^ 63) with 9223372036854775808. intros Hz.
  rewrite Z.mod_small by lia. lia.
Qed.

Lemma small_fits64 n m :
  small n -> -2 <= m <= 2 -> - 2 ^ 63 <= n + m < 2 ^ 63.
Proof.
  unfold small, coordinate_limit.
  change (2 ^ 63) with 9223372036854775808. lia.
Qed.

Lemma sub64_small a b : small (a - b) -> sub64 a b = a - b.
Proof.
  intros Hs. unfold sub64. apply int64_fits.
  pose proof (small_fits64 (a - b) 0 Hs ltac:(lia)). lia.
Qed.

Lemma side_small a b : small (a - b) -> add64 (sub64 a b) 1 = a - b + 1.
Proof.
  intros Hs. rewrite sub64_small by exact Hs. unfold add64.
  apply int64_fits, small_fits64; [ exact Hs | lia ].
Qed.

Lemma mul64_sides m n :
  - 2 ^ 27 <= m <= 2 ^ 27 -> - 2 ^ 27 <= n <= 2 ^ 27 -> mul64 m n = m * n.
Proof.
  change (2 ^ 27) with 134217728. intros Hm Hn. unfold mul64.
  apply int64_fits. change (2 ^ 63) with 9223372036854775808. nia.
Qed.

Lemma small_side n : small n -> - 2 ^ 27 <= n + 1 <= 2 ^ 27.
Proof.
  unfold small, coordinate_limit. change (2 ^ 27) with 134217728. lia.
Qed.

Lemma area_of_fits x1 y1 x2 y2 :
  fits (x1, y1, x2, y2) ->
  area_of (x1, y1, x2, y2) = (x2 - x1 + 1) * (y2 - y1 + 1).
Proof.
  intros [Hw Hh]. unfold area_of. rewrite !side_small by assumption.
  apply mul64_sides; apply small_side; assumption.
Qed.

Lemma in_range_sized b : in_range b -> sized b.
Proof. destruct b as [[[x y] w] h]. cbn. tauto. Qed.

Lemma fits_corners b : sized b -> fits (corners b).
Proof.
  destruct b as [[[x y] w] h]. cbn. intros [Hw Hh].
  replace (x + w - x) with w by lia. replace (y + h - y) with h by lia.
  split; assumption.
Qed.

Lemma Forall_fits_corners boxes :
  Forall sized boxes -> Forall fits (map corners boxes).
Proof.
  intros Hall. apply Forall_map. eapply List.Forall_impl; [ | exact Hall ].
  exact fits_corners.
Qed.

Lemma Forall_in_range_sized boxes :
  Forall in_range boxes -> Forall sized boxes.
Proof.
  intros Hall. eapply List.Forall_impl; [ | exact Hall ].
  exact in_range_sized.
Qed.

(** The area of a candidate is the number of its pixels, corners
    included. *)
Lemma area_of_sized x y w h :
  sized (x, y, w, h) -> area_of (corners (x, y, w, h)) = (w + 1) * (h + 1).
Proof.
  intros Hs. cbn [corners].
  rewrite area_of_fits by exact (fits_corners (x, y, w, h) Hs).
  f_equal; lia.
Qed.

(** The overlap of two candidates is the number of the pixels they
    share. *)
Lemma inter_area_in_range a b :
  in_range a -> in_range b ->
  inter_area (corners a) (corners b) = shared_pixels a b.
Proof.
  destruct a as [[[ax ay] aw] ah], b as [[[bx by_] bw] bh].
  unfold in_range, small, coordinate_limit, inter_area, corners,
    shared_pixels.
  intros (Hax & Hay & Haw & Hah) (Hbx & Hby & Hbw & Hbh).
  assert (Hside : forall lo hi,
             -33554432 <= lo <= 33554432 -> -33554432 <= hi <= 33554432 ->
             add64 (sub64 hi lo) 1 = hi - lo + 1).
  { intros lo hi Hlo Hhi. unfold add64, sub64.
    rewrite (int64_fits (hi - lo))
      by (change (2 ^ 63) with 9223372036854775808; lia).
    apply int64_fits. change (2 ^ 63) with 9223372036854775808. lia. }
  rewrite !Hside by lia.
  apply mul64_sides; change (2 ^ 27) with 134217728; lia.
Qed.

Lemma fits_default : fits (0, 0, -1, -1).
Proof.
  unfold fits, small, coordinate_limit. lia.
Qed.

Lemma fits_row boxes_array i :
  Forall fits boxes_array -> fits (row boxes_array i).
Proof.
  intros Hall. unfold row.
  destruct (nth_in_or_default i boxes_array (0, 0, -1, -1)) as [Hin | ->].
  - rewrite List.Forall_forall in Hall. apply Hall, Hin.
  - exact fits_default.
Qed.

(** *** Rows and positions *)

Lemma nth_area boxes_array j :
  nth j (map area_of boxes_array) 0 = area_of (row boxes_array j).
Proof.
  unfold row. change 0 with (area_of (0, 0, -1, -1)). apply map_nth.
Qed.

Lemma map_row_insert boxes_array i sorted :
  map (row boxes_array) (insert_index (map area_of boxes_array) i sorted)
  = insert_box (row boxes_array i) (map (row boxes_array) sorted).
Proof.
  induction sorted as [ | j rest IH ]; [ reflexivity | ].
  cbn [insert_index insert_box map]. rewrite !nth_area.
  destruct (_ <=? _); [ reflexivity | ].
  cbn [map]. rewrite IH. reflexivity.
Qed.

Lemma map_row_argsort_from boxes_array : forall m k,
  (k + m <= length boxes_array)%nat ->
  map (row boxes_array)
    (foldr (insert_index (map area_of boxes_array)) [] (seq k m))
  = sort_boxes (firstn m (skipn k boxes_array)).
Proof.
  induction m as [ | m IH ]; intros k Hlen; [ reflexivity | ].
  destruct (lookup_lt_is_Some_2 boxes_array k ltac:(lia)) as [c Hc].
  cbn [seq foldr]. rewrite map_row_insert, IH by lia.
  rewrite (drop_S boxes_array c k Hc). cbn [firstn sort_boxes foldr].
  unfold row. rewrite (nth_lookup_Some _ _ _ _ Hc). reflexivity.
Qed.

Lemma map_row_argsort boxes_array :
  map (row boxes_array) (argsort (map area_of boxes_array))
  = sort_boxes boxes_array.
Proof.
  unfold argsort. rewrite length_map.
  rewrite map_row_argsort_from by lia.
  cbn [skipn]. rewrite firstn_all. reflexivity.
Qed.

Lemma filter_map_rows {A B : Type} (f : A -> B) (p : B -> bool) l :
  map f (List.filter (fun x => p (f x)) l) = List.filter p (map f l).
Proof.
  induction l as [ | x l IH ]; [ reflexivity | ].
  cbn. destruct (p (f x)); cbn; rewrite IH; reflexivity.
Qed.

Lemma filter_shorter {A : Type} (p : A -> bool) l :
  (length (List.filter p l) <= length l)%nat.
Proof.
  induction l as [ | x l IH ]; cbn; [ lia | ].
  destruct (p x); cbn; lia.
Qed.

Lemma suppression_loop_rows boxes_array : forall fuel idxs pick,
  (length idxs <= fuel)%nat ->
  map (row boxes_array)
    (suppression_loop fuel boxes_array (map area_of boxes_array) idxs pick)
  = map (row boxes_array) pick
    ++ greedy fuel (rev (map (row boxes_array) idxs)).
Proof.
  induction fuel as [ | fuel IH ]; intros idxs pick Hlen.
  - destruct idxs; [ | cbn in Hlen; lia ]. cbn. rewrite app_nil_r. reflexivity.
  - destruct idxs as [ | a l ] eqn:E.
    { cbn. rewrite app_nil_r. reflexivity. }
    cbn [suppression_loop].
    destruct (exists_last (l := a :: l) ltac:(discriminate)) as (others & i & E').
    rewrite E' in *. clear E E' a l.
    rewrite length_app in *. cbn [length] in *.
    replace (length others + 1 - 1)%nat with (length others) by lia.
    rewrite nth_middle, take_app_length.
    rewrite IH by (pose proof (filter_shorter
                     (fun j => negb (overlap_exceeds
                        (inter_area (row boxes_array i) (row boxes_array j))
                        (nth j (map area_of boxes_array) 0))) others); lia).
    rewrite !map_app, rev_app_distr. cbn [map rev app greedy].
    rewrite <- app_assoc. cbn [app]. do 3 f_equal.
    rewrite filter_rev, <- filter_map_rows. do 2 f_equal.
    apply filter_ext. intros j. rewrite nth_area. reflexivity.
Qed.

Lemma greedy_enough_fuel : forall fuel1 fuel2 rows,
  (length rows <= fuel1)%nat -> (length rows <= fuel2)%nat ->
  greedy fuel1 rows = greedy fuel2 rows.
Proof.
  induction fuel1 as [ | fuel1 IH ]; intros fuel2 rows H1 H2.
  - destruct rows; [ destruct fuel2; reflexivity | cbn in H1; lia ].
  - destruct rows as [ | c rest ]; [ destruct fuel2; reflexivity | ].
    destruct fuel2 as [ | fuel2 ]; [ cbn in H2; lia | ].
    cbn [length greedy] in *. f_equal.
    pose proof (filter_shorter (keeps c) rest) as Hf.
    apply IH; lia.
Qed.

Lemma greedy_fuel fuel rows :
  (length rows <= fuel)%nat -> greedy fuel rows = greedy_all rows.
Proof.
  intros Hlen. apply greedy_enough_fuel; [ exact Hlen | lia ].
Qed.

Lemma greedy_all_cons c rest :
  greedy_all (c :: rest) = c :: greedy_all (List.filter (keeps c) rest).
Proof.
  unfold greedy_all at 1. cbn [length greedy]. f_equal.
  apply greedy_fuel, filter_shorter.
Qed.

(** The pass is the greedy selection on the rows in the order of the
    sort. *)
Lemma non_max_suppression_with_rows sort boxes :
  boxes <> [] ->
  non_max_suppression_with sort boxes
  = map uncorner
      (greedy_all
         (map (row (map corners boxes))
            (sort (map area_of (map corners boxes))))).
Proof.
  destruct boxes as [ | b boxes ]; [ congruence | intros _ ].
  unfold non_max_suppression_with.
  set (boxes_array := map corners (b :: boxes)).
  rewrite <- (map_map (row boxes_array) uncorner). f_equal.
  rewrite suppression_loop_rows by lia.
  cbn [map app]. rewrite map_rev, rev_involutive.
  apply greedy_fuel. rewrite length_rev, length_map. lia.
Qed.

Lemma non_max_suppression_rows boxes :
  _non_max_suppression boxes
  = map uncorner (greedy_all (sort_boxes (map corners boxes))).
Proof.
  destruct boxes as [ | b boxes ]; [ reflexivity | ].
  unfold _non_max_suppression.
  rewrite non_max_suppression_with_rows by discriminate.
  rewrite map_row_argsort. reflexivity.
Qed.

(** *** Order and selection *)

Lemma Forall_filter_keep {A : Type} (P : A -> Prop) (p : A -> bool) l :
  Forall P l -> Forall P (List.filter p l).
Proof.
  induction 1 as [ | x l Hx _ IH ]; cbn; [ constructor | ].
  destruct (p x); [ constructor; assumption | exact IH ].
Qed.

Lemma Forall_filter_pred {A : Type} (p : A -> bool) l :
  Forall (fun x => p x = true) (List.filter p l).
Proof.
  induction l as [ | x l IH ]; cbn; [ constructor | ].
  destruct (p x) eqn:E; [ constructor; assumption | exact IH ].
Qed.

Lemma filter_all {A : Type} (p : A -> bool) l :
  Forall (fun x => p x = true) l -> List.filter p l = l.
Proof.
  induction 1 as [ | x l Hx _ IH ]; cbn; [ reflexivity | ].
  rewrite Hx, IH. reflexivity.
Qed.

Lemma StronglySorted_filter {A : Type} (R : A -> A -> Prop) (p : A -> bool) l :
  StronglySorted R l -> StronglySorted R (List.filter p l).
Proof.
  induction 1 as [ | x l Hs IH Hx ]; cbn; [ constructor | ].
  destruct (p x); [ | exact IH ].
  constructor; [ exact IH | apply Forall_filter_keep; exact Hx ].
Qed.

Lemma Forall_insert_box (P : box -> Prop) c l :
  P c -> Forall P l -> Forall P (insert_box c l).
Proof.
  intros Hc. induction 1 as [ | d l Hd Hl IH ]; cbn.
  - repeat constructor; exact Hc.
  - destruct (_ <=? _); repeat constructor; assumption.
Qed.

Lemma insert_box_sorted c l :
  StronglySorted by_area l -> StronglySorted by_area (insert_box c l).
Proof.
  induction 1 as [ | d l Hs IH Hd ]; cbn.
  - repeat constructor.
  - destruct (Z.leb_spec (area_of c) (area_of d)) as [Hle | Hgt].
    + constructor; [ constructor; assumption | ].
      constructor; [ exact Hle | ].
      eapply Forall_impl; [ exact Hd | ].
      intros e He. unfold by_area in *. lia.
    + constructor; [ exact IH | ].
      apply Forall_insert_box; [ unfold by_area; lia | exact Hd ].
Qed.

Lemma sort_boxes_sorted rows : StronglySorted by_area (sort_boxes rows).
Proof.
  induction rows as [ | c rows IH ]; cbn; [ constructor | ].
  apply insert_box_sorted, IH.
Qed.

Lemma sort_boxes_of_sorted rows :
  StronglySorted by_area rows -> sort_boxes rows = rows.
Proof.
  induction 1 as [ | c l Hs IH Hc ]; [ reflexivity | ].
  cbn [sort_boxes foldr]. fold (sort_boxes l). rewrite IH.
  destruct Hc as [ | d l Hd _ ]; [ reflexivity | ].
  cbn. destruct (Z.leb_spec (area_of c) (area_of d)); [ reflexivity | ].
  unfold by_area in Hd. lia.
Qed.

Lemma greedy_Forall (P : box -> Prop) : forall fuel rows,
  Forall P rows -> Forall P (greedy fuel rows).
Proof.
  induction fuel as [ | fuel IH ]; intros rows Hall; [ constructor | ].
  destruct Hall as [ | c rest Hc Hrest ]; cbn; [ constructor | ].
  constructor; [ exact Hc | ]. apply IH, Forall_filter_keep, Hrest.
Qed.

Lemma greedy_sorted : forall fuel rows,
  StronglySorted by_area rows -> StronglySorted by_area (greedy fuel rows).
Proof.
  induction fuel as [ | fuel IH ]; intros rows Hs; [ constructor | ].
  destruct Hs as [ | c rest Hs Hc ]; cbn; [ constructor | ].
  constructor.
  - apply IH, StronglySorted_filter, Hs.
  - apply greedy_Forall, Forall_filter_keep, Hc.
Qed.

Lemma greedy_idempotent : forall fuel rows,
  (length rows <= fuel)%nat ->
  greedy_all (greedy fuel rows) = greedy fuel rows.
Proof.
  induction fuel as [ | fuel IH ]; intros rows Hlen; [ reflexivity | ].
  destruct rows as [ | c rest ]; [ reflexivity | ].
  cbn [greedy length] in *. rewrite greedy_all_cons. f_equal.
  pose proof (filter_shorter (keeps c) rest) as Hf.
  rewrite filter_all; [ apply IH; lia | ].
  apply greedy_Forall, Forall_filter_pred.
Qed.

Lemma corners_uncorner c : fits c -> corners (uncorner c) = c.
Proof.
  destruct c as [[[x1 y1] x2] y2]. intros [Hw Hh]. cbn [uncorner corners].
  rewrite !sub64_small by assumption. repeat f_equal; lia.
Qed.

Lemma uncorner_corners b : sized b -> uncorner (corners b) = b.
Proof.
  destruct b as [[[x y] w] h]. intros [Hw Hh]. cbn [uncorner corners].
  rewrite !sub64_small
    by (replace (x + w - x) with w by lia;
        replace (y + h - y) with h by lia; assumption).
  repeat f_equal; lia.
Qed.

Lemma map_corners_uncorner rows :
  Forall fits rows -> map corners (map uncorner rows) = rows.
Proof.
  intros Hall. rewrite map_map. rewrite <- (map_id rows) at 2.
  apply map_ext_in. intros c Hc. apply corners_uncorner.
  rewrite List.Forall_forall in Hall. apply Hall, Hc.
Qed.

Lemma Forall_sort_boxes (P : box -> Prop) rows :
  Forall P rows -> Forall P (sort_boxes rows).
Proof.
  induction 1 as [ | c rows Hc _ IH ]; cbn; [ constructor | ].
  apply Forall_insert_box; assumption.
Qed.

Lemma Forall_rows_of (P : box -> Prop) boxes_array positions :
  (forall i, P (row boxes_array i)) ->
  Forall P (map (row boxes_array) positions).
Proof.
  intros Hrow. apply Forall_map. apply List.Forall_forall. intros i _.
  apply Hrow.
Qed.

Lemma non_max_suppression_idempotent boxes :
  Forall sized boxes ->
  _non_max_suppression (_non_max_suppression boxes)
  = _non_max_suppression boxes.
Proof.
  intros Hsized. rewrite !non_max_suppression_rows.
  set (sorted := sort_boxes (map corners boxes)).
  assert (Hrows : map corners (map uncorner (greedy_all sorted))
                  = greedy_all sorted).
  { apply map_corners_uncorner, greedy_Forall, Forall_sort_boxes,
      Forall_fits_corners, Hsized. }
  rewrite Hrows.
  rewrite sort_boxes_of_sorted
    by (apply greedy_sorted, sort_boxes_sorted).
  unfold greedy_all at 2. rewrite greedy_idempotent by lia. reflexivity.
Qed.

(** *** Two candidates *)

Lemma overlap_exceeds_zero area : overlap_exceeds 0 area = false.
Proof.
  unfold overlap_exceeds.
  destruct (Z.ltb_spec 0 area); [ apply Z.ltb_ge; lia | ].
  destruct (Z.eqb_spec area 0); [ reflexivity | ].
  apply Z.ltb_ge. lia.
Qed.

Lemma separated_inter a b :
  in_range a -> in_range b ->
  separated a b ->
  inter_area (corners a) (corners b) = 0
  /\ inter_area (corners b) (corners a) = 0.
Proof.
  intros Ha Hb. rewrite !inter_area_in_range by assumption.
  destruct a as [[[ax ay] aw] ah], b as [[[bx by_] bw] bh].
  unfold separated, shared_pixels. intros H. split; nia.
Qed.

Lemma pair_smaller_first a b :
  sized a -> sized b ->
  area_of (corners a) < area_of (corners b) ->
  _non_max_suppression [a; b]
  = (if suppresses (corners a) (corners b) then [a] else [a; b])
  /\ _non_max_suppression [b; a]
     = (if suppresses (corners a) (corners b) then [a] else [a; b]).
Proof.
  intros Ha Hb Hlt. rewrite !non_max_suppression_rows.
  cbn [map sort_boxes foldr insert_box].
  destruct (Z.leb_spec (area_of (corners a)) (area_of (corners b)));
    [ | lia ].
  destruct (Z.leb_spec (area_of (corners b)) (area_of (corners a)));
    [ lia | ].
  rewrite greedy_all_cons. cbn [List.filter]. unfold keeps.
  destruct (suppresses (corners a) (corners b)); cbn;
    rewrite ?uncorner_corners by assumption; split; reflexivity.
Qed.

Lemma pair_separated a b :
  in_range a -> in_range b ->
  separated a b ->
  _non_max_suppression [a; b]
  = (if area_of (corners a) <=? area_of (corners b)
     then [a; b] else [b; a]).
Proof.
  intros Ha Hb Hsep. destruct (separated_inter a b Ha Hb Hsep) as [Hab Hba].
  rewrite non_max_suppression_rows.
  cbn [map sort_boxes foldr insert_box].
  destruct (_ <=? _); rewrite greedy_all_cons; cbn [List.filter];
    unfold keeps, suppresses; rewrite ?Hab, ?Hba, overlap_exceeds_zero;
    cbn; rewrite !uncorner_corners by (apply in_range_sized; assumption);
    reflexivity.
Qed.

(** *** Any sort

    The facts above do not depend on how [np.argsort] orders equal
    areas, up to the order of the result. *)

Definition kept_in_order (a b : box) : Prop := keeps a b = true.

(** Whichever of the two is picked first, the other one stays. *)
Definition tie_safe (a b : box) : Prop :=
  (area_of a <= area_of b -> keeps a b = true)
  /\ (area_of b <= area_of a -> keeps b a = true).

Lemma map_row_seq_from : forall rows before,
  map (row (before ++ rows)) (seq (length before) (length rows)) = rows.
Proof.
  induction rows as [ | c rows IH ]; intros before; [ reflexivity | ].
  cbn [length seq map]. unfold row at 1. rewrite nth_middle. f_equal.
  specialize (IH (before ++ [c])).
  rewrite <- app_assoc, length_app in IH. cbn [app length] in IH.
  rewrite Nat.add_1_r in IH. exact IH.
Qed.

Lemma map_row_seq rows : map (row rows) (seq 0 (length rows)) = rows.
Proof. exact (map_row_seq_from rows []). Qed.

Lemma rows_of_sort sort boxes_array :
  sorts_by_area sort ->
  Permutation
    (map (row boxes_array) (sort (map area_of boxes_array))) boxes_array
  /\ StronglySorted by_area
       (map (row boxes_array) (sort (map area_of boxes_array))).
Proof.
  intros Hsort.
  destruct (Hsort (map area_of boxes_array)) as [Hperm Hsorted]. split.
  - rewrite length_map in Hperm.
    transitivity (map (row boxes_array) (seq 0 (length boxes_array))).
    + apply Permutation_map, Hperm.
    + rewrite map_row_seq. reflexivity.
  - clear Hperm. induction Hsorted as [ | i l Hs IH Hi ]; cbn; constructor.
    + exact IH.
    + apply Forall_map. eapply Forall_impl; [ exact Hi | ].
      intros j Hij. unfold by_area. rewrite <- !nth_area. exact Hij.
Qed.

Lemma inter_area_comm c d : inter_area c d = inter_area d c.
Proof.
  destruct c as [[[cx1 cy1] cx2] cy2], d as [[[dx1 dy1] dx2] dy2].
  unfold inter_area.
  rewrite (Z.max_comm cx1 dx1), (Z.max_comm cy1 dy1),
    (Z.min_comm cx2 dx2), (Z.min_comm cy2 dy2).
  reflexivity.
Qed.

Lemma keeps_tie a b :
  area_of a = area_of b -> keeps b a = keeps a b.
Proof.
  intros Harea. unfold keeps, suppresses.
  rewrite (inter_area_comm b a), Harea. reflexivity.
Qed.

Lemma tie_safe_sym a b : tie_safe a b -> tie_safe b a.
Proof. unfold tie_safe. tauto. Qed.

Lemma greedy_tie_safe : forall fuel rows,
  StronglySorted by_area rows ->
  StronglySorted tie_safe (greedy fuel rows).
Proof.
  induction fuel as [ | fuel IH ]; intros rows Hs; [ constructor | ].
  destruct Hs as [ | c rest Hs Hc ]; cbn; [ constructor | ].
  constructor.
  - apply IH, StronglySorted_filter, Hs.
  - eapply Forall_impl.
    + apply (greedy_Forall (fun d => by_area c d /\ keeps c d = true)).
      apply Forall_and. split.
      * apply Forall_filter_keep, Hc.
      * apply Forall_filter_pred.
    + intros d [Hcd Hkeep]. unfold by_area in Hcd. split; [ tauto | ].
      intros Hdc. rewrite (keeps_tie c d) by lia. exact Hkeep.
Qed.

Lemma StronglySorted_perm_sym {A : Type} (R : A -> A -> Prop) l l' :
  (forall a b, R a b -> R b a) ->
  Permutation l l' -> StronglySorted R l -> StronglySorted R l'.
Proof.
  intros Hsym Hperm.
  induction Hperm as [ | x l l' Hperm IH | x y l | l l' l'' _ IH1 _ IH2 ];
    intros Hs.
  - constructor.
  - apply StronglySorted_inv in Hs as [Hs Hx].
    constructor; [ apply IH, Hs | ].
    eapply Permutation_Forall; eassumption.
  - apply StronglySorted_inv in Hs as [Hs Hy].
    apply StronglySorted_inv in Hs as [Hs Hx].
    inversion Hy as [ | ? ? Hyx Hyl ]; subst.
    repeat constructor; auto.
  - auto.
Qed.

Lemma StronglySorted_both {A : Type} (R1 R2 R3 : A -> A -> Prop) l :
  (forall a b, R1 a b -> R2 a b -> R3 a b) ->
  StronglySorted R1 l -> StronglySorted R2 l -> StronglySorted R3 l.
Proof.
  intros Himp H1. induction H1 as [ | x l _ IH Hx1 ]; intros H2;
    [ constructor | ].
  apply StronglySorted_inv in H2 as [H2 Hx2].
  constructor; [ apply IH, H2 | ].
  rewrite Forall_forall in Hx1, Hx2. apply Forall_forall.
  intros y Hy. apply Himp; auto.
Qed.

Lemma greedy_all_kept rows :
  StronglySorted kept_in_order rows -> greedy_all rows = rows.
Proof.
  induction 1 as [ | c rest _ IH Hc ]; [ reflexivity | ].
  rewrite greedy_all_cons, filter_all by exact Hc. rewrite IH. reflexivity.
Qed.

(** Idempotence for every sort, and for different tie orders in the two
    passes: the second pass drops nothing. *)
Lemma non_max_suppression_with_idempotent sort1 sort2 boxes :
  sorts_by_area sort1 -> sorts_by_area sort2 ->
  Forall sized boxes ->
  Permutation
    (non_max_suppression_with sort2 (non_max_suppression_with sort1 boxes))
    (non_max_suppression_with sort1 boxes).
Proof.
  intros Hsort1 Hsort2 Hsized.
  destruct boxes as [ | b0 boxes0 ]; [ reflexivity | ].
  set (boxes := b0 :: boxes0) in *.
  rewrite (non_max_suppression_with_rows sort1 boxes) by discriminate.
  destruct (rows_of_sort sort1 (map corners boxes) Hsort1) as [_ Hsorted1].
  set (rows1 := map (row (map corners boxes))
                  (sort1 (map area_of (map corners boxes)))) in *.
  pose proof (greedy_tie_safe (length rows1) rows1 Hsorted1) as Hsafe.
  fold (greedy_all rows1) in Hsafe.
  destruct (greedy_all rows1) as [ | c chosen ] eqn:Echosen;
    [ reflexivity | ].
  rewrite <- Echosen in *.
  rewrite non_max_suppression_with_rows
    by (rewrite Echosen; discriminate).
  assert (Hrows : map corners (map uncorner (greedy_all rows1))
                  = greedy_all rows1).
  { apply map_corners_uncorner, greedy_Forall, Forall_rows_of.
    intros i. apply fits_row, Forall_fits_corners, Hsized. }
  rewrite Hrows.
  destruct (rows_of_sort sort2 (greedy_all rows1) Hsort2)
    as [Hperm2 Hsorted2].
  set (rows2 := map (row (greedy_all rows1))
                  (sort2 (map area_of (greedy_all rows1)))) in *.
  rewrite greedy_all_kept.
  - apply Permutation_map, Hperm2.
  - apply (StronglySorted_both by_area tie_safe); [ | exact Hsorted2 | ].
    + intros a b' Hab [Hkeep _]. exact (Hkeep Hab).
    + apply (StronglySorted_perm_sym tie_safe (greedy_all rows1));
        [ exact tie_safe_sym | symmetry; exact Hperm2 | exact Hsafe ].
Qed.

Lemma sort_pair sort (x y : Z) :
  sorts_by_area sort ->
  (x <= y /\ sort [x; y] = [0; 1]%nat) \/ (y <= x /\ sort [x; y] = [1; 0]%nat).
Proof.
  intros Hsort. destruct (Hsort [x; y]) as [Hperm Hsorted].
  cbn [length seq] in Hperm.
  apply Permutation_sym, Permutation_length_2_inv in Hperm
    as [Heq | Heq]; rewrite Heq in *;
    apply StronglySorted_inv in Hsorted as [_ Hhead];
    inversion Hhead as [ | ? ? Hle _ ]; subst; cbn in Hle; tauto.
Qed.

Lemma pair_smaller_first_with sort a b :
  sorts_by_area sort ->
  sized a -> sized b ->
  area_of (corners a) < area_of (corners b) ->
  non_max_suppression_with sort [a; b]
  = (if suppresses (corners a) (corners b) then [a] else [a; b])
  /\ non_max_suppression_with sort [b; a]
     = (if suppresses (corners a) (corners b) then [a] else [a; b]).
Proof.
  intros Hsort Ha Hb Hlt.
  rewrite !non_max_suppression_with_rows by discriminate.
  cbn [map].
  destruct (sort_pair sort (area_of (corners a)) (area_of (corners b)) Hsort)
    as [[_ ->] | [Hle _]]; [ | lia ].
  destruct (sort_pair sort (area_of (corners b)) (area_of (corners a)) Hsort)
    as [[Hle _] | [_ ->]]; [ lia | ].
  cbn [map row nth]. rewrite greedy_all_cons. cbn [List.filter].
  unfold keeps.
  destruct (suppresses (corners a) (corners b)); cbn;
    rewrite ?uncorner_corners by assumption; split; reflexivity.
Qed.

Lemma pair_separated_with sort a b :
  sorts_by_area sort ->
  in_range a -> in_range b ->
  separated a b ->
  non_max_suppression_with sort [a; b] = [a; b]
  \/ non_max_suppression_with sort [a; b] = [b; a].
Proof.
  intros Hsort Ha Hb Hsep.
  destruct (separated_inter a b Ha Hb Hsep) as [Hab Hba].
  rewrite non_max_suppression_with_rows by discriminate.
  cbn [map].
  destruct (sort_pair sort (area_of (corners a)) (area_of (corners b)) Hsort)
    as [[_ ->] | [_ ->]]; [ left | right ];
    cbn [map row nth]; rewrite greedy_all_cons; cbn [List.filter];
    unfold keeps, suppresses; rewrite ?Hab, ?Hba, overlap_exceeds_zero;
    cbn; rewrite !uncorner_corners by (apply in_range_sized; assumption);
    reflexivity.
Qed.

(** The insertion sort above is such a sort. *)
Lemma insert_index_perm area i sorted :
  Permutation (insert_index area i sorted) (i :: sorted).
Proof.
  induction sorted as [ | j rest IH ]; cbn; [ reflexivity | ].
  destruct (_ <=? _); [ reflexivity | ].
  rewrite IH. apply perm_swap.
Qed.

Lemma insert_index_sorted area i sorted :
  StronglySorted (fun i j => nth i area 0 <= nth j area 0) sorted ->
  StronglySorted (fun i j => nth i area 0 <= nth j area 0)
    (insert_index area i sorted).
Proof.
  induction 1 as [ | j rest Hs IH Hj ]; cbn.
  - repeat constructor.
  - destruct (Z.leb_spec (nth i area 0) (nth j area 0)) as [Hle | Hgt].
    + constructor; [ constructor; assumption | ].
      constructor; [ exact Hle | ].
      eapply Forall_impl; [ exact Hj | ]. cbn. intros k Hk. lia.
    + constructor; [ exact IH | ].
      eapply Permutation_Forall;
        [ symmetry; apply insert_index_perm | ].
      constructor; [ lia | exact Hj ].
Qed.

Lemma argsort_sorts_by_area : sorts_by_area argsort.
Proof.
  intros area. unfold argsort.
  generalize (seq 0 (length area)) as positions.
  induction positions as [ | i positions [IHp IHs] ]; cbn.
  - split; constructor.
  - split.
    + rewrite insert_index_perm. constructor. exact IHp.
    + apply insert_index_sorted, IHs.
Qed.

(** The reading of the specification for two candidates: when the
    overlap is more than 0.3 of the smaller one's area, the larger one
    alone is returned. *)
Definition larger_alone_survives : Prop :=
  forall a b,
    in_range a -> in_range b ->
    area_of (corners a) < area_of (corners b) ->
    overlap_exceeds (inter_area (corners a) (corners b))
      (area_of (corners a)) = true ->
    _non_max_suppression [a; b] = [b].

Ltac in_range_numbers :=
  repeat constructor; unfold coordinate_limit; lia.

(** ** C4 *)

(** C4, as stated, fails in its second part: a 9x9 candidate inside a
    99x99 one overlaps it by its whole area, and both are returned, the
    smaller one first; next to a 10x10 candidate it is the smaller one
    that is returned and the larger one that is dropped; and two 1x1
    candidates that only share an edge do not both survive. *)
Lemma nested_pair_keeps_smaller :
  ~ larger_alone_survives
  /\ _non_max_suppression [(0, 0, 9, 9); (0, 0, 99, 99)]
     = [(0, 0, 9, 9); (0, 0, 99, 99)]
  /\ _non_max_suppression [(0, 0, 9, 9); (0, 0, 10, 10)] = [(0, 0, 9, 9)]
  /\ _non_max_suppression [(0, 0, 1, 1); (1, 0, 1, 1)] = [(0, 0, 1, 1)].
Proof.
  split; [ | repeat split ].
  intros H.
  specialize (H (0, 0, 9, 9) (0, 0, 99, 99) ltac:(in_range_numbers)
                ltac:(in_range_numbers) eq_refl eq_refl).
  discriminate H.
Qed.

(** C4, amended, for candidates whose places and sizes are numbers of a
    screen (at most [2 ^ 24] in absolute value; the area of a larger
    candidate can wrap around in numpy's 64-bit integers, see
    [nms_wraps]): the overlap-suppression pass is idempotent (with the
    index-order sort the second pass returns the very same list; with
    any sort that [np.argsort] may run, the same rectangles); it picks
    candidates by increasing area, so of two rectangles of different
    area the smaller one always survives and the larger one is dropped
    exactly when the overlap exceeds 0.3 of the larger one's own area,
    in either input order; and two rectangles with no common pixel,
    corner pixels included, both survive.  The areas are counted with
    both corner pixels, [(w + 1) * (h + 1)], and the overlap is the
    number of the pixels the two rectangles share. *)
Theorem non_max_suppression_properties :
  (forall boxes,
      Forall in_range boxes ->
      _non_max_suppression (_non_max_suppression boxes)
      = _non_max_suppression boxes)
  /\ (forall sort1 sort2 boxes,
        sorts_by_area sort1 -> sorts_by_area sort2 ->
        Forall in_range boxes ->
        Permutation
          (non_max_suppression_with sort2
             (non_max_suppression_with sort1 boxes))
          (non_max_suppression_with sort1 boxes))
  /\ (forall sort a b,
        sorts_by_area sort ->
        in_range a -> in_range b ->
        area_of (corners a) < area_of (corners b) ->
        let survivors :=
          if overlap_exceeds (inter_area (corners a) (corners b))
               (area_of (corners b))
          then [a] else [a; b] in
        non_max_suppression_with sort [a; b] = survivors
        /\ non_max_suppression_with sort [b; a] = survivors)
  /\ (forall sort a b,
        sorts_by_area sort ->
        in_range a -> in_range b ->
        separated a b ->
        In a (non_max_suppression_with sort [a; b])
        /\ In b (non_max_suppression_with sort [a; b])
        /\ length (non_max_suppression_with sort [a; b]) = 2%nat)
  /\ (forall x y w h,
        in_range (x, y, w, h) ->
        area_of (corners (x, y, w, h)) = (w + 1) * (h + 1))
  /\ (forall a b,
        in_range a -> in_range b ->
        inter_area (corners a) (corners b) = shared_pixels a b).
Proof.
  split.
  { intros boxes Hrange.
    apply non_max_suppression_idempotent, Forall_in_range_sized, Hrange. }
  split.
  { intros sort1 sort2 boxes Hsort1 Hsort2 Hrange.
    apply non_max_suppression_with_idempotent;
      [ exact Hsort1 | exact Hsort2 | ].
    apply Forall_in_range_sized, Hrange. }
  split.
  { intros sort a b Hsort Ha Hb Hlt.
    exact (pair_smaller_first_with sort a b Hsort (in_range_sized a Ha)
             (in_range_sized b Hb) Hlt). }
  split.
  { intros sort a b Hsort Ha Hb Hsep.
    destruct (pair_separated_with sort a b Hsort Ha Hb Hsep) as [-> | ->];
      cbn; tauto. }
  split.
  { intros x y w h Hrange.
    apply area_of_sized, (in_range_sized (x, y, w, h)), Hrange. }
  exact inter_area_in_range.
Qed.

Lemma non_max_suppression_properties_witness :
  (_non_max_suppression [(0, 0, 9, 9); (0, 0, 10, 10)] = [(0, 0, 9, 9)]
   /\ _non_max_suppression [(0, 0, 10, 10); (0, 0, 9, 9)] = [(0, 0, 9, 9)])
  /\ (In (0, 0, 10, 10) (_non_max_suppression [(0, 0, 10, 10); (20, 0, 10, 10)])
      /\ In (20, 0, 10, 10)
           (_non_max_suppression [(0, 0, 10, 10); (20, 0, 10, 10)])
      /\ length (_non_max_suppression [(0, 0, 10, 10); (20, 0, 10, 10)])
         = 2%nat)
  /\ Permutation
       (_non_max_suppression
          (_non_max_suppression [(0, 0, 10, 10); (5, 0, 10, 10)]))
       (_non_max_suppression [(0, 0, 10, 10); (5, 0, 10, 10)])
  /\ _non_max_suppression
       (_non_max_suppression [(0, 0, 10, 10); (5, 0, 10, 10)])
     = _non_max_suppression [(0, 0, 10, 10); (5, 0, 10, 10)]
  /\ area_of (corners (5, 0, 10, 10)) = (10 + 1) * (10 + 1)
  /\ inter_area (corners (0, 0, 10, 10)) (corners (5, 0, 10, 10))
     = shared_pixels (0, 0, 10, 10) (5, 0, 10, 10).
Proof.
  destruct non_max_suppression_properties
    as (Hsame & Hidem & Hpair & Hsep & Harea & Hinter).
  split; [ | split; [ | split; [ | split; [ | split ] ] ] ].
  - apply (Hpair argsort (0, 0, 9, 9) (0, 0, 10, 10) argsort_sorts_by_area).
    + unfold in_range, small, coordinate_limit. lia.
    + unfold in_range, small, coordinate_limit. lia.
    + reflexivity.
  - apply (Hsep argsort (0, 0, 10, 10) (20, 0, 10, 10) argsort_sorts_by_area).
    + unfold in_range, small, coordinate_limit. lia.
    + unfold in_range, small, coordinate_limit. lia.
    + cbn. lia.
  - apply (Hidem argsort argsort _ argsort_sorts_by_area argsort_sorts_by_area).
    repeat constructor; unfold coordinate_limit; lia.
  - apply Hsame. repeat constructor; unfold coordinate_limit; lia.
  - apply Harea. unfold in_range, small, coordinate_limit. lia.
  - apply Hinter; unfold in_range, small, coordinate_limit; lia.
Defined.

End Recognition.


(* ===================================================================== *)
(** * Text recognition: looking for a season name *)
(* ===================================================================== *)

Module Ocr.

(** A Python [str]: its code points. *)
Definition pystr : Type := list Z.

(** Reading a literal of this file, which is UTF-8, as code points. *)
Fixpoint utf8_decode (bytes : list Z) : pystr :=
  match bytes with
  | [] => []
  | b :: rest =>
      if b <? 128 then b :: utf8_decode rest
      else if b <? 224 then
        match rest with
        | b2 :: rest' => (b mod 32 * 64 + b2 mod 64) :: utf8_decode rest'
        | _ => []
        end
      else if b <? 240 then
        match rest with
        | b2 :: b3 :: rest' =>
            (b mod 16 * 4096 + b2 mod 64 * 64 + b3 mod 64)
              :: utf8_decode rest'
        | _ => []
        end
      else
        match rest with
        | b2 :: b3 :: b4 :: rest' =>
            (b mod 8 * 262144 + b2 mod 64 * 4096 + b3 mod 64 * 64 + b4 mod 64)
              :: utf8_decode rest'
        | _ => []
        end
  end.

Definition str (literal : string) : pystr :=
  utf8_decode
    (map (fun a => Z.of_N (N_of_ascii a)) (list_ascii_of_string literal)).

(** [str.isspace] on one code point. *)
Definition is_space (c : Z) : bool :=
  ((9 <=? c) && (c <=? 13)) || ((28 <=? c) && (c <=? 32))
  || (c =? 133) || (c =? 160) || (c =? 5760)
  || ((8192 <=? c) && (c <=? 8202))
  || (c =? 8232) || (c =? 8233) || (c =? 8239) || (c =? 8287)
  || (c =? 12288).

(** [str.lower] on one code point, for the alphabets the game and the
    OCR engine produce: Basic Latin, Latin-1 and the Cyrillic block.
    Other code points are left alone. *)
Definition lower_char (c : Z) : Z :=
  if (65 <=? c) && (c <=? 90) then c + 32                  (* A-Z *)
  else if (192 <=? c) && (c <=? 222) && negb (c =? 215)
       then c + 32                                          (* Latin-1 *)
  else if (1024 <=? c) && (c <=? 1039) then c + 80          (* U+0400.. *)
  else if (1040 <=? c) && (c <=? 1071) then c + 32          (* U+0410.. *)
  else c.

Definition lower (s : pystr) : pystr := map lower_char s.

Fixpoint lstrip (s : pystr) : pystr :=
  match s with
  | c :: rest => if is_space c then lstrip rest else s
  | [] => []
  end.

(** [str.strip()]. *)
Definition strip (s : pystr) : pystr := rev (lstrip (rev (lstrip s))).

(** [str.split()]: the maximal runs without white space; [word] is the
    run being read, last character first. *)
Fixpoint split_from (s word : pystr) : list pystr :=
  match s with
  | [] => match word with [] => [] | _ :: _ => [rev word] end
  | c :: rest =>
      if is_space c then
        match word with
        | [] => split_from rest []
        | _ :: _ => rev word :: split_from rest []
        end
      else split_from rest (c :: word)
  end.

Definition split (s : pystr) : list pystr := split_from s [].

Fixpoint starts_with (prefix s : pystr) : bool :=
  match prefix, s with
  | [], _ => true
  | p :: prefix', c :: s' => (p =? c) && starts_with prefix' s'
  | _ :: _, [] => false
  end.

(** [needle in hay]. *)
Fixpoint contains (needle hay : pystr) : bool :=
  starts_with needle hay
  || match hay with
     | [] => false
     | _ :: hay' => contains needle hay'
     end.

Definition member (c : Z) (class : pystr) : bool :=
  existsb (Z.eqb c) class.

(** Characters that stand for themselves inside a regex class. *)
Definition plain_char (c : Z) : bool :=
  ((48 <=? c) && (c <=? 57)) || ((65 <=? c) && (c <=? 90))
  || ((97 <=? c) && (c <=? 122)).

(** [re.search('[' + first + '][' + second + ']', text) is not None]:
    two neighbouring characters, one from each class. *)
Fixpoint search_pair (first second text : pystr) : bool :=
  match text with
  | a :: (b :: _) as rest =>
      (member a first && member b second) || search_pair first second rest
  | _ => false
  end.

(** The regex of [_fuzzy_season_match] with [season_num] spliced into
    the second class.  [None]: [season_num] is empty or holds a character
    with a meaning of its own inside a class, and the pattern is outside
    what is modelled here. *)
Definition search_suffix (first season_num text : pystr) : option bool :=
  match season_num with
  | [] => None
  | _ :: _ =>
      if forallb plain_char season_num
      then Some (search_pair first season_num text)
      else None
  end.

(** [_fuzzy_season_match(text, target)]. *)
Definition _fuzzy_season_match (text target : pystr) : option bool :=
  match split target with
  | [season_word; season_number] =>
      if negb (contains (str "сез") text)
         && negb (contains (str "ce3") text)
         && negb (contains (str "сeз") text)
      then Some false
      else if starts_with (str "S") season_number then
        search_suffix (str "Ss5") (tail season_number) text
      else if starts_with (str "X") season_number then
        search_suffix (str "XxХх") (tail season_number) text
      else Some false
  | _ => Some false
  end.

(** A text region [(x, y, w, h)] with what [recognize_text] reads there. *)
Definition region : Type := (Z * Z * Z * Z) * pystr.

(** The test of one region in [find_season]; [or] evaluates the fuzzy
    rule only when the substring test fails. *)
Definition region_matches (text target_season : pystr) : option bool :=
  let normalized_text := lower (strip text) in
  let normalized_target := lower (strip target_season) in
  if contains normalized_target normalized_text then Some true
  else _fuzzy_season_match normalized_text normalized_target.

(** [find_season(image, target_season)] on the regions of the image, in
    the order [find_text_regions] lists them.  [Some None] is Python's
    [None]; the outer [None] is a pattern outside the model. *)
Fixpoint find_season (regions : list region) (target_season : pystr)
  : option (option (Z * Z)) :=
  match regions with
  | [] => Some None
  | ((x, y, w, h), text) :: rest =>
      match region_matches text target_season with
      | Some true => Some (Some (x + w / 2, y + h / 2))
      | Some false => find_season rest target_season
      | None => None
      end
  end.

(** The search with the substring test alone. *)
Fixpoint find_season_exact (regions : list region) (target_season : pystr)
  : option (Z * Z) :=
  match regions with
  | [] => None
  | ((x, y, w, h), text) :: rest =>
      if contains (lower (strip target_season)) (lower (strip text))
      then Some (x + w / 2, y + h / 2)
      else find_season_exact rest target_season
  end.

Example str_literals :
  str "сез" = [1089; 1077; 1079] /\ str "ce3" = [99; 101; 51]
  /\ str "сeз" = [1089; 101; 1079] /\ str "XxХх" = [88; 120; 1061; 1093]
  /\ str "Ss5" = [83; 115; 53].
Proof. repeat split. Qed.

Example lower_season : lower (str "Сезон S1") = str "сезон s1".
Proof. reflexivity. Qed.

Example split_season : split (str " Сезон  S1 ") = [str "Сезон"; str "S1"].
Proof. reflexivity. Qed.

(** Called with a target that still has its capital letter, the fuzzy
    rule accepts a text in which the OCR engine read [е] as Latin [e]
    and [S] as [5]. *)
Example fuzzy_direct :
  _fuzzy_season_match (str "сeзон 51") (str "Сезон S1") = Some true.
Proof. reflexivity. Qed.

(** ** Lemmas *)

Lemma lower_char_not_capital_S_X c :
  lower_char c <> 83 /\ lower_char c <> 88.
Proof.
  unfold lower_char.
  repeat match goal with
    | |- context [?a <=? ?b] => destruct (Z.leb_spec a b)
    | |- context [?a =? ?b] => destruct (Z.eqb_spec a b)
    end; cbn; lia.
Qed.

Lemma lower_no_capital_S_X s :
  Forall (fun c => c <> 83 /\ c <> 88) (lower s).
Proof.
  unfold lower. apply Forall_forall. intros c Hin.
  apply list_elem_of_In, in_map_iff in Hin. destruct Hin as (c0 & <- & _).
  apply lower_char_not_capital_S_X.
Qed.

Lemma Forall_rev_list {A : Type} (P : A -> Prop) l :
  Forall P l -> Forall P (rev l).
Proof.
  intros H. apply Forall_forall. intros x Hin.
  rewrite Forall_forall in H. apply H.
  apply list_elem_of_In. apply list_elem_of_In, in_rev in Hin. exact Hin.
Qed.

Lemma split_from_words (P : Z -> Prop) : forall s word,
  Forall P s -> Forall P word -> Forall (Forall P) (split_from s word).
Proof.
  induction s as [ | c rest IH ]; intros word Hs Hw; cbn.
  - destruct word; repeat constructor. apply Forall_rev_list, Hw.
  - inversion Hs as [ | ? ? Hc Hrest ]; subst.
    destruct (is_space c).
    + destruct word.
      * apply IH; [ exact Hrest | constructor ].
      * constructor; [ apply Forall_rev_list, Hw | ].
        apply IH; [ exact Hrest | constructor ].
    + apply IH; [ exact Hrest | constructor; assumption ].
Qed.

Lemma starts_with_capital_lower (k : Z) (word : pystr) :
  (k = 83 \/ k = 88) ->
  Forall (fun c => c <> 83 /\ c <> 88) word ->
  starts_with [k] word = false.
Proof.
  intros Hk Hword. destruct Hword as [ | c rest [H83 H88] _ ]; cbn;
    [ reflexivity | ].
  destruct (Z.eqb_spec k c); [ lia | reflexivity ].
Qed.

(** On a lower-cased target the fuzzy rule never reaches its regex: the
    season number cannot start with a capital [S] or [X]. *)
Lemma fuzzy_rule_dead_on_lowered_target text target :
  _fuzzy_season_match text (lower target) = Some false.
Proof.
  unfold _fuzzy_season_match.
  pose proof (split_from_words _ (lower target) []
                (lower_no_capital_S_X target) (List.Forall_nil _)) as Hwords.
  fold (split (lower target)) in Hwords.
  destruct (split (lower target)) as [ | w [ | n [ | ? ? ] ] ];
    try reflexivity.
  destruct (negb _ && negb _ && negb _); [ reflexivity | ].
  apply Forall_cons in Hwords as [_ Hwords].
  apply Forall_cons in Hwords as [Hn _].
  change (str "S") with [83]. change (str "X") with [88].
  rewrite !starts_with_capital_lower by (assumption || lia).
  reflexivity.
Qed.

Lemma find_season_is_exact regions target_season :
  find_season regions target_season
  = Some (find_season_exact regions target_season).
Proof.
  induction regions as [ | [[[[x y] w] h] text] rest IH ]; [ reflexivity | ].
  cbn [find_season find_season_exact]. unfold region_matches.
  destruct (contains _ _); [ reflexivity | ].
  rewrite fuzzy_rule_dead_on_lowered_target. exact IH.
Qed.

(** ** C5 *)

(** C5, on the code: a region whose text is [Сeзон 51] (the OCR engine
    read [е] as Latin [e] and [S] as [5]) does not contain the target
    [Сезон S1] as a substring and satisfies the fuzzy rule, yet
    [find_season] returns [None] instead of the centre (140, 215) of the
    region: it lower-cases the target before the fuzzy rule tests it for
    a capital [S] or [X], so the rule never applies and the search is the
    substring search alone. *)
Theorem find_season_misses_fuzzy_match :
  let text := str "Сeзон 51" in
  let target_season := str "Сезон S1" in
  contains (lower (strip target_season)) (lower (strip text)) = false
  /\ _fuzzy_season_match (lower (strip text)) (strip target_season)
     = Some true
  /\ find_season [((100, 200, 80, 30), text)] target_season = Some None
  /\ (forall regions target,
        find_season regions target = Some (find_season_exact regions target)).
Proof.
  repeat split. apply find_season_is_exact.
Qed.

End Ocr.


(* ===================================================================== *)
(** * Bot orchestrator: tutorial loop and recovery cascade *)
(* ===================================================================== *)

Module Bot.

(** Values found in the parameter bag of a tutorial step. *)
Inductive pyval : Type :=
| VNone
| VBool (b : bool)
| VInt (n : Z)
| VFloat (q : Q)
| VStr (s : string)
| VStrs (items : list string)
| VPoints (points : list (Z * Z)).

(** [TutorialStep]. *)
Record TutorialStep : Type := {
  step_id : Z;
  description : string;
  action_type : string;
  params : gmap string pyval
}.

(** [step.get_param(name, default)]. *)
Definition get_param (step : TutorialStep) (name : string) (default : pyval)
  : pyval :=
  match params step !! name with
  | Some v => v
  | None => default
  end.

(** [step.set_param(name, value)]. *)
Definition set_param (step : TutorialStep) (name : string) (value : pyval)
  : TutorialStep :=
  {| step_id := step_id step;
     description := description step;
     action_type := action_type step;
     params := <[name := value]> (params step) |}.

(** [retry_count > 0]; comparing [None], a string or a list with an
    integer raises [TypeError]. *)
Definition py_positive (v : pyval) : result bool :=
  match v with
  | VInt n => Ok (0 <? n)
  | VBool b => Ok b
  | VFloat q => Ok (negb (Qle_bool q 0))
  | _ => Raise "TypeError"
  end.

(** [retry_count - 1]. *)
Definition py_pred (v : pyval) : result pyval :=
  match v with
  | VInt n => Ok (VInt (n - 1))
  | VBool b => Ok (VInt ((if b then 1 else 0) - 1))
  | VFloat q => Ok (VFloat (q - 1))
  | _ => Raise "TypeError"
  end.

(** What the bot asks of the emulator facade, of [time] and of the step
    handlers, in the order it asks. *)
Inductive event : Type :=
| Sleep (ms : Z)
| GetScreenshot
| CloseApp (package : string)
| StartApp (package activity : string)
| RestartEmulator
| ExecuteStep (id : Z).

(** One record of [BotStatistics.server_history] written by
    [add_error]. *)
Record error_record : Type := {
  err_server : Z;
  err_season : option string;
  err_message : string
}.

(** The part of [BotStatistics] that the tutorial loop and the recovery
    cascade touch. *)
Record Statistics : Type := {
  error_count : Z;
  current_server : option Z;
  current_season : option string;
  current_step : option Z;
  error_history : list error_record
}.

(** The emulator facade, [time.sleep] and the step handlers, as the bot
    sees them: each call moves the world on and returns or raises.
    [handler action_type] is the method [_execute_<action_type>] when the
    bot has one. *)
Record Device (World : Type) : Type := {
  emu_get_screenshot : World -> World * result (list Z);
  emu_close_app : string -> World -> World * result bool;
  emu_start_app : string -> string -> World -> World * result bool;
  emu_restart_emulator : World -> World * result bool;
  time_sleep : Z -> World -> World;
  handler :
    string ->
    option (TutorialStep -> World -> World * result (bool * option Z))
}.
Arguments emu_get_screenshot {World} _.
Arguments emu_close_app {World} _.
Arguments emu_start_app {World} _.
Arguments emu_restart_emulator {World} _.
Arguments time_sleep {World} _.
Arguments handler {World} _.

(** The fields of [SeaConquestBot] used here, the world it runs in and
    the log of its requests. *)
Record BotState (World : Type) : Type := {
  world : World;
  trace : list event;
  tutorial_steps : list TutorialStep;
  running : bool;
  paused : bool;
  stop_event : bool;
  current_step_id : Z;
  statistics : Statistics
}.
Arguments world {World} _.
Arguments trace {World} _.
Arguments tutorial_steps {World} _.
Arguments running {World} _.
Arguments paused {World} _.
Arguments stop_event {World} _.
Arguments current_step_id {World} _.
Arguments statistics {World} _.

Definition game_package : string := "com.seaofconquest.global".
Definition game_activity : string := "com.kingsgroup.mo.KGUnityPlayerActivity".

(** What one round of the tutorial loop decides. *)
Inductive round : Type :=
| Continue (current_step_index : nat)
| Return (success : bool).

Section Orchestrator.

Variable World : Type.
Variable dev : Device World.

(** ** A state and exception monad for the methods of the bot *)

Definition M (A : Type) : Type := BotState World -> result A * BotState World.

Definition ret {A : Type} (a : A) : M A := fun b => (Ok a, b).

Definition raise {A : Type} (message : string) : M A :=
  fun b => (Raise message, b).

Definition bind {A B : Type} (m : M A) (k : A -> M B) : M B :=
  fun b =>
    match m b with
    | (Ok a, b') => k a b'
    | (Raise message, b') => (Raise message, b')
    end.

(** [try: m  except: h]. *)
Definition catch {A : Type} (m : M A) (h : string -> M A) : M A :=
  fun b =>
    match m b with
    | (Ok a, b') => (Ok a, b')
    | (Raise message, b') => h message b'
    end.

Definition lift {A : Type} (r : result A) : M A := fun b => (r, b).

Notation "'let*' x ':=' m 'in' k" :=
  (bind m (fun x => k))
    (at level 10, x name, m at level 100, k at level 200).
Notation "m '>>' k" :=
  (bind m (fun _ => k)) (at level 150, right associativity).

Definition get : M (BotState World) := fun b => (Ok b, b).

Definition update (f : BotState World -> BotState World) : M unit :=
  fun b => (Ok tt, f b).

Definition with_world (w : World) (ev : event) (b : BotState World)
  : BotState World :=
  {| world := w; trace := trace b ++ [ev];
     tutorial_steps := tutorial_steps b; running := running b;
     paused := paused b; stop_event := stop_event b;
     current_step_id := current_step_id b; statistics := statistics b |}.

Definition with_steps (steps : list TutorialStep) (b : BotState World)
  : BotState World :=
  {| world := world b; trace := trace b;
     tutorial_steps := steps; running := running b;
     paused := paused b; stop_event := stop_event b;
     current_step_id := current_step_id b; statistics := statistics b |}.

Definition with_statistics (st : Statistics) (b : BotState World)
  : BotState World :=
  {| world := world b; trace := trace b;
     tutorial_steps := tutorial_steps b; running := running b;
     paused := paused b; stop_event := stop_event b;
     current_step_id := current_step_id b; statistics := st |}.

Definition with_current_step_id (id : Z) (b : BotState World)
  : BotState World :=
  {| world := world b; trace := trace b;
     tutorial_steps := tutorial_steps b; running := running b;
     paused := paused b; stop_event := stop_event b;
     current_step_id := id; statistics := statistics b |}.

(** A call to the outside: log it, move the world, hand back the
    outcome. *)
Definition call {A : Type} (ev : event) (f : World -> World * result A)
  : M A :=
  fun b => let '(w, r) := f (world b) in (r, with_world w ev b).

(** [time.sleep(ms / 1000)]. *)
Definition sleep (ms : Z) : M unit :=
  call (Sleep ms) (fun w => (time_sleep dev ms w, Ok tt)).

(** ** Statistics *)

(** [statistics.add_error(message)]; [if self.current_server:] holds for
    a known server other than 0. *)
Definition add_error (message : string) : M unit :=
  update (fun b =>
    let st := statistics b in
    let history :=
      match current_server st with
      | Some server =>
          if server =? 0 then error_history st
          else error_history st
               ++ [ {| err_server := server;
                       err_season := current_season st;
                       err_message := message |} ]
      | None => error_history st
      end in
    with_statistics
      {| error_count := error_count st + 1;
         current_server := current_server st;
         current_season := current_season st;
         current_step := current_step st;
         error_history := history |} b).

(** [statistics.set_current_progress(step=id)]. *)
Definition set_current_step (id : Z) : M unit :=
  update (fun b =>
    let st := statistics b in
    with_statistics
      {| error_count := error_count st;
         current_server := current_server st;
         current_season := current_season st;
         current_step := Some id;
         error_history := error_history st |} b).

(** ** Restarts and the recovery cascade *)

(** [restart_game]. *)
Definition restart_game : M bool :=
  catch
    (call (CloseApp game_package) (emu_close_app dev game_package) >>
     sleep 3000 >>
     call (StartApp game_package game_activity)
       (emu_start_app dev game_package game_activity) >>
     sleep 10000 >>
     ret true)
    (fun _ => ret false).

(** [restart_emulator]. *)
Definition restart_emulator : M bool :=
  catch
    (let* ok := call RestartEmulator (emu_restart_emulator dev) in
     if ok then ret true else ret false)
    (fun _ => ret false).

(** One [try] block of the cascade: [Some r] when the block returns [r]
    from [_handle_error], [None] when control falls out of it, also
    through its bare [except]. *)
Definition tier (body : M (option bool)) : M (option bool) :=
  catch body (fun _ => ret None).

(** [_handle_error(e)]. *)
Definition _handle_error (e : string) : M bool :=
  catch
    (add_error e >>
     let* r1 :=
       tier (let* screenshot_bytes :=
               call GetScreenshot (emu_get_screenshot dev) in
             match screenshot_bytes with
             | _ :: _ => ret (Some true)
             | [] => ret None
             end) in
     match r1 with
     | Some r => ret r
     | None =>
       let* r2 :=
         tier (let* ok := restart_game in
               if ok then ret (Some true) else ret None) in
       match r2 with
       | Some r => ret r
       | None =>
         let* r3 :=
           tier (let* ok := restart_emulator in
                 if ok then
                   sleep 10000 >>
                   let* ok2 := restart_game in
                   if ok2 then ret (Some true) else ret None
                 else ret None) in
         match r3 with
         | Some r => ret r
         | None => ret false
         end
       end
     end)
    (fun _ => ret false).

(** ** The tutorial loop *)

(** [_execute_step(step)]. *)
Definition _execute_step (step : TutorialStep) : M (bool * option Z) :=
  catch
    (match handler dev (action_type step) with
     | Some h => call (ExecuteStep (step_id step)) (h step)
     | None =>
         call (ExecuteStep (step_id step)) (fun w => (w, Ok (false, None)))
     end)
    (fun _ => ret (false, None)).

(** [for i, s in enumerate(self.tutorial_steps): if s.step_id ==
    next_step: ...; break], from position [i]. *)
Fixpoint find_step (steps : list TutorialStep) (next_step : Z) (i : nat)
  : option nat :=
  match steps with
  | [] => None
  | s :: rest =>
      if step_id s =? next_step then Some i
      else find_step rest next_step (S i)
  end.

(** The body of [while current_step_index < len(self.tutorial_steps)]. *)
Definition tutorial_round (current_step_index : nat) : M round :=
  let* b := get in
  if stop_event b || negb (running b) then ret (Return false)
  else if paused b then sleep 1000 >> ret (Continue current_step_index)
  else
    match tutorial_steps b !! current_step_index with
    | None => raise "IndexError"
    | Some step =>
      update (with_current_step_id (step_id step)) >>
      set_current_step (step_id step) >>
      let* outcome := _execute_step step in
      let '(success, next_step) := outcome in
      if success then
        match next_step with
        | Some id =>
            let* b := get in
            match find_step (tutorial_steps b) id 0 with
            | Some i => ret (Continue i)
            | None => ret (Continue current_step_index)
            end
        | None => ret (Continue (S current_step_index))
        end
      else
        let retry_count := get_param step "retry_count" (VInt 3) in
        let* more := lift (py_positive retry_count) in
        if more then
          let* fewer := lift (py_pred retry_count) in
          update (fun b =>
            with_steps
              (<[current_step_index := set_param step "retry_count" fewer]>
                 (tutorial_steps b)) b) >>
          sleep 2000 >>
          ret (Continue current_step_index)
        else ret (Return false)
    end.

(** The [while] loop; [None] when [fuel] rounds were not enough. *)
Fixpoint tutorial_loop (fuel : nat) (current_step_index : nat)
  : M (option bool) :=
  match fuel with
  | O => ret None
  | S fuel' =>
      let* b := get in
      if (current_step_index <? length (tutorial_steps b))%nat then
        let* r := tutorial_round current_step_index in
        match r with
        | Continue i => tutorial_loop fuel' i
        | Return success => ret (Some success)
        end
      else ret (Some true)
  end.

(** [_complete_tutorial]. *)
Definition _complete_tutorial (fuel : nat) : M (option bool) :=
  catch
    (tutorial_loop fuel 0)
    (fun e =>
       add_error ("Ошибка в _complete_tutorial: " ++ e)%string >>
       ret (Some false)).

(** ** Lemmas on the restarts and the cascade *)

Ltac run :=
  cbv beta iota zeta delta
    [ _handle_error restart_game restart_emulator tier catch bind ret
      raise lift get update call sleep add_error set_current_step
      with_world with_statistics with_steps with_current_step_id
      _execute_step tutorial_round ];
  cbn [ world trace tutorial_steps running paused stop_event
        current_step_id statistics fst snd ].

Definition restart_events : list event :=
  [ CloseApp game_package; Sleep 3000;
    StartApp game_package game_activity; Sleep 10000 ].

Lemma restart_game_ignores_flags b :
  (forall w, raised (snd (emu_close_app dev game_package w)) = false) ->
  (forall w, raised (snd (emu_start_app dev game_package game_activity w))
             = false) ->
  exists b',
    restart_game b = (Ok true, b')
    /\ trace b' = trace b ++ restart_events
    /\ statistics b' = statistics b.
Proof.
  intros Hclose Hstart. run.
  specialize (Hclose (world b)).
  destruct (emu_close_app dev game_package (world b)) as [w1 [ok1 | m1]];
    [ | discriminate Hclose ].
  run.
  specialize (Hstart (time_sleep dev 3000 w1)).
  destruct (emu_start_app dev game_package game_activity
              (time_sleep dev 3000 w1)) as [w2 [ok2 | m2]];
    [ | discriminate Hstart ].
  run. eexists. split; [ reflexivity | ]. cbn.
  rewrite <- !app_assoc. split; reflexivity.
Qed.

Lemma restart_game_close_raises b w message :
  emu_close_app dev game_package (world b) = (w, Raise message) ->
  exists b',
    restart_game b = (Ok false, b')
    /\ trace b' = trace b ++ [CloseApp game_package]
    /\ world b' = w.
Proof.
  intros Hclose. run. rewrite Hclose. eexists. repeat split.
Qed.

(** Tier 1: a screenshot that comes back, not empty. *)
Lemma handle_error_screenshot e b w byte bytes :
  emu_get_screenshot dev (world b) = (w, Ok (byte :: bytes)) ->
  exists b',
    _handle_error e b = (Ok true, b')
    /\ trace b' = trace b ++ [GetScreenshot].
Proof.
  intros Hshot. run. rewrite Hshot. eexists. repeat split.
Qed.

(** The screenshot check fails: the call raises, or hands back nothing. *)
Definition screenshot_fails (w : World) : Prop :=
  match snd (emu_get_screenshot dev w) with
  | Ok (_ :: _) => False
  | _ => True
  end.

(** Tier 2: no screenshot, and [close_app] and [start_app] return,
    whatever they return. *)
Lemma handle_error_game_restart e b :
  screenshot_fails (world b) ->
  (forall w, raised (snd (emu_close_app dev game_package w)) = false) ->
  (forall w, raised (snd (emu_start_app dev game_package game_activity w))
             = false) ->
  exists b',
    _handle_error e b = (Ok true, b')
    /\ trace b' = trace b ++ GetScreenshot :: restart_events.
Proof.
  intros Hshot Hclose Hstart. unfold screenshot_fails in Hshot.
  destruct (emu_get_screenshot dev (world b)) as [w0 shot] eqn:Eshot.
  cbn [snd] in Hshot.
  pose (b0 := with_world w0 GetScreenshot
                (snd (add_error e b))).
  destruct (restart_game_ignores_flags b0 Hclose Hstart)
    as (b' & Hrun & Htrace & _).
  exists b'. split.
  - unfold _handle_error, tier.
    unfold catch at 1, bind at 1, bind at 1.
    change (add_error e b) with (Ok tt, snd (add_error e b)).
    cbv beta iota.
    unfold catch at 1, bind at 1, call at 1.
    change (world (snd (add_error e b))) with (world b).
    rewrite Eshot. fold b0.
    destruct shot as [ [ | ? ? ] | m ]; [ | contradiction | ];
      cbv beta iota; unfold ret at 1;
      unfold bind at 1, catch at 1, bind at 1; rewrite Hrun; reflexivity.
  - rewrite Htrace. unfold b0. cbn. rewrite <- app_assoc. reflexivity.
Qed.

(** Every call of the cascade raises: the three tiers run in order and
    the cascade reports failure. *)
Lemma handle_error_all_raise e b :
  (forall w, raised (snd (emu_get_screenshot dev w)) = true) ->
  (forall w, raised (snd (emu_close_app dev game_package w)) = true) ->
  (forall w, raised (snd (emu_restart_emulator dev w)) = true) ->
  exists b',
    _handle_error e b = (Ok false, b')
    /\ trace b' = trace b
                  ++ [GetScreenshot; CloseApp game_package; RestartEmulator].
Proof.
  intros Hshot Hclose Hboot. run.
  specialize (Hshot (world b)).
  destruct (emu_get_screenshot dev (world b)) as [w0 [shot | m0]];
    [ discriminate Hshot | ].
  run. specialize (Hclose w0).
  destruct (emu_close_app dev game_package w0) as [w1 [ok1 | m1]];
    [ discriminate Hclose | ].
  run. specialize (Hboot w1).
  destruct (emu_restart_emulator dev w1) as [w2 [ok2 | m2]];
    [ discriminate Hboot | ].
  run. eexists. split; [ reflexivity | ]. cbn. rewrite <- !app_assoc. reflexivity.
Qed.

(** ** Lemmas on the tutorial loop *)

(** The bot is running, not paused, and no stop was requested. *)
Definition ready (b : BotState World) : Prop :=
  running b = true /\ paused b = false /\ stop_event b = false.

(** The handler of an action type never reports success: it returns a
    failure, raises, or is missing. *)
Definition never_succeeds (action : string) : Prop :=
  match handler dev action with
  | Some h =>
      forall step w,
        match snd (h step w) with
        | Ok (true, _) => False
        | _ => True
        end
  | None => True
  end.

Definition retry_count_of (step : TutorialStep) : pyval :=
  get_param step "retry_count" (VInt 3).

Lemma find_step_none steps next_step : forall i,
  Forall (fun s => step_id s <> next_step) steps ->
  find_step steps next_step i = None.
Proof.
  induction steps as [ | s rest IH ]; intros i Hall; [ reflexivity | ].
  inversion Hall as [ | ? ? Hs Hrest ]; subst. cbn.
  destruct (Z.eqb_spec (step_id s) next_step); [ contradiction | ].
  apply IH, Hrest.
Qed.

Lemma execute_step_fails step b :
  never_succeeds (action_type step) ->
  exists w next,
    _execute_step step b
    = (Ok (false, next), with_world w (ExecuteStep (step_id step)) b).
Proof.
  unfold never_succeeds, _execute_step. intros Hfail.
  destruct (handler dev (action_type step)) as [h | ].
  - specialize (Hfail step (world b)).
    unfold catch, call, ret.
    destruct (h step (world b)) as [w [[[ | ] next] | m]]; cbn in Hfail.
    + contradiction.
    + exists w, next. reflexivity.
    + exists w, None. reflexivity.
  - exists (world b), None. reflexivity.
Qed.

(** A failed attempt with retries left: the counter goes down by one,
    the loop sleeps 2 s and stays on the step. *)
Lemma round_retry i step n b :
  ready b ->
  tutorial_steps b !! i = Some step ->
  retry_count_of step = VInt n ->
  never_succeeds (action_type step) ->
  0 < n ->
  exists b',
    tutorial_round i b = (Ok (Continue i), b')
    /\ trace b' = trace b ++ [ExecuteStep (step_id step); Sleep 2000]
    /\ tutorial_steps b'
       = <[i := set_param step "retry_count" (VInt (n - 1))]>
           (tutorial_steps b)
    /\ ready b'.
Proof.
  intros (Hrun & Hpause & Hstop) Hstep Hcount Hfail Hpos.
  unfold tutorial_round, bind at 1, get.
  rewrite Hrun, Hpause, Hstop, Hstep. cbn [orb negb].
  unfold bind at 1, update at 1, bind at 1, set_current_step, update at 1.
  unfold bind at 1.
  match goal with
  | |- context [_execute_step step ?b0] =>
      destruct (execute_step_fails step b0 Hfail) as (w & next & ->)
  end.
  cbv beta iota. fold (retry_count_of step). rewrite Hcount.
  unfold bind at 1, lift at 1, py_positive.
  destruct (Z.ltb_spec 0 n) as [_ | Hle]; [ | lia ].
  run. eexists. split; [ reflexivity | ]. cbn.
  rewrite <- app_assoc. repeat split; assumption.
Qed.

(** A failed attempt with the counter at zero: the run is over. *)
Lemma round_exhausted i step n b :
  ready b ->
  tutorial_steps b !! i = Some step ->
  retry_count_of step = VInt n ->
  never_succeeds (action_type step) ->
  n <= 0 ->
  exists b',
    tutorial_round i b = (Ok (Return false), b')
    /\ trace b' = trace b ++ [ExecuteStep (step_id step)]
    /\ tutorial_steps b' = tutorial_steps b.
Proof.
  intros (Hrun & Hpause & Hstop) Hstep Hcount Hfail Hpos.
  unfold tutorial_round, bind at 1, get.
  rewrite Hrun, Hpause, Hstop, Hstep. cbn [orb negb].
  unfold bind at 1, update at 1, bind at 1, set_current_step, update at 1.
  unfold bind at 1.
  match goal with
  | |- context [_execute_step step ?b0] =>
      destruct (execute_step_fails step b0 Hfail) as (w & next & ->)
  end.
  cbv beta iota. fold (retry_count_of step). rewrite Hcount.
  unfold bind at 1, lift at 1, py_positive.
  destruct (Z.ltb_spec 0 n) as [Hlt | _]; [ lia | ].
  run. eexists. repeat split.
Qed.

Lemma loop_round fuel i b :
  (i < length (tutorial_steps b))%nat ->
  tutorial_loop (S fuel) i b
  = match tutorial_round i b with
    | (Ok (Continue j), b') => tutorial_loop fuel j b'
    | (Ok (Return success), b') => (Ok (Some success), b')
    | (Raise message, b') => (Raise message, b')
    end.
Proof.
  intros Hlt. cbn [tutorial_loop]. unfold bind at 1, get.
  destruct (Nat.ltb_spec i (length (tutorial_steps b))); [ | lia ].
  unfold bind. destruct (tutorial_round i b) as [[[j | success] | m] b'];
    reflexivity.
Qed.

Lemma retry_count_after_set step v :
  retry_count_of (set_param step "retry_count" v) = v.
Proof.
  unfold retry_count_of, get_param, set_param. cbn.
  rewrite lookup_insert_eq. reflexivity.
Qed.


(** A successful step that names a next step no step carries. *)
Lemma round_unknown_jump i step h w next_step b :
  ready b ->
  tutorial_steps b !! i = Some step ->
  handler dev (action_type step) = Some h ->
  h step (world b) = (w, Ok (true, Some next_step)) ->
  Forall (fun s => step_id s <> next_step) (tutorial_steps b) ->
  exists b',
    tutorial_round i b = (Ok (Continue i), b')
    /\ trace b' = trace b ++ [ExecuteStep (step_id step)]
    /\ tutorial_steps b' = tutorial_steps b
    /\ world b' = w
    /\ ready b'.
Proof.
  intros (Hrun & Hpause & Hstop) Hstep Hh Hres Hnone.
  unfold tutorial_round, bind at 1, get.
  rewrite Hrun, Hpause, Hstop, Hstep. cbn [orb negb].
  run. rewrite Hh. run. rewrite Hres. run.
  rewrite (find_step_none _ _ 0%nat Hnone).
  eexists. repeat split; assumption.
Qed.

End Orchestrator.

Arguments ready {World} b.
Arguments never_succeeds {World} dev action.
Arguments screenshot_fails {World} dev w.

(** ** Devices and bots to run the cascade and the loop on *)

(** An emulator that answers nothing, as the facade reports it:
    [get_screenshot] raises, [close_app] and [start_app] return [False]
    (the transport catches its own exceptions), the reboot returns
    [False]. *)
Definition unresponsive : Device unit :=
  {| emu_get_screenshot := fun w => (w, Raise "Устройство не отвечает");
     emu_close_app := fun _ w => (w, Ok false);
     emu_start_app := fun _ _ w => (w, Ok false);
     emu_restart_emulator := fun w => (w, Ok false);
     time_sleep := fun _ w => w;
     handler := fun _ => None |}.

(** A device on which every click fails, and one on which a step of type
    [find_and_click_multiple] succeeds and asks for step 999. *)
Definition dead_screen : Device unit :=
  {| emu_get_screenshot := fun w => (w, Ok [137; 80; 78; 71]);
     emu_close_app := fun _ w => (w, Ok true);
     emu_start_app := fun _ _ w => (w, Ok true);
     emu_restart_emulator := fun w => (w, Ok true);
     time_sleep := fun _ w => w;
     handler := fun action =>
       if String.eqb action "click"
       then Some (fun _ w => (w, Ok (false, None)))
       else if String.eqb action "find_and_click_multiple"
       then Some (fun _ w => (w, Ok (true, Some 999)))
       else None |}.

Definition fresh_statistics : Statistics :=
  {| error_count := 0; current_server := Some 577;
     current_season := Some Season.S1; current_step := None;
     error_history := [] |}.

Definition bot_with (steps : list TutorialStep) : BotState unit :=
  {| world := tt; trace := []; tutorial_steps := steps;
     running := true; paused := false; stop_event := false;
     current_step_id := 0; statistics := fresh_statistics |}.

Definition click_step : TutorialStep :=
  {| step_id := 7; description := "Клик по кнопке";
     action_type := "click";
     params := {[ "x" := VInt 640; "y" := VInt 360;
                  "retry_count" := VInt 2 ]} |}.

Definition jump_step : TutorialStep :=
  {| step_id := 8; description := "Поиск картинок";
     action_type := "find_and_click_multiple";
     params := {[ "images" := VStrs ["skip"; "shoot"] ]} |}.

(** ** C2 *)

(** C2, on the code: with an emulator that answers nothing (the
    screenshot raises, [close_app], [start_app] and the reboot return
    [False]) [_handle_error] reports recovery after the game-restart tier
    and never asks for the emulator reboot: [restart_game] drops the two
    flags and returns [True]. *)
Theorem handle_error_unresponsive_reports_recovered :
  exists b',
    _handle_error unit unresponsive "ConnectionError" (bot_with []) = (Ok true, b')
    /\ trace b' = [ GetScreenshot; CloseApp game_package; Sleep 3000;
                    StartApp game_package game_activity; Sleep 10000 ]
    /\ ~ In RestartEmulator (trace b').
Proof.
  eexists. split; [ reflexivity | ]. split; [ reflexivity | ].
  cbn. intuition discriminate.
Qed.

(** ** C3 *)



(** ** C9 *)

(** C9: when the handler of the current step succeeds and names a next
    step that no step of the list carries, the round ends with the index
    unchanged and the step list untouched; the loop goes on from the same
    index, so the same step is executed again, and the run is neither
    advanced nor failed. *)
Theorem unknown_next_step_repeats (World : Type) (dev : Device World)
  (fuel i : nat) (step : TutorialStep)
  (h : TutorialStep -> World -> World * result (bool * option Z))
  (w : World) (next_step : Z) (b : BotState World) :
  ready b ->
  tutorial_steps b !! i = Some step ->
  handler dev (action_type step) = Some h ->
  h step (world b) = (w, Ok (true, Some next_step)) ->
  Forall (fun s => step_id s <> next_step) (tutorial_steps b) ->
  exists b',
    tutorial_round World dev i b = (Ok (Continue i), b')
    /\ tutorial_steps b' = tutorial_steps b
    /\ trace b' = trace b ++ [ExecuteStep (step_id step)]
    /\ ready b'
    /\ tutorial_loop World dev (S fuel) i b = tutorial_loop World dev fuel i b'.
Proof.
  intros Hready Hstep Hh Hres Hnone.
  destruct (round_unknown_jump World dev i step h w next_step b
              Hready Hstep Hh Hres Hnone)
    as (b' & Hround & Htrace & Hsteps & _ & Hready').
  exists b'. repeat split; try assumption; try apply Hready'.
  rewrite loop_round by (eapply lookup_lt_Some; exact Hstep).
  rewrite Hround. reflexivity.
Qed.

Lemma unknown_next_step_repeats_witness :
  exists b',
    tutorial_round unit dead_screen 0 (bot_with [jump_step])
    = (Ok (Continue 0%nat), b')
    /\ tutorial_steps b' = [jump_step]
    /\ trace b' = [ExecuteStep 8]
    /\ ready b'
    /\ tutorial_loop unit dead_screen 5 0 (bot_with [jump_step])
       = tutorial_loop unit dead_screen 4 0 b'.
Proof.
  apply (unknown_next_step_repeats unit dead_screen 4 0 jump_step
           (fun _ w => (w, Ok (true, Some 999))) tt 999
           (bot_with [jump_step])).
  - repeat split.
  - reflexivity.
  - reflexivity.
  - reflexivity.
  - repeat constructor. cbn. discriminate.
Defined.

(** ** C10 *)

(** C10: [restart_game] returns [True] whenever [close_app] and
    [start_app] return without raising, whatever the two flags are, both
    [False] included; so, when the screenshot check has failed, the
    game-restart tier makes [_handle_error] report recovery although no
    command of the restart succeeded. *)
Theorem restart_game_discards_flags (World : Type) (dev : Device World)
  (b : BotState World) :
  (forall w, raised (snd (emu_close_app dev game_package w)) = false) ->
  (forall w, raised (snd (emu_start_app dev game_package game_activity w))
             = false) ->
  (exists b',
      restart_game World dev b = (Ok true, b')
      /\ trace b' = trace b ++ restart_events)
  /\ (forall e,
        screenshot_fails dev (world b) ->
        exists b',
          _handle_error World dev e b = (Ok true, b')
          /\ trace b' = trace b ++ GetScreenshot :: restart_events).
Proof.
  intros Hclose Hstart. split.
  - destruct (restart_game_ignores_flags World dev b Hclose Hstart)
      as (b' & Hrun & Htrace & _).
    exists b'. split; assumption.
  - intros e Hshot.
    exact (handle_error_game_restart World dev e b Hshot Hclose Hstart).
Qed.

Lemma restart_game_discards_flags_witness :
  snd (emu_close_app unresponsive game_package tt) = Ok false
  /\ snd (emu_start_app unresponsive game_package game_activity tt) = Ok false
  /\ (exists b',
        restart_game unit unresponsive (bot_with []) = (Ok true, b')
        /\ trace b' = trace (bot_with []) ++ restart_events)
  /\ (exists b',
        _handle_error unit unresponsive "ConnectionError" (bot_with [])
        = (Ok true, b')
        /\ trace b' = trace (bot_with []) ++ GetScreenshot :: restart_events).
Proof.
  destruct (restart_game_discards_flags unit unresponsive (bot_with []))
    as [Hrestart Hcascade].
  - intros w. reflexivity.
  - intros w. reflexivity.
  - split; [ reflexivity | ]. split; [ reflexivity | ].
    split; [ exact Hrestart | ].
    apply Hcascade. exact I.
Defined.

End Bot.


(* ===================================================================== *)
(** * More on the tutorial loop: budgets, jumps, pause and stop *)
(* ===================================================================== *)

Module TutorialRuns.

Import Bot.

(** [stop()], [pause()] and [resume()] of [SeaConquestBot]; [start()] is
    given the answer of [emulator.check_connection()], and the thread it
    spawns runs the loop modelled in [Bot]. *)
Definition with_flags {World : Type} (run pause_ stop_ : bool)
  (b : BotState World) : BotState World :=
  {| world := world b; trace := trace b;
     tutorial_steps := tutorial_steps b; running := run;
     paused := pause_; stop_event := stop_;
     current_step_id := current_step_id b; statistics := statistics b |}.

Definition start {World : Type} (connected : bool) (b : BotState World)
  : BotState World :=
  if running b then b
  else if negb connected then b
  else with_flags true false false b.

Definition stop {World : Type} (b : BotState World) : BotState World :=
  if negb (running b) then b
  else with_flags false (paused b) true b.

Definition pause {World : Type} (b : BotState World) : BotState World :=
  if negb (running b) then b
  else if paused b then b
  else with_flags (running b) true (stop_event b) b.

Definition resume {World : Type} (b : BotState World) : BotState World :=
  if negb (running b) then b
  else if negb (paused b) then b
  else with_flags (running b) false (stop_event b) b.

Section Runs.

Variable World : Type.
Variable dev : Device World.

Ltac unfold_round :=
  cbv beta iota zeta delta
    [ tutorial_round _execute_step catch bind ret raise lift get update
      call sleep add_error set_current_step with_world with_statistics
      with_steps with_current_step_id ];
  cbn [ world trace tutorial_steps running paused stop_event
        current_step_id statistics fst snd ].

(** The handler of every step of the list reports success and names no
    next step. *)
Definition all_succeed (steps : list TutorialStep) : Prop :=
  Forall (fun s =>
            exists h, handler dev (action_type s) = Some h
                      /\ forall st w, snd (h st w) = Ok (true, None))
         steps.

Definition same_flags (b b' : BotState World) : Prop :=
  running b' = running b /\ paused b' = paused b
  /\ stop_event b' = stop_event b.

(** ** Lemmas *)

Lemma loop_unfold fuel i b :
  tutorial_loop World dev (S fuel) i b
  = if (i <? length (tutorial_steps b))%nat then
      match tutorial_round World dev i b with
      | (Ok (Continue j), b') => tutorial_loop World dev fuel j b'
      | (Ok (Return success), b') => (Ok (Some success), b')
      | (Raise message, b') => (Raise message, b')
      end
    else (Ok (Some true), b).
Proof.
  cbn [tutorial_loop]. unfold bind at 1, get.
  destruct (_ <? _)%nat; [ | reflexivity ].
  unfold bind.
  destruct (tutorial_round World dev i b) as [[[j | success] | m] b'];
    reflexivity.
Qed.

Lemma complete_tutorial_ok fuel b r b' :
  tutorial_loop World dev fuel 0 b = (Ok r, b') ->
  _complete_tutorial World dev fuel b = (Ok r, b').
Proof.
  intros H. unfold _complete_tutorial, catch. rewrite H. reflexivity.
Qed.

Lemma round_keeps_flags_eq i b r b' :
  tutorial_round World dev i b = (r, b') -> same_flags b b'.
Proof.
  unfold same_flags, tutorial_round, bind at 1, get. cbv beta iota.
  destruct (stop_event b || negb (running b));
    [ unfold_round; intros E; injection E as _ <-; repeat split | ].
  destruct (paused b) eqn:Hp;
    [ unfold_round; intros E; injection E as _ <-; repeat split; exact Hp | ].
  destruct (tutorial_steps b !! i) as [step | ];
    [ | unfold_round; intros E; injection E as _ <-; repeat split; exact Hp ].
  unfold_round.
  destruct (handler dev (action_type step)) as [h | ].
  - unfold_round.
    destruct (h step (world b)) as [w [[[ | ] [next | ]] | m]];
      unfold_round;
      try (destruct (find_step _ _ _));
      try (destruct (py_positive _) as [[ | ] | ]);
      try (destruct (py_pred _));
      unfold_round; intros E; injection E as _ <-; repeat split; exact Hp.
  - unfold_round.
    destruct (py_positive _) as [[ | ] | ];
      try (destruct (py_pred _));
      unfold_round; intros E; injection E as _ <-; repeat split; exact Hp.
Qed.

Lemma round_keeps_flags i b :
  same_flags b (snd (tutorial_round World dev i b)).
Proof.
  destruct (tutorial_round World dev i b) as [r b'] eqn:E.
  exact (round_keeps_flags_eq i b r b' E).
Qed.

Lemma loop_keeps_flags : forall fuel i b,
  same_flags b (snd (tutorial_loop World dev fuel i b)).
Proof.
  induction fuel as [ | fuel IH ]; intros i b; [ repeat split | ].
  rewrite loop_unfold.
  destruct (_ <? _)%nat; [ | repeat split ].
  pose proof (round_keeps_flags i b) as Hround.
  destruct (tutorial_round World dev i b) as [[[j | success] | m] b'];
    cbn [snd] in *; try exact Hround.
  specialize (IH j b'). unfold same_flags in *.
  destruct IH as (-> & -> & ->). exact Hround.
Qed.


Lemma ready_same_flags b b' : ready b -> same_flags b b' -> ready b'.
Proof.
  unfold ready, same_flags. intros (Hr & Hp & Hs) (-> & -> & ->).
  repeat split; assumption.
Qed.

(** A successful attempt: where the loop goes next. *)
Definition next_index (steps : list TutorialStep) (i : nat)
  (next_step : option Z) : nat :=
  match next_step with
  | Some id => default i (find_step steps id 0)
  | None => S i
  end.

Lemma round_success i step h w next_step b :
  ready b ->
  tutorial_steps b !! i = Some step ->
  handler dev (action_type step) = Some h ->
  h step (world b) = (w, Ok (true, next_step)) ->
  exists b',
    tutorial_round World dev i b
    = (Ok (Continue (next_index (tutorial_steps b) i next_step)), b')
    /\ trace b' = trace b ++ [ExecuteStep (step_id step)]
    /\ tutorial_steps b' = tutorial_steps b
    /\ world b' = w
    /\ current_step_id b' = step_id step
    /\ current_step (statistics b') = Some (step_id step)
    /\ ready b'.
Proof.
  intros (Hrun & Hpause & Hstop) Hstep Hh Hres.
  unfold tutorial_round, bind at 1, get.
  rewrite Hrun, Hpause, Hstop, Hstep. cbn [orb negb].
  unfold_round. rewrite Hh. unfold_round. rewrite Hres.
  destruct next_step as [id | ]; unfold_round; cbn [next_index].
  - destruct (find_step (tutorial_steps b) id 0); cbn [from_option Datatypes.id];
      eexists; (split; [ reflexivity | ]); cbn; repeat split; assumption.
  - eexists. split; [ reflexivity | ]. cbn. repeat split; assumption.
Qed.

Lemma find_step_first steps next_step : forall i k target,
  steps !! k = Some target ->
  step_id target = next_step ->
  (forall k' s, (k' < k)%nat -> steps !! k' = Some s ->
                step_id s <> next_step) ->
  find_step steps next_step i = Some (i + k)%nat.
Proof.
  induction steps as [ | s rest IH ]; intros i k target Hk Hid Hfirst.
  - discriminate Hk.
  - cbn [find_step]. destruct k as [ | k ].
    + injection Hk as ->. rewrite Hid, Z.eqb_refl. f_equal. lia.
    + destruct (Z.eqb_spec (step_id s) next_step) as [Heq | _].
      * exfalso. exact (Hfirst 0%nat s ltac:(lia) eq_refl Heq).
      * rewrite (IH (S i) k target Hk Hid).
        -- f_equal. lia.
        -- intros k' s' Hlt Hs'. apply (Hfirst (S k') s'); [ lia | exact Hs' ].
Qed.

(** The loop over a list whose handlers all succeed, from index [i]. *)
Lemma loop_all_succeed : forall (n : nat) fuel i b,
  ready b ->
  all_succeed (tutorial_steps b) ->
  (n + i = length (tutorial_steps b))%nat ->
  exists b',
    tutorial_loop World dev (S n + fuel) i b = (Ok (Some true), b')
    /\ trace b'
       = trace b
         ++ map (fun s => ExecuteStep (step_id s)) (drop i (tutorial_steps b))
    /\ tutorial_steps b' = tutorial_steps b.
Proof.
  induction n as [ | n IH ]; intros fuel i b Hready Hall Hlen.
  - exists b. cbn [Nat.add]. rewrite loop_unfold.
    destruct (Nat.ltb_spec i (length (tutorial_steps b))); [ lia | ].
    split; [ reflexivity | ].
    rewrite drop_ge by lia. cbn. rewrite app_nil_r. split; reflexivity.
  - assert (Hlt : (i < length (tutorial_steps b))%nat) by lia.
    destruct (lookup_lt_is_Some_2 _ _ Hlt) as [step Hstep].
    pose proof Hall as Hall0. unfold all_succeed in Hall0.
    rewrite Forall_lookup in Hall0.
    destruct (Hall0 i step Hstep) as (h & Hh & Hok).
    specialize (Hok step (world b)).
    destruct (h step (world b)) as [w r] eqn:Hres. cbn [snd] in Hok. subst r.
    destruct (round_success i step h w None b Hready Hstep Hh Hres)
      as (b1 & Hround & Htrace & Hsteps & _ & _ & _ & Hready1).
    cbn [next_index] in Hround.
    destruct (IH fuel (S i) b1 Hready1) as (b' & Hloop & Htrace' & Hsteps').
    + rewrite Hsteps. exact Hall.
    + rewrite Hsteps. lia.
    + exists b'. cbn [Nat.add]. rewrite loop_unfold.
      destruct (Nat.ltb_spec i (length (tutorial_steps b))); [ | lia ].
      rewrite Hround. split; [ exact Hloop | ].
      split; [ | congruence ].
      rewrite Htrace', Htrace, Hsteps.
      rewrite (drop_S _ _ _ Hstep). cbn [map].
      rewrite <- app_assoc. reflexivity.
Qed.

(** The loop of a paused bot. *)
Lemma loop_paused : forall fuel i b,
  running b = true -> stop_event b = false -> paused b = true ->
  (i < length (tutorial_steps b))%nat ->
  exists b',
    tutorial_loop World dev fuel i b = (Ok None, b')
    /\ trace b' = trace b ++ replicate fuel (Sleep 1000)
    /\ tutorial_steps b' = tutorial_steps b
    /\ statistics b' = statistics b
    /\ current_step_id b' = current_step_id b.
Proof.
  induction fuel as [ | fuel IH ]; intros i b Hrun Hstop Hpause Hlt.
  - exists b. cbn. rewrite app_nil_r. repeat split.
  - rewrite loop_unfold.
    destruct (Nat.ltb_spec i (length (tutorial_steps b))); [ | lia ].
    unfold tutorial_round, bind at 1, get.
    rewrite Hrun, Hstop, Hpause. cbn [orb negb]. unfold_round.
    match goal with
    | |- context [tutorial_loop World dev fuel i ?b1] =>
        destruct (IH i b1) as (b' & Hloop & Htrace & Hsteps & Hstats & Hid);
          [ assumption .. | ]
    end.
    exists b'. split; [ exact Hloop | ].
    cbn [trace tutorial_steps statistics current_step_id] in *.
    rewrite Htrace, <- app_assoc. repeat split; assumption.
Qed.

(** A stopped bot: the loop gives up before it touches a step. *)
Lemma complete_tutorial_stopped fuel b :
  stop_event b = true \/ running b = false ->
  _complete_tutorial World dev (S fuel) b
  = (Ok (Some (match tutorial_steps b with [] => true | _ => false end)), b).
Proof.
  intros Hflags. apply complete_tutorial_ok. rewrite loop_unfold.
  destruct (tutorial_steps b) as [ | s rest ] eqn:Hsteps; [ reflexivity | ].
  cbn [length Nat.ltb Nat.leb].
  unfold tutorial_round, bind at 1, get.
  replace (stop_event b || negb (running b)) with true; [ reflexivity | ].
  destruct Hflags as [-> | ->]; [ reflexivity | ].
  cbn. rewrite orb_true_r. reflexivity.
Qed.

(** A failed attempt whose retry counter cannot be compared with 0. *)
Lemma round_type_error i step message b :
  ready b ->
  tutorial_steps b !! i = Some step ->
  never_succeeds dev (action_type step) ->
  py_positive (retry_count_of step) = Raise message ->
  exists b',
    tutorial_round World dev i b = (Raise message, b')
    /\ trace b' = trace b ++ [ExecuteStep (step_id step)]
    /\ tutorial_steps b' = tutorial_steps b
    /\ error_count (statistics b') = error_count (statistics b)
    /\ error_history (statistics b') = error_history (statistics b).
Proof.
  intros (Hrun & Hpause & Hstop) Hstep Hfail Hraise.
  unfold tutorial_round, bind at 1, get.
  rewrite Hrun, Hpause, Hstop, Hstep. cbn [orb negb].
  unfold bind at 1, update at 1, bind at 1, set_current_step, update at 1.
  unfold bind at 1.
  match goal with
  | |- context [_execute_step World dev step ?b0] =>
      destruct (execute_step_fails World dev step b0 Hfail) as (w & next & ->)
  end.
  cbv beta iota. fold (retry_count_of step). rewrite Hraise.
  unfold_round. eexists. repeat split.
Qed.

(** The run on a failing step, with what it leaves in the list. *)
Lemma loop_exhausts_retries_steps : forall (n : nat) fuel i step b,
  ready b ->
  tutorial_steps b !! i = Some step ->
  retry_count_of step = VInt (Z.of_nat n) ->
  never_succeeds dev (action_type step) ->
  exists b' step',
    tutorial_loop World dev (S n + fuel) i b = (Ok (Some false), b')
    /\ trace b'
       = trace b
         ++ concat (replicate n [ExecuteStep (step_id step); Sleep 2000])
         ++ [ExecuteStep (step_id step)]
    /\ tutorial_steps b' !! i = Some step'
    /\ step_id step' = step_id step
    /\ action_type step' = action_type step
    /\ retry_count_of step' = VInt 0
    /\ length (tutorial_steps b') = length (tutorial_steps b).
Proof.
  induction n as [ | n IH ]; intros fuel i step b Hready Hstep Hcount Hfail.
  - destruct (round_exhausted World dev i step 0 b Hready Hstep Hcount Hfail
                ltac:(lia))
      as (b' & Hround & Htrace & Hsteps).
    exists b', step. cbn [Nat.add].
    rewrite loop_round by (eapply lookup_lt_Some; exact Hstep).
    rewrite Hround, Hsteps. repeat split; assumption.
  - destruct (round_retry World dev i step (Z.of_nat (S n)) b Hready Hstep
                Hcount Hfail ltac:(lia))
      as (b1 & Hround & Htrace & Hsteps & Hready1).
    pose proof (lookup_lt_Some _ _ _ Hstep) as Hlt.
    assert (Hstep1 : tutorial_steps b1 !! i
                     = Some (set_param step "retry_count" (VInt (Z.of_nat n)))).
    { rewrite Hsteps. replace (Z.of_nat (S n) - 1) with (Z.of_nat n) by lia.
      apply list_lookup_insert_eq. exact Hlt. }
    destruct (IH fuel i _ b1 Hready1 Hstep1 (retry_count_after_set _ _) Hfail)
      as (b' & step' & Hloop & Htrace' & Hstep' & Hid & Haction & Hcount'
          & Hlen).
    exists b', step'. cbn [Nat.add].
    rewrite loop_round by exact Hlt. rewrite Hround.
    split; [ exact Hloop | ]. split.
    { rewrite Htrace', Htrace. cbn [set_param step_id replicate concat].
      rewrite <- !app_assoc. reflexivity. }
    repeat split; try assumption.
    rewrite Hlen, Hsteps. apply length_insert.
Qed.

(** What the handlers and [time.sleep] leave alone in the world. *)
Definition handlers_keep {A : Type} (proj : World -> A) : Prop :=
  (forall ms w, proj (time_sleep dev ms w) = proj w)
  /\ (forall action h step w,
        handler dev action = Some h -> proj (fst (h step w)) = proj w).

Lemma round_keeps_world_eq {A : Type} (proj : World -> A) i b r b' :
  handlers_keep proj ->
  tutorial_round World dev i b = (r, b') ->
  proj (world b') = proj (world b).
Proof.
  intros [Hsleep Hhandler].
  unfold tutorial_round, bind at 1, get. cbv beta iota.
  destruct (stop_event b || negb (running b));
    [ unfold_round; intros E; injection E as _ <-; reflexivity | ].
  destruct (paused b);
    [ unfold_round; intros E; injection E as _ <-; apply Hsleep | ].
  destruct (tutorial_steps b !! i) as [step | ];
    [ | unfold_round; intros E; injection E as _ <-; reflexivity ].
  unfold_round.
  destruct (handler dev (action_type step)) as [h | ] eqn:Hh.
  - unfold_round.
    pose proof (Hhandler _ h step (world b) Hh) as Hw.
    destruct (h step (world b)) as [w res]. cbn [fst] in Hw.
    destruct res as [[[ | ] [next | ]] | m];
      unfold_round;
      try (destruct (find_step _ _ _));
      try (destruct (py_positive _) as [[ | ] | ]);
      try (destruct (py_pred _));
      unfold_round; intros E; injection E as _ <-;
      cbn [world]; rewrite ?Hsleep; exact Hw.
  - unfold_round.
    destruct (py_positive _) as [[ | ] | ];
      try (destruct (py_pred _));
      unfold_round; intros E; injection E as _ <-;
      cbn [world]; rewrite ?Hsleep; reflexivity.
Qed.

Lemma loop_keeps_world {A : Type} (proj : World -> A) :
  handlers_keep proj ->
  forall fuel i b,
    proj (world (snd (tutorial_loop World dev fuel i b))) = proj (world b).
Proof.
  intros Hkeep. induction fuel as [ | fuel IH ]; intros i b; [ reflexivity | ].
  rewrite loop_unfold.
  destruct (_ <? _)%nat; [ | reflexivity ].
  destruct (tutorial_round World dev i b) as [r b'] eqn:E.
  pose proof (round_keeps_world_eq proj i b r b' Hkeep E) as Hround.
  destruct r as [[j | success] | m]; cbn [snd]; try exact Hround.
  rewrite IH. exact Hround.
Qed.

Lemma complete_tutorial_keeps {A : Type} (proj : World -> A) fuel b :
  handlers_keep proj ->
  same_flags b (snd (_complete_tutorial World dev fuel b))
  /\ proj (world (snd (_complete_tutorial World dev fuel b)))
     = proj (world b).
Proof.
  intros Hkeep.
  pose proof (loop_keeps_flags fuel 0 b) as Hflags.
  pose proof (loop_keeps_world proj Hkeep fuel 0 b) as Hworld.
  unfold _complete_tutorial, catch.
  destruct (tutorial_loop World dev fuel 0 b) as [[r | m] b'];
    cbn [snd] in *; split; assumption.
Qed.

End Runs.

Arguments handlers_keep {World} dev {A} proj.

Arguments same_flags {World} b b'.
Arguments all_succeed {World} dev steps.

(** ** Devices and bots to run the loop on *)

(** A device on which a step of type [click] succeeds and a step of type
    [find_and_click_multiple] succeeds and asks for step 7; a [swipe]
    fails. *)
Definition live_screen : Device unit :=
  {| emu_get_screenshot := fun w => (w, Ok [137; 80; 78; 71]);
     emu_close_app := fun _ w => (w, Ok true);
     emu_start_app := fun _ _ w => (w, Ok true);
     emu_restart_emulator := fun w => (w, Ok true);
     time_sleep := fun _ w => w;
     handler := fun action =>
       if String.eqb action "click"
       then Some (fun _ w => (w, Ok (true, None)))
       else if String.eqb action "find_and_click_multiple"
       then Some (fun _ w => (w, Ok (true, Some 7)))
       else if String.eqb action "swipe"
       then Some (fun _ w => (w, Ok (false, None)))
       else None |}.

Definition wait_step : TutorialStep :=
  {| step_id := 3; description := "Ожидание";
     action_type := "click"; params := {[ "x" := VInt 1; "y" := VInt 1 ]} |}.


Definition text_retry_step : TutorialStep :=
  {| step_id := 6; description := "Свайп";
     action_type := "swipe";
     params := {[ "retry_count" := VStr "3" ]} |}.

(** ** The retry budget *)





(** The budget belongs to the step object, not to the run: after a run
    that used up the retries of its first step, the next run of
    [_complete_tutorial] on the same bot attempts that step once and
    returns [False]. *)
Theorem retry_budget_not_restored (World : Type) (dev : Device World)
  (n fuel fuel' : nat) (step : TutorialStep) (rest : list TutorialStep)
  (b : BotState World) :
  ready b ->
  tutorial_steps b = step :: rest ->
  retry_count_of step = VInt (Z.of_nat n) ->
  never_succeeds dev (action_type step) ->
  exists b1 b2,
    _complete_tutorial World dev (S n + fuel) b = (Ok (Some false), b1)
    /\ _complete_tutorial World dev (S fuel') b1 = (Ok (Some false), b2)
    /\ trace b2 = trace b1 ++ [ExecuteStep (step_id step)].
Proof.
  intros Hready Hsteps Hcount Hfail.
  assert (Hstep : tutorial_steps b !! 0%nat = Some step)
    by (rewrite Hsteps; reflexivity).
  destruct (loop_exhausts_retries_steps World dev n fuel 0 step b
              Hready Hstep Hcount Hfail)
    as (b1 & step' & Hloop & _ & Hstep' & Hid & Haction & Hcount' & _).
  assert (Hready1 : ready b1).
  { apply (ready_same_flags World b); [ exact Hready | ].
    pose proof (loop_keeps_flags World dev (S n + fuel) 0 b) as Hflags.
    rewrite Hloop in Hflags. exact Hflags. }
  rewrite <- Haction in Hfail.
  destruct (round_exhausted World dev 0 step' 0 b1 Hready1 Hstep' Hcount'
              Hfail ltac:(lia))
    as (b2 & Hround & Htrace & _).
  exists b1, b2. split; [ apply complete_tutorial_ok; exact Hloop | ].
  split.
  - apply complete_tutorial_ok.
    rewrite loop_round by (eapply lookup_lt_Some; exact Hstep').
    rewrite Hround. reflexivity.
  - rewrite Htrace, Hid. reflexivity.
Qed.

Lemma retry_budget_not_restored_witness :
  exists b1 b2,
    _complete_tutorial unit dead_screen 3 (bot_with [click_step; jump_step])
    = (Ok (Some false), b1)
    /\ _complete_tutorial unit dead_screen 1 b1 = (Ok (Some false), b2)
    /\ trace b2 = trace b1 ++ [ExecuteStep 7].
Proof.
  apply (retry_budget_not_restored unit dead_screen 2 0 0 click_step
           [jump_step] (bot_with [click_step; jump_step])).
  - repeat split.
  - reflexivity.
  - reflexivity.
  - cbn. intros step w. exact I.
Defined.

(** A [retry_count] that is not a number: the comparison [retry_count >
    0] raises after the first failed attempt, [_complete_tutorial]
    catches it, counts one error and returns [False]; the step list is
    left as it was. *)
Theorem non_numeric_retry_count (World : Type) (dev : Device World)
  (fuel : nat) (step : TutorialStep) (rest : list TutorialStep)
  (message : string) (b : BotState World) :
  ready b ->
  tutorial_steps b = step :: rest ->
  never_succeeds dev (action_type step) ->
  py_positive (retry_count_of step) = Raise message ->
  exists b',
    _complete_tutorial World dev (S fuel) b = (Ok (Some false), b')
    /\ trace b' = trace b ++ [ExecuteStep (step_id step)]
    /\ error_count (statistics b') = error_count (statistics b) + 1
    /\ tutorial_steps b' = tutorial_steps b.
Proof.
  intros Hready Hsteps Hfail Hraise.
  assert (Hstep : tutorial_steps b !! 0%nat = Some step)
    by (rewrite Hsteps; reflexivity).
  destruct (round_type_error World dev 0 step message b Hready Hstep Hfail
              Hraise)
    as (b1 & Hround & Htrace & Hsame & Hcount & _).
  unfold _complete_tutorial, catch.
  rewrite loop_round by (eapply lookup_lt_Some; exact Hstep).
  rewrite Hround.
  eexists. split; [ reflexivity | ]. cbn.
  rewrite Htrace, Hcount, Hsame. repeat split.
Qed.

Lemma non_numeric_retry_count_witness :
  exists b',
    _complete_tutorial unit live_screen 1 (bot_with [text_retry_step])
    = (Ok (Some false), b')
    /\ trace b' = [ExecuteStep 6]
    /\ error_count (statistics b') = 1
    /\ tutorial_steps b' = [text_retry_step].
Proof.
  apply (non_numeric_retry_count unit live_screen 0 text_retry_step []
           "TypeError" (bot_with [text_retry_step])).
  - repeat split.
  - reflexivity.
  - cbn. intros step w. exact I.
  - reflexivity.
Defined.

(** ** Runs that succeed *)

(** When the handler of every step succeeds and names no next step,
    [_complete_tutorial] executes every step once, in list order, and
    returns [True]; no retry counter is touched. *)
Theorem all_steps_succeed_in_order (World : Type) (dev : Device World)
  (fuel : nat) (b : BotState World) :
  ready b ->
  all_succeed dev (tutorial_steps b) ->
  exists b',
    _complete_tutorial World dev (S (length (tutorial_steps b)) + fuel) b
    = (Ok (Some true), b')
    /\ trace b'
       = trace b ++ map (fun s => ExecuteStep (step_id s)) (tutorial_steps b)
    /\ tutorial_steps b' = tutorial_steps b.
Proof.
  intros Hready Hall.
  destruct (loop_all_succeed World dev (length (tutorial_steps b)) fuel 0 b
              Hready Hall ltac:(lia))
    as (b' & Hloop & Htrace & Hsteps).
  exists b'. split; [ apply complete_tutorial_ok; exact Hloop | ].
  split; assumption.
Qed.

Lemma all_steps_succeed_in_order_witness :
  exists b',
    _complete_tutorial unit live_screen 3
      (bot_with [wait_step; click_step])
    = (Ok (Some true), b')
    /\ trace b' = [ExecuteStep 3; ExecuteStep 7]
    /\ tutorial_steps b' = [wait_step; click_step].
Proof.
  apply (all_steps_succeed_in_order unit live_screen 0
           (bot_with [wait_step; click_step])).
  - repeat split.
  - repeat constructor;
      (exists (fun _ w => (w, Ok (true, None))); split;
       [ reflexivity | intros st w; reflexivity ]).
Defined.

(** A successful step that names a next step: the loop goes on at the
    first position of the list that carries this id, whether it lies
    before or after the current one. *)
Theorem jump_goes_to_first_match (World : Type) (dev : Device World)
  (fuel i j : nat) (step target : TutorialStep)
  (h : TutorialStep -> World -> World * result (bool * option Z))
  (w : World) (next_step : Z) (b : BotState World) :
  ready b ->
  tutorial_steps b !! i = Some step ->
  handler dev (action_type step) = Some h ->
  h step (world b) = (w, Ok (true, Some next_step)) ->
  tutorial_steps b !! j = Some target ->
  step_id target = next_step ->
  (forall k s, (k < j)%nat -> tutorial_steps b !! k = Some s ->
               step_id s <> next_step) ->
  exists b',
    tutorial_round World dev i b = (Ok (Continue j), b')
    /\ tutorial_steps b' = tutorial_steps b
    /\ trace b' = trace b ++ [ExecuteStep (step_id step)]
    /\ tutorial_loop World dev (S fuel) i b = tutorial_loop World dev fuel j b'.
Proof.
  intros Hready Hstep Hh Hres Htarget Hid Hfirst.
  destruct (round_success World dev i step h w (Some next_step) b
              Hready Hstep Hh Hres)
    as (b' & Hround & Htrace & Hsteps & _).
  cbn [next_index] in Hround.
  rewrite (find_step_first _ _ 0%nat j target Htarget Hid Hfirst) in Hround.
  cbn [from_option Datatypes.id Nat.add] in Hround.
  exists b'. split; [ exact Hround | ]. split; [ exact Hsteps | ].
  split; [ exact Htrace | ].
  rewrite loop_round by (eapply lookup_lt_Some; exact Hstep).
  rewrite Hround. reflexivity.
Qed.

Lemma jump_goes_to_first_match_witness :
  exists b',
    tutorial_round unit live_screen 2
      (bot_with [wait_step; click_step; jump_step; click_step])
    = (Ok (Continue 1%nat), b')
    /\ tutorial_steps b' = [wait_step; click_step; jump_step; click_step]
    /\ trace b' = [ExecuteStep 8]
    /\ tutorial_loop unit live_screen 1 2
         (bot_with [wait_step; click_step; jump_step; click_step])
       = tutorial_loop unit live_screen 0 1 b'.
Proof.
  apply (jump_goes_to_first_match unit live_screen 0 2 1 jump_step click_step
           (fun _ w => (w, Ok (true, Some 7))) tt 7
           (bot_with [wait_step; click_step; jump_step; click_step])).
  - repeat split.
  - reflexivity.
  - reflexivity.
  - reflexivity.
  - reflexivity.
  - reflexivity.
  - intros [ | k ] s Hlt Hs; [ | lia ].
    injection Hs as <-. discriminate.
Defined.

(** ** Pause and stop *)

(** The tutorial loop of a paused bot executes nothing and does not
    return: each round only sleeps one second, for as many rounds as it
    is given. *)
Theorem paused_loop_only_sleeps (World : Type) (dev : Device World)
  (fuel i : nat) (b : BotState World) :
  ready b ->
  (i < length (tutorial_steps b))%nat ->
  exists b',
    tutorial_loop World dev fuel i (pause b) = (Ok None, b')
    /\ trace b' = trace b ++ replicate fuel (Sleep 1000)
    /\ tutorial_steps b' = tutorial_steps b
    /\ statistics b' = statistics b.
Proof.
  intros (Hrun & Hpause & Hstop) Hlt.
  unfold pause. rewrite Hrun, Hpause. cbn [negb].
  destruct (loop_paused World dev fuel i
              (with_flags true true (stop_event b) b))
    as (b' & Hloop & Htrace & Hsteps & Hstats & _);
    try reflexivity; try assumption.
  exists b'. repeat split; assumption.
Qed.

Lemma paused_loop_only_sleeps_witness :
  exists b',
    tutorial_loop unit live_screen 3 0 (pause (bot_with [wait_step]))
    = (Ok None, b')
    /\ trace b' = [Sleep 1000; Sleep 1000; Sleep 1000]
    /\ tutorial_steps b' = [wait_step]
    /\ statistics b' = fresh_statistics.
Proof.
  apply (paused_loop_only_sleeps unit live_screen 3 0 (bot_with [wait_step])).
  - repeat split.
  - cbn. lia.
Defined.

(** After [stop()], [_complete_tutorial] returns without asking anything
    of the device: [False] when there are steps, and [True] when the
    step list is empty, since the flags are only looked at inside the
    loop; [pause()] and [resume()] no longer change the bot. *)
Theorem stop_cancels_tutorial (World : Type) (dev : Device World)
  (fuel : nat) (b : BotState World) :
  running b = true ->
  _complete_tutorial World dev (S fuel) (stop b)
  = (Ok (Some (match tutorial_steps b with [] => true | _ => false end)),
     stop b)
  /\ pause (stop b) = stop b
  /\ resume (stop b) = stop b
  /\ stop (stop b) = stop b.
Proof.
  intros Hrun.
  assert (Hstopped : running (stop b) = false)
    by (unfold stop; rewrite Hrun; reflexivity).
  split.
  - rewrite (complete_tutorial_stopped World dev fuel (stop b))
      by (right; exact Hstopped).
    unfold stop. rewrite Hrun. reflexivity.
  - clear Hstopped. destruct b as [w tr steps run_ pa st cid stats].
    cbn in Hrun. subst run_. repeat split.
Qed.

Lemma stop_cancels_tutorial_witness :
  _complete_tutorial unit live_screen 1 (stop (bot_with [wait_step]))
  = (Ok (Some false), stop (bot_with [wait_step]))
  /\ pause (stop (bot_with [wait_step])) = stop (bot_with [wait_step])
  /\ resume (stop (bot_with [wait_step])) = stop (bot_with [wait_step])
  /\ stop (stop (bot_with [wait_step])) = stop (bot_with [wait_step]).
Proof.
  apply (stop_cancels_tutorial unit live_screen 0 (bot_with [wait_step])).
  reflexivity.
Defined.

(** [pause()] then [resume()] gives back the bot it started from, and
    [start()] on a stopped bot whose emulator answers clears the stop
    request and the pause. *)
Theorem pause_resume_start (World : Type) (b : BotState World) :
  ready b ->
  resume (pause b) = b
  /\ start true b = b
  /\ ready (start true (stop (pause b)))
  /\ start false (stop b) = stop b.
Proof.
  intros (Hrun & Hpause & Hstop).
  destruct b as [w tr steps run_ pa st cid stats]. cbn in *. subst.
  repeat split.
Qed.

Lemma pause_resume_start_witness :
  resume (pause (bot_with [wait_step])) = bot_with [wait_step]
  /\ start true (bot_with [wait_step]) = bot_with [wait_step]
  /\ ready (start true (stop (pause (bot_with [wait_step]))))
  /\ start false (stop (bot_with [wait_step])) = stop (bot_with [wait_step]).
Proof.
  apply (pause_resume_start unit (bot_with [wait_step])).
  repeat split.
Defined.
End TutorialRuns.

(* ===================================================================== *)
(** * The main loop of the bot: one tutorial per server *)
(* ===================================================================== *)

Module MainLoop.

Import Bot TutorialRuns.

(** The fields of the bot that [_run] reads and writes, with the
    counters and lists of [BotStatistics] that [add_success] and
    [add_failure] update.  They are part of the world the handlers work
    on: a handler is a method of the bot ([select_server] assigns
    [self.current_server]).  [end_server] is [settings.end_server]. *)
Record Self (Env : Type) : Type := {
  env : Env;
  bot_current_server : Z;
  bot_current_season : string;
  end_server : Z;
  success_count : Z;
  failure_count : Z;
  completed_servers : list Z;
  failed_servers : list Z
}.
Arguments env {Env} _.
Arguments bot_current_server {Env} _.
Arguments bot_current_season {Env} _.
Arguments end_server {Env} _.
Arguments success_count {Env} _.
Arguments failure_count {Env} _.
Arguments completed_servers {Env} _.
Arguments failed_servers {Env} _.

(** Everything of [Self] but the environment. *)
Definition own_fields {Env : Type} (s : Self Env)
  : Z * string * Z * Z * Z * list Z * list Z :=
  (bot_current_server s, bot_current_season s, end_server s,
   success_count s, failure_count s, completed_servers s, failed_servers s).

(** What one pass through the body of the [while] of [_run] decides. *)
Inductive verdict : Type :=
| Again (recovery_attempts : Z)
| Break.

Definition max_recovery_attempts : Z := 3.

Section Run.

Variable Env : Type.
Variable dev : Device (Self Env).

Notation "'let*' x ':=' m 'in' k" :=
  (bind (Self Env) m (fun x => k))
    (at level 10, x name, m at level 100, k at level 200).
Notation "m '>>' k" :=
  (bind (Self Env) m (fun _ => k)) (at level 150, right associativity).

Definition with_self (s : (Self Env)) (b : BotState (Self Env)) : BotState (Self Env) :=
  {| world := s; trace := trace b;
     tutorial_steps := tutorial_steps b; running := running b;
     paused := paused b; stop_event := stop_event b;
     current_step_id := current_step_id b; statistics := statistics b |}.

Definition on_self (f : (Self Env) -> (Self Env)) : M (Self Env) unit :=
  update (Self Env) (fun b => with_self (f (world b)) b).

(** [self.current_server = server]. *)
Definition set_server (server : Z) (s : (Self Env)) : (Self Env) :=
  {| env := env s; bot_current_server := server;
     bot_current_season := bot_current_season s;
     end_server := end_server s;
     success_count := success_count s; failure_count := failure_count s;
     completed_servers := completed_servers s;
     failed_servers := failed_servers s |}.

(** [self.current_season = season]. *)
Definition set_season (season : string) (s : (Self Env)) : (Self Env) :=
  {| env := env s; bot_current_server := bot_current_server s;
     bot_current_season := season;
     end_server := end_server s;
     success_count := success_count s; failure_count := failure_count s;
     completed_servers := completed_servers s;
     failed_servers := failed_servers s |}.

(** [statistics.add_success(server, duration)], on the counter and the
    list. *)
Definition add_success (server : Z) (s : (Self Env)) : (Self Env) :=
  {| env := env s; bot_current_server := bot_current_server s;
     bot_current_season := bot_current_season s;
     end_server := end_server s;
     success_count := success_count s + 1;
     failure_count := failure_count s;
     completed_servers := completed_servers s ++ [server];
     failed_servers := failed_servers s |}.

(** [statistics.add_failure(server, reason)], on the counter and the
    list. *)
Definition add_failure (server : Z) (s : (Self Env)) : (Self Env) :=
  {| env := env s; bot_current_server := bot_current_server s;
     bot_current_season := bot_current_season s;
     end_server := end_server s;
     success_count := success_count s;
     failure_count := failure_count s + 1;
     completed_servers := completed_servers s;
     failed_servers := failed_servers s ++ [server] |}.

(** [statistics.set_current_progress(server, season)]. *)
Definition set_current_progress (server : Z) (season : string)
  : M (Self Env) unit :=
  update (Self Env) (fun b =>
    let st := statistics b in
    with_statistics (Self Env)
      {| error_count := error_count st;
         current_server := Some server;
         current_season := Some season;
         current_step := current_step st;
         error_history := error_history st |} b).

(** [self.running = False]. *)
Definition clear_running : M (Self Env) unit :=
  update (Self Env) (fun b => with_flags false (paused b) (stop_event b) b).

(** [self.current_server -= 1]. *)
Definition next_server : M (Self Env) unit :=
  on_self (fun s => set_server (bot_current_server s - 1) s).

(** [self.current_season = self._get_season_for_server(
    self.current_server)]. *)
Definition refresh_season : M (Self Env) unit :=
  on_self (fun s =>
    set_season (Season.get_season_for_server (bot_current_server s)) s).

(** The body of the inner [try], from the answer of
    [_complete_tutorial] on. *)
Definition after_tutorial (recovery_attempts : Z) (tutorial_success : bool)
  : M (Self Env) verdict :=
  let* attempts :=
    (if tutorial_success then
       let* b := get (Self Env) in
       on_self (add_success (bot_current_server (world b))) >>
       ret (Self Env) 0
     else
       let* b := get (Self Env) in
       on_self (add_failure (bot_current_server (world b))) >>
       ret (Self Env) recovery_attempts) in
  next_server >>
  let* b := get (Self Env) in
  if bot_current_server (world b) <? end_server (world b) then
    clear_running >> ret (Self Env) Break
  else
    refresh_season >> ret (Self Env) (Again attempts).

(** The body of the inner [try]; [None] when the tutorial loop ran out
    of fuel. *)
Definition run_try (fuel : nat) (recovery_attempts : Z)
  : M (Self Env) (option verdict) :=
  let* b := get (Self Env) in
  if paused b then
    sleep (Self Env) dev 1000 >> ret (Self Env) (Some (Again recovery_attempts))
  else if bot_current_server (world b) <? end_server (world b) then
    clear_running >> ret (Self Env) (Some Break)
  else
    set_current_progress (bot_current_server (world b))
      (bot_current_season (world b)) >>
    let* answer := _complete_tutorial (Self Env) dev fuel in
    match answer with
    | Some tutorial_success =>
        let* v := after_tutorial recovery_attempts tutorial_success in
        ret (Self Env) (Some v)
    | None => ret (Self Env) None
    end.

(** The inner [try] with its [except Exception as e]. *)
Definition run_round (fuel : nat) (recovery_attempts : Z)
  : M (Self Env) (option verdict) :=
  catch (Self Env)
    (run_try fuel recovery_attempts)
    (fun e =>
       let* recovered := _handle_error (Self Env) dev e in
       if recovered && (recovery_attempts <? max_recovery_attempts) then
         sleep (Self Env) dev 5000 >>
         ret (Self Env) (Some (Again (recovery_attempts + 1)))
       else
         let* b := get (Self Env) in
         on_self (add_failure (bot_current_server (world b))) >>
         next_server >>
         refresh_season >>
         ret (Self Env) (Some (Again 0))).

(** [while self.running and not self._stop_event.is_set()]; [None] when
    [rounds] passes were not enough or the tutorial loop ran out of
    fuel. *)
Fixpoint run_loop (rounds fuel : nat) (recovery_attempts : Z)
  : M (Self Env) (option unit) :=
  match rounds with
  | O => ret (Self Env) None
  | S rounds' =>
      let* b := get (Self Env) in
      if running b && negb (stop_event b) then
        let* v := run_round fuel recovery_attempts in
        match v with
        | Some (Again attempts) => run_loop rounds' fuel attempts
        | Some Break => ret (Self Env) (Some tt)
        | None => ret (Self Env) None
        end
      else ret (Self Env) (Some tt)
  end.

(** [_run]. *)
Definition _run (rounds fuel : nat) : M (Self Env) (option unit) :=
  catch (Self Env)
    (run_loop rounds fuel 0)
    (fun e =>
       clear_running >>
       add_error (Self Env) ("Критическая ошибка: " ++ e)%string >>
       ret (Self Env) (Some tt)).

(** ** Lemmas *)

Ltac step_run :=
  cbv beta iota zeta delta
    [ after_tutorial run_try run_round clear_running next_server
      refresh_season set_current_progress on_self with_self
      catch bind ret raise lift get update call sleep
      with_world with_statistics with_steps with_current_step_id
      with_flags ];
  cbn [ world trace tutorial_steps running paused stop_event
        current_step_id statistics fst snd
        env bot_current_server bot_current_season end_server
        success_count failure_count completed_servers failed_servers
        set_server set_season add_success add_failure ].

(** The servers from [server] down, [n] of them. *)
Definition servers_down (server : Z) (n : nat) : list Z :=
  map (fun k => server - Z.of_nat k) (seq 0 n).

Lemma servers_down_cons server n :
  servers_down server (S n) = server :: servers_down (server - 1) n.
Proof.
  unfold servers_down. cbn [seq map]. rewrite Z.sub_0_r. f_equal.
  rewrite <- seq_shift, map_map. apply map_ext. intros k. lia.
Qed.

Lemma run_loop_unfold rounds fuel attempts b :
  run_loop (S rounds) fuel attempts b
  = if running b && negb (stop_event b) then
      match run_round fuel attempts b with
      | (Ok (Some (Again a)), b') => run_loop rounds fuel a b'
      | (Ok (Some Break), b') => (Ok (Some tt), b')
      | (Ok None, b') => (Ok None, b')
      | (Raise message, b') => (Raise message, b')
      end
    else (Ok (Some tt), b).
Proof.
  cbn [run_loop]. unfold bind at 1, get.
  destruct (running b && negb (stop_event b)); [ | reflexivity ].
  unfold bind.
  destruct (run_round fuel attempts b) as [[[[a | ] | ] | m] b'];
    reflexivity.
Qed.

Lemma run_ok rounds fuel b r b' :
  run_loop rounds fuel 0 b = (Ok r, b') ->
  _run rounds fuel b = (Ok r, b').
Proof.
  intros H. unfold _run, catch. rewrite H. reflexivity.
Qed.

(** One pass of [_run] when the tutorial of the current server ends
    with the answer [success]. *)
Lemma run_round_answer fuel attempts success b b2 :
  ready b ->
  end_server (world b) <= bot_current_server (world b) ->
  handlers_keep dev own_fields ->
  _complete_tutorial (Self Env) dev fuel
    (snd (set_current_progress (bot_current_server (world b))
            (bot_current_season (world b)) b))
  = (Ok (Some success), b2) ->
  exists b',
    run_round fuel attempts b
    = (Ok (Some (if bot_current_server (world b) - 1 <? end_server (world b)
                 then Break
                 else Again (if success then 0 else attempts))), b')
    /\ trace b' = trace b2
    /\ tutorial_steps b' = tutorial_steps b2
    /\ bot_current_server (world b') = bot_current_server (world b) - 1
    /\ end_server (world b') = end_server (world b)
    /\ completed_servers (world b')
       = completed_servers (world b)
         ++ (if success then [bot_current_server (world b)] else [])
    /\ failed_servers (world b')
       = failed_servers (world b)
         ++ (if success then [] else [bot_current_server (world b)])
    /\ success_count (world b')
       = success_count (world b) + (if success then 1 else 0)
    /\ failure_count (world b')
       = failure_count (world b) + (if success then 0 else 1)
    /\ running b'
       = negb (bot_current_server (world b) - 1 <? end_server (world b))
    /\ paused b' = false
    /\ stop_event b' = false.
Proof.
  intros (Hrun & Hpause & Hstop) Hrange Hkeep Htutorial.
  match type of Htutorial with
  | _complete_tutorial _ _ _ ?b1 = _ =>
      destruct (complete_tutorial_keeps (Self Env) dev own_fields fuel b1 Hkeep)
        as [(Hrun2 & Hpause2 & Hstop2) Hown]
  end.
  rewrite Htutorial in Hrun2, Hpause2, Hstop2, Hown.
  cbn [snd] in Hrun2, Hpause2, Hstop2, Hown.
  unfold set_current_progress, update in Hrun2, Hpause2, Hstop2, Hown.
  cbn [snd with_statistics running paused stop_event world]
    in Hrun2, Hpause2, Hstop2, Hown.
  unfold own_fields in Hown.
  injection Hown as Hserver Hseason Hend Hsucc Hfail Hdone Hfailed.
  unfold run_round, catch, run_try. unfold bind at 1, get.
  rewrite Hpause.
  destruct (Z.ltb_spec (bot_current_server (world b)) (end_server (world b)));
    [ lia | ].
  unfold bind at 1.
  change (set_current_progress (bot_current_server (world b))
            (bot_current_season (world b)) b)
    with (Ok tt, snd (set_current_progress (bot_current_server (world b))
                        (bot_current_season (world b)) b)).
  cbv beta iota. unfold bind at 1. rewrite Htutorial. cbv beta iota.
  destruct success; step_run; rewrite Hserver, Hend;
    destruct (bot_current_server (world b) - 1 <? end_server (world b));
    step_run; cbn [negb];
    (eexists; split; [ reflexivity | ];
     unfold set_server, set_season, add_success, add_failure;
     cbn [ world trace tutorial_steps running paused stop_event
           bot_current_server end_server success_count failure_count
           completed_servers failed_servers ];
     rewrite ?Z.add_0_r, ?app_nil_r; repeat split; congruence).
Qed.

Lemma progress_ready b server season :
  ready b -> ready (snd (set_current_progress server season b)).
Proof. intros H. exact H. Qed.

(** The whole run when every tutorial succeeds. *)
Lemma run_loop_all_succeed : forall (n : nat) rounds fuel attempts b,
  ready b ->
  all_succeed dev (tutorial_steps b) ->
  handlers_keep dev own_fields ->
  Z.to_nat (bot_current_server (world b) - end_server (world b) + 1) = n ->
  exists b',
    run_loop (S n + rounds) (S (length (tutorial_steps b)) + fuel) attempts b
    = (Ok (Some tt), b')
    /\ trace b'
       = trace b
         ++ concat (replicate n
                      (map (fun s => ExecuteStep (step_id s))
                         (tutorial_steps b)))
    /\ tutorial_steps b' = tutorial_steps b
    /\ completed_servers (world b')
       = completed_servers (world b)
         ++ servers_down (bot_current_server (world b)) n
    /\ failed_servers (world b') = failed_servers (world b)
    /\ success_count (world b') = success_count (world b) + Z.of_nat n
    /\ bot_current_server (world b')
       = Z.min (bot_current_server (world b)) (end_server (world b) - 1)
    /\ running b' = false.
Proof.
  induction n as [ | n IH ]; intros rounds fuel attempts b Hready Hall Hkeep Hn.
  - destruct Hready as (Hrun & Hpause & Hstop).
    cbn [Nat.add]. rewrite run_loop_unfold, Hrun, Hstop. cbn [andb negb].
    unfold run_round, catch, run_try. unfold bind at 1, get. rewrite Hpause.
    destruct (Z.ltb_spec (bot_current_server (world b))
                (end_server (world b))); [ | lia ].
    step_run. eexists. split; [ reflexivity | ].
    cbn [ world trace tutorial_steps running bot_current_server
          completed_servers failed_servers success_count replicate concat ].
    unfold servers_down. cbn [seq map].
    rewrite !app_nil_r, Z.add_0_r, Z.min_l by lia. repeat split.
  - pose proof Hready as (Hrun & Hpause & Hstop).
    set (b1 := snd (set_current_progress (bot_current_server (world b))
                      (bot_current_season (world b)) b)).
    destruct (loop_all_succeed (Self Env) dev (length (tutorial_steps b1))
                fuel 0 b1 Hready Hall ltac:(lia))
      as (b2 & Hloop & Htrace2 & Hsteps2).
    apply complete_tutorial_ok in Hloop.
    destruct (run_round_answer (S (length (tutorial_steps b)) + fuel)
                attempts true b b2 Hready ltac:(lia) Hkeep Hloop)
      as (b3 & Hround & Htrace3 & Hsteps3 & Hserver3 & Hend3 & Hdone3
          & Hfailed3 & Hsucc3 & _ & Hrun3 & Hpause3 & Hstop3).
    change (S (S n) + rounds)%nat with (S (S n + rounds)).
    rewrite run_loop_unfold, Hrun, Hstop. cbn [andb negb].
    rewrite Hround.
    change (tutorial_steps b1) with (tutorial_steps b) in Htrace2, Hsteps2.
    change (trace b1) with (trace b) in Htrace2.
    rewrite drop_0 in Htrace2.
    destruct (Z.ltb_spec (bot_current_server (world b) - 1)
                (end_server (world b))) as [Hlast | Hmore].
    + assert (n = 0%nat) by lia. subst n.
      exists b3. split; [ reflexivity | ].
      rewrite Htrace3, Htrace2, Hsteps3, Hsteps2, Hdone3, Hfailed3, Hsucc3,
        Hserver3, Hrun3.
      unfold servers_down. cbn [seq map replicate concat negb].
      rewrite !app_nil_r, Z.sub_0_r, Z.min_r by lia.
      repeat split; lia.
    + destruct n as [ | n ]; [ lia | ].
      destruct (IH rounds fuel 0 b3) as
        (b' & Hloop' & Htrace' & Hsteps' & Hdone' & Hfailed' & Hsucc'
         & Hserver' & Hrun').
      * repeat split; assumption.
      * rewrite Hsteps3, Hsteps2. exact Hall.
      * exact Hkeep.
      * rewrite Hserver3, Hend3. lia.
      * rewrite Hsteps3, Hsteps2 in Hloop', Htrace'.
        exists b'. split; [ exact Hloop' | ].
        rewrite Htrace', Htrace3, Htrace2, Hsteps', Hsteps3, Hsteps2, Hdone',
          Hdone3, Hfailed', Hfailed3, Hsucc', Hsucc3, Hserver', Hserver3,
          Hend3, Hrun'.
        rewrite (servers_down_cons _ (S n)).
        cbn [replicate concat].
        rewrite <- !app_assoc. cbn [app].
        rewrite ?app_nil_r, !Z.min_r by lia. repeat split; lia.
Qed.

(** The whole run when the first step of the tutorial never succeeds
    and starts with [n] retries. *)
Lemma run_loop_exhausted : forall (m n : nat) rounds fuel attempts step b,
  ready b ->
  tutorial_steps b !! 0%nat = Some step ->
  retry_count_of step = VInt (Z.of_nat n) ->
  never_succeeds dev (action_type step) ->
  handlers_keep dev own_fields ->
  bot_current_server (world b) = end_server (world b) + Z.of_nat m ->
  exists b',
    run_loop (S m + rounds) (S n + fuel) attempts b = (Ok (Some tt), b')
    /\ trace b'
       = trace b
         ++ concat (replicate n [ExecuteStep (step_id step); Sleep 2000])
         ++ replicate (S m) (ExecuteStep (step_id step))
    /\ failed_servers (world b')
       = failed_servers (world b)
         ++ servers_down (bot_current_server (world b)) (S m)
    /\ completed_servers (world b') = completed_servers (world b)
    /\ failure_count (world b') = failure_count (world b) + Z.of_nat (S m)
    /\ bot_current_server (world b') = end_server (world b) - 1
    /\ running b' = false.
Proof.
  induction m as [ | m IH ];
    intros n rounds fuel attempts step b Hready Hstep Hcount Hfail Hkeep Hm.
  all: pose proof Hready as (Hrun & Hpause & Hstop).
  all: set (b1 := snd (set_current_progress (bot_current_server (world b))
                         (bot_current_season (world b)) b)).
  all: destruct (loop_exhausts_retries_steps (Self Env) dev n fuel 0 step b1
                   Hready Hstep Hcount Hfail)
         as (b2 & step' & Hloop & Htrace2 & Hstep' & Hid & Haction & Hcount'
             & _).
  all: apply complete_tutorial_ok in Hloop.
  all: destruct (run_round_answer (S n + fuel) attempts false b b2 Hready
                   ltac:(lia) Hkeep Hloop)
         as (b3 & Hround & Htrace3 & Hsteps3 & Hserver3 & Hend3 & Hdone3
             & Hfailed3 & _ & Hfail3 & Hrun3 & Hpause3 & Hstop3).
  all: match goal with
       | |- context [run_loop (S ?k + ?r)] =>
           change (S k + r)%nat with (S (k + r))
       end.
  all: rewrite run_loop_unfold, Hrun, Hstop; cbn [andb negb].
  all: rewrite Hround.
  all: change (trace b1) with (trace b) in Htrace2.
  all: destruct (Z.ltb_spec (bot_current_server (world b) - 1)
                   (end_server (world b))) as [Hlast | Hmore]; try lia.
  - exists b3. split; [ reflexivity | ].
    rewrite Htrace3, Htrace2, Hdone3, Hfailed3, Hfail3, Hserver3, Hrun3.
    unfold servers_down. cbn [seq map replicate negb].
    rewrite Z.sub_0_r, ?app_nil_r. repeat split; lia.
  - rewrite <- Haction in Hfail.
    rewrite <- Hsteps3 in Hstep'.
    destruct (IH 0%nat rounds (n + fuel)%nat attempts step' b3)
      as (b' & Hloop' & Htrace' & Hfailed' & Hdone' & Hfail' & Hserver'
          & Hrun'); try assumption.
    + repeat split; assumption.
    + rewrite Hserver3, Hend3. lia.
    + exists b'. split; [ exact Hloop' | ].
      rewrite Htrace', Htrace3, Htrace2, Hfailed', Hfailed3, Hdone', Hdone3,
        Hfail', Hfail3, Hserver', Hserver3, Hend3, Hrun', Hid.
      rewrite (servers_down_cons _ (S m)).
      cbn [replicate concat].
      rewrite <- !app_assoc, ?app_nil_r. cbn [app].
      repeat split; lia.
Qed.

End Run.

Arguments servers_down server n : simpl never.

(** ** A bot to run on *)

(** A device whose handlers all answer [ok] and touch nothing. *)
Definition steady (ok : bool) : Device (Self unit) :=
  {| emu_get_screenshot := fun w => (w, Ok [137; 80; 78; 71]);
     emu_close_app := fun _ w => (w, Ok true);
     emu_start_app := fun _ _ w => (w, Ok true);
     emu_restart_emulator := fun w => (w, Ok true);
     time_sleep := fun _ w => w;
     handler := fun _ => Some (fun _ w => (w, Ok (ok, None))) |}.

Definition bot_on (server last : Z) (steps : list TutorialStep)
  : BotState (Self unit) :=
  {| world :=
       {| env := tt; bot_current_server := server;
          bot_current_season := Season.get_season_for_server server;
          end_server := last;
          success_count := 0; failure_count := 0;
          completed_servers := []; failed_servers := [] |};
     trace := []; tutorial_steps := steps;
     running := true; paused := false; stop_event := false;
     current_step_id := 0; statistics := fresh_statistics |}.

Lemma steady_keeps ok : handlers_keep (steady ok) own_fields.
Proof.
  split; [ reflexivity | ].
  intros action h step w Hh. injection Hh as <-. reflexivity.
Defined.

(** ** The servers of a run *)

(** [_run] works through the servers downwards: when every tutorial
    step succeeds and the handlers leave the bot's own fields alone, it
    completes the tutorial once on each server from [current_server]
    down to [end_server], in this order, records each as a success and
    then clears [running]; when [current_server] is already below
    [end_server] it clears [running] and asks nothing of the device. *)
Theorem run_visits_servers_downwards (Env : Type) (dev : Device (Self Env))
  (rounds fuel : nat) (b : BotState (Self Env)) :
  ready b ->
  all_succeed dev (tutorial_steps b) ->
  handlers_keep dev own_fields ->
  let server := bot_current_server (world b) in
  let n := Z.to_nat (server - end_server (world b) + 1) in
  exists b',
    _run Env dev (S n + rounds) (S (length (tutorial_steps b)) + fuel) b
    = (Ok (Some tt), b')
    /\ completed_servers (world b')
       = completed_servers (world b) ++ servers_down server n
    /\ failed_servers (world b') = failed_servers (world b)
    /\ trace b'
       = trace b
         ++ concat (replicate n
                      (map (fun s => ExecuteStep (step_id s))
                         (tutorial_steps b)))
    /\ bot_current_server (world b') = Z.min server (end_server (world b) - 1)
    /\ running b' = false.
Proof.
  intros Hready Hall Hkeep server n.
  destruct (run_loop_all_succeed Env dev n rounds fuel 0 b Hready Hall Hkeep
              eq_refl)
    as (b' & Hloop & Htrace & _ & Hdone & Hfailed & _ & Hserver & Hrun).
  exists b'. split; [ apply run_ok; exact Hloop | ].
  repeat split; assumption.
Qed.

Lemma run_visits_servers_downwards_witness :
  exists b',
    _run unit (steady true) 4 3 (bot_on 578 576 [wait_step; click_step])
    = (Ok (Some tt), b')
    /\ completed_servers (world b') = [] ++ servers_down 578 3
    /\ failed_servers (world b') = []
    /\ trace b'
       = [] ++ concat (replicate 3 [ExecuteStep 3; ExecuteStep 7])
    /\ bot_current_server (world b') = Z.min 578 (576 - 1)
    /\ running b' = false.
Proof.
  apply (run_visits_servers_downwards unit (steady true) 0 0
           (bot_on 578 576 [wait_step; click_step])).
  - repeat split.
  - repeat constructor;
      (exists (fun _ w => (w, Ok (true, None))); split;
       [ reflexivity | intros st w; reflexivity ]).
  - exact (steady_keeps true).
Defined.

(** A tutorial that fails does not stop the run, and the retry budget
    is never refilled: when the first step never succeeds and starts
    with [n] retries, the first server costs [n + 1] attempts and every
    later server of the range one attempt; all of them are recorded as
    failures. *)
Theorem exhausted_step_fails_every_server (Env : Type)
  (dev : Device (Self Env)) (m n rounds fuel : nat) (step : TutorialStep)
  (b : BotState (Self Env)) :
  ready b ->
  tutorial_steps b !! 0%nat = Some step ->
  retry_count_of step = VInt (Z.of_nat n) ->
  never_succeeds dev (action_type step) ->
  handlers_keep dev own_fields ->
  bot_current_server (world b) = end_server (world b) + Z.of_nat m ->
  exists b',
    _run Env dev (S m + rounds) (S n + fuel) b = (Ok (Some tt), b')
    /\ trace b'
       = trace b
         ++ concat (replicate n [ExecuteStep (step_id step); Sleep 2000])
         ++ replicate (S m) (ExecuteStep (step_id step))
    /\ failed_servers (world b')
       = failed_servers (world b)
         ++ servers_down (bot_current_server (world b)) (S m)
    /\ completed_servers (world b') = completed_servers (world b)
    /\ running b' = false.
Proof.
  intros Hready Hstep Hcount Hfail Hkeep Hm.
  destruct (run_loop_exhausted Env dev m n rounds fuel 0 step b
              Hready Hstep Hcount Hfail Hkeep Hm)
    as (b' & Hloop & Htrace & Hfailed & Hdone & _ & _ & Hrun).
  exists b'. split; [ apply run_ok; exact Hloop | ].
  repeat split; assumption.
Qed.

Lemma exhausted_step_fails_every_server_witness :
  exists b',
    _run unit (steady false) 3 3 (bot_on 578 576 [click_step; wait_step])
    = (Ok (Some tt), b')
    /\ trace b'
       = [] ++ concat (replicate 2 [ExecuteStep 7; Sleep 2000])
            ++ replicate 3 (ExecuteStep 7)
    /\ failed_servers (world b') = [] ++ servers_down 578 3
    /\ completed_servers (world b') = []
    /\ running b' = false.
Proof.
  apply (exhausted_step_fails_every_server unit (steady false) 2 2 0 0
           click_step (bot_on 578 576 [click_step; wait_step])).
  - repeat split.
  - reflexivity.
  - reflexivity.
  - cbn. intros step w. exact I.
  - exact (steady_keeps false).
  - reflexivity.
Defined.

End MainLoop.

(* ===================================================================== *)
(** * Overlap suppression on any number of candidates *)
(* ===================================================================== *)

Module Suppression.

Import Recognition.

(** What two survivors owe each other: the first is no larger, and the
    overlap is at most 0.3 of the second one's area. *)
Definition apart (a b : box) : Prop :=
  area_of (corners a) <= area_of (corners b)
  /\ overlap_exceeds (inter_area (corners a) (corners b))
       (area_of (corners b)) = false.

(** [b] was dropped because of [a]. *)
Definition covered_by (b a : box) : Prop :=
  area_of (corners a) <= area_of (corners b)
  /\ overlap_exceeds (inter_area (corners a) (corners b))
       (area_of (corners b)) = true.

(** ** Lemmas on the greedy selection *)

Lemma filter_sublist {A : Type} (p : A -> bool) l :
  sublist (List.filter p l) l.
Proof.
  induction l as [ | x l IH ]; cbn; [ constructor | ].
  destruct (p x); constructor; exact IH.
Qed.

Lemma greedy_sublist : forall fuel rows, sublist (greedy fuel rows) rows.
Proof.
  induction fuel as [ | fuel IH ]; intros rows; [ apply sublist_nil_l | ].
  destruct rows as [ | c rest ]; cbn; [ constructor | ].
  constructor. etransitivity; [ apply IH | apply filter_sublist ].
Qed.

Lemma map_sublist {A B : Type} (f : A -> B) l1 l2 :
  sublist l1 l2 -> sublist (map f l1) (map f l2).
Proof.
  induction 1; cbn; constructor; assumption.
Qed.

Lemma greedy_kept : forall fuel rows,
  StronglySorted kept_in_order (greedy fuel rows).
Proof.
  induction fuel as [ | fuel IH ]; intros rows; [ constructor | ].
  destruct rows as [ | c rest ]; cbn; [ constructor | ].
  constructor; [ apply IH | ].
  apply greedy_Forall, Forall_filter_pred.
Qed.

Lemma greedy_covers : forall fuel rows d,
  (length rows <= fuel)%nat ->
  StronglySorted by_area rows ->
  In d rows ->
  In d (greedy fuel rows)
  \/ exists c, In c (greedy fuel rows)
               /\ by_area c d /\ suppresses c d = true.
Proof.
  induction fuel as [ | fuel IH ]; intros rows d Hlen Hsorted Hd.
  - destruct rows; [ destruct Hd | cbn in Hlen; lia ].
  - destruct rows as [ | c rest ]; [ destruct Hd | ].
    apply StronglySorted_inv in Hsorted as [Hrest Hc].
    cbn [greedy]. destruct Hd as [-> | Hd]; [ left; left; reflexivity | ].
    destruct (suppresses c d) eqn:Hcd.
    + right. exists c. split; [ left; reflexivity | ].
      split; [ | exact Hcd ].
      rewrite List.Forall_forall in Hc. apply Hc, Hd.
    + destruct (IH (List.filter (keeps c) rest) d) as [Hin | (a & Ha & Hle & Hs)].
      * pose proof (filter_shorter (keeps c) rest). cbn in Hlen. lia.
      * apply StronglySorted_filter, Hrest.
      * apply filter_In. split; [ exact Hd | ].
        unfold keeps. rewrite Hcd. reflexivity.
      * left. right. exact Hin.
      * right. exists a. split; [ right; exact Ha | ]. split; assumption.
Qed.

Lemma StronglySorted_map {A B : Type} (R : B -> B -> Prop) (f : A -> B) l :
  StronglySorted (fun x y => R (f x) (f y)) l ->
  StronglySorted R (map f l).
Proof.
  induction 1 as [ | x l _ IH Hx ]; cbn; constructor; [ exact IH | ].
  apply Forall_map. exact Hx.
Qed.

Lemma map_uncorner_corners boxes :
  Forall sized boxes -> map uncorner (map corners boxes) = boxes.
Proof.
  intros Hsized. rewrite map_map. rewrite <- (map_id boxes) at 2.
  apply map_ext_in. intros b Hb. apply uncorner_corners.
  rewrite List.Forall_forall in Hsized. apply Hsized, Hb.
Qed.

(** The rows the pass works on have small sides. *)
Lemma sorted_rows_fit sort boxes :
  Forall sized boxes ->
  Forall fits
    (map (row (map corners boxes)) (sort (map area_of (map corners boxes)))).
Proof.
  intros Hsized. apply Forall_rows_of. intros i.
  apply fits_row, Forall_fits_corners, Hsized.
Qed.

(** The rows in the order of the sort, for a list that is not empty. *)
Definition sorted_rows (sort : list Z -> list nat) (boxes : list box)
  : list box :=
  map (row (map corners boxes)) (sort (map area_of (map corners boxes))).

Lemma survivors_of_rows sort boxes :
  sorts_by_area sort ->
  non_max_suppression_with sort boxes
  = map uncorner (greedy_all (sorted_rows sort boxes)).
Proof.
  intros Hsort. destruct boxes as [ | b boxes ].
  - unfold sorted_rows. cbn [map non_max_suppression_with].
    destruct (Hsort []) as [Hperm _]. cbn in Hperm.
    apply Permutation_nil_r in Hperm. rewrite Hperm. reflexivity.
  - apply non_max_suppression_with_rows. discriminate.
Qed.

Lemma sorted_rows_spec sort boxes :
  sorts_by_area sort ->
  Permutation (sorted_rows sort boxes) (map corners boxes)
  /\ StronglySorted by_area (sorted_rows sort boxes).
Proof.
  intros Hsort. exact (rows_of_sort sort (map corners boxes) Hsort).
Qed.

(** The selection on sorted rows: by increasing area, no row
    suppressing a later one. *)
Lemma greedy_apart rows :
  StronglySorted by_area rows ->
  StronglySorted (fun c d => by_area c d /\ keeps c d = true)
    (greedy_all rows).
Proof.
  intros Hsorted. apply (StronglySorted_both by_area kept_in_order).
  - intros c d Hle Hkeep. split; assumption.
  - apply greedy_sorted, Hsorted.
  - apply greedy_kept.
Qed.

Lemma survivors_submseteq sort boxes :
  sorts_by_area sort ->
  Forall sized boxes ->
  submseteq (non_max_suppression_with sort boxes) boxes.
Proof.
  intros Hsort Hsized. rewrite (survivors_of_rows sort boxes Hsort).
  destruct (sorted_rows_spec sort boxes Hsort) as [Hperm _].
  set (rows := sorted_rows sort boxes) in *.
  assert (Hboxes : Permutation (map uncorner rows) boxes).
  { rewrite (Permutation_map uncorner Hperm).
    rewrite map_uncorner_corners by exact Hsized. reflexivity. }
  rewrite <- Hboxes.
  apply sublist_submseteq, map_sublist, greedy_sublist.
Qed.

Lemma rows_cover sort boxes b :
  sorts_by_area sort ->
  In b boxes ->
  In (corners b) (greedy_all (sorted_rows sort boxes))
  \/ exists c, In c (greedy_all (sorted_rows sort boxes))
               /\ by_area c (corners b) /\ suppresses c (corners b) = true.
Proof.
  intros Hsort Hb.
  destruct (sorted_rows_spec sort boxes Hsort) as [Hperm Hsorted].
  apply greedy_covers; [ lia | exact Hsorted | ].
  eapply Permutation_in; [ symmetry; exact Hperm | ].
  apply in_map, Hb.
Qed.

(** A survivor is the candidate of its row. *)
Lemma survivor_row sort boxes c :
  Forall sized boxes ->
  In c (greedy_all (sorted_rows sort boxes)) ->
  corners (uncorner c) = c.
Proof.
  intros Hsized Hc. apply corners_uncorner.
  pose proof (greedy_Forall fits (length (sorted_rows sort boxes)) _
                (sorted_rows_fit sort boxes Hsized)) as Hfit.
  rewrite List.Forall_forall in Hfit. apply Hfit, Hc.
Qed.

Lemma StronglySorted_impl_In {A : Type} (R R' : A -> A -> Prop) l :
  (forall a b, In a l -> In b l -> R a b -> R' a b) ->
  StronglySorted R l -> StronglySorted R' l.
Proof.
  intros Himpl Hs. induction Hs as [ | x l Hs IH Hx ]; [ constructor | ].
  constructor.
  - apply IH. intros a b Ha Hb. apply Himpl; right; assumption.
  - rewrite List.Forall_forall in Hx. apply List.Forall_forall.
    intros y Hy. apply Himpl; [ left; reflexivity | right; exact Hy | ].
    apply Hx, Hy.
Qed.

(** The survivors, as rows: by increasing area, none suppressing a
    later one. *)
Lemma survivors_apart sort boxes :
  sorts_by_area sort ->
  Forall sized boxes ->
  StronglySorted apart (non_max_suppression_with sort boxes).
Proof.
  intros Hsort Hsized. rewrite (survivors_of_rows sort boxes Hsort).
  destruct (sorted_rows_spec sort boxes Hsort) as [_ Hsorted].
  apply StronglySorted_map.
  eapply StronglySorted_impl_In; [ | exact (greedy_apart _ Hsorted) ].
  intros c d Hc Hd [Hle Hkeep]. unfold apart.
  rewrite (survivor_row sort boxes c Hsized Hc),
    (survivor_row sort boxes d Hsized Hd).
  split; [ exact Hle | ].
  unfold keeps, suppresses in Hkeep.
  apply negb_true_iff in Hkeep. exact Hkeep.
Qed.

Lemma dropped_is_covered sort boxes b :
  sorts_by_area sort ->
  Forall sized boxes ->
  In b boxes ->
  In b (non_max_suppression_with sort boxes)
  \/ exists a, In a (non_max_suppression_with sort boxes) /\ covered_by b a.
Proof.
  intros Hsort Hsized Hb. rewrite (survivors_of_rows sort boxes Hsort).
  assert (Hbs : sized b).
  { rewrite List.Forall_forall in Hsized. apply Hsized, Hb. }
  destruct (rows_cover sort boxes b Hsort Hb) as [Hin | (c & Hc & Hle & Hcover)].
  - left. rewrite <- (uncorner_corners b Hbs). apply in_map. exact Hin.
  - right. exists (uncorner c). split; [ apply in_map; exact Hc | ].
    unfold covered_by. rewrite (survivor_row sort boxes c Hsized Hc).
    split; assumption.
Qed.

(** ** The survivors

    The candidates are those of a screen, with places and sizes of at
    most [2 ^ 24] in absolute value: their areas are the numbers of
    their pixels, [(w + 1) * (h + 1)], and the overlaps the numbers of
    the pixels they share (see [area_of_sized] and
    [inter_area_in_range]). *)

(** Whatever the number of candidates and the order [np.argsort] gives
    to equal areas: the pass returns candidates only, none more often
    than it was given; it returns at least one when there is one; and
    the first it returns has the least area of all candidates. *)
Theorem survivors_are_candidates (sort : list Z -> list nat)
  (boxes : list box) :
  sorts_by_area sort ->
  Forall in_range boxes ->
  submseteq (non_max_suppression_with sort boxes) boxes
  /\ (boxes <> [] -> non_max_suppression_with sort boxes <> [])
  /\ (forall a,
        head (non_max_suppression_with sort boxes) = Some a ->
        Forall (fun b => area_of (corners a) <= area_of (corners b)) boxes)
  /\ Forall (fun b => area_of (corners b) = (b.1.2 + 1) * (b.2 + 1)) boxes.
Proof.
  intros Hsort Hrange.
  pose proof (Forall_in_range_sized boxes Hrange) as Hsized.
  split; [ apply survivors_submseteq; assumption | ].
  split; [ | split ].
  - rewrite (survivors_of_rows sort boxes Hsort).
    destruct (sorted_rows_spec sort boxes Hsort) as [Hperm _].
    set (rows := sorted_rows sort boxes) in *.
    intros Hne Hempty.
    destruct rows as [ | c rest ].
    + apply Permutation_nil_l in Hperm.
      destruct boxes; [ congruence | discriminate Hperm ].
    + rewrite greedy_all_cons in Hempty. discriminate Hempty.
  - rewrite (survivors_of_rows sort boxes Hsort).
    pose proof (survivor_row sort boxes) as Hrow.
    destruct (sorted_rows_spec sort boxes Hsort) as [Hperm Hsorted].
    set (rows := sorted_rows sort boxes) in *.
    intros a Ha.
    destruct rows as [ | c rest ]; [ discriminate Ha | ].
    rewrite greedy_all_cons in Ha, Hrow. cbn in Ha. injection Ha as <-.
    rewrite (Hrow c Hsized) by (left; reflexivity).
    apply StronglySorted_inv in Hsorted as [_ Hc].
    assert (Hall : Forall (fun d => area_of c <= area_of d) (c :: rest)).
    { constructor; [ lia | exact Hc ]. }
    rewrite Hperm in Hall. rewrite List.Forall_forall in Hall.
    apply List.Forall_forall. intros b Hb. apply Hall, in_map, Hb.
  - eapply List.Forall_impl; [ | exact Hsized ].
    intros [[[x y] w] h] Hb. apply area_of_sized, Hb.
Qed.

Definition three_candidates : list box :=
  [(0, 0, 99, 99); (0, 0, 9, 9); (0, 0, 10, 10)].

Lemma survivors_are_candidates_witness :
  submseteq (_non_max_suppression three_candidates) three_candidates
  /\ (three_candidates <> [] -> _non_max_suppression three_candidates <> [])
  /\ (forall a,
        head (_non_max_suppression three_candidates) = Some a ->
        Forall (fun b => area_of (corners a) <= area_of (corners b))
          three_candidates)
  /\ Forall (fun b => area_of (corners b) = (b.1.2 + 1) * (b.2 + 1))
       three_candidates.
Proof.
  apply (survivors_are_candidates argsort three_candidates).
  - exact argsort_sorts_by_area.
  - repeat constructor; unfold coordinate_limit; lia.
Defined.

(** The survivors come by increasing area, and no survivor overlaps a
    later one by more than 0.3 of the later one's area. *)
Theorem survivors_keep_apart (sort : list Z -> list nat) (boxes : list box) :
  sorts_by_area sort ->
  Forall in_range boxes ->
  StronglySorted
    (fun a b =>
       apart a b
       /\ (a.1.2 + 1) * (a.2 + 1) <= (b.1.2 + 1) * (b.2 + 1)
       /\ overlap_exceeds (shared_pixels a b) ((b.1.2 + 1) * (b.2 + 1))
          = false)
    (non_max_suppression_with sort boxes).
Proof.
  intros Hsort Hrange.
  pose proof (Forall_in_range_sized boxes Hrange) as Hsized.
  assert (Hin : forall a,
             In a (non_max_suppression_with sort boxes) -> in_range a).
  { intros a Ha. rewrite List.Forall_forall in Hrange. apply Hrange.
    apply list_elem_of_In. apply list_elem_of_In in Ha.
    exact (elem_of_submseteq _ _ _ Ha
             (survivors_submseteq sort boxes Hsort Hsized)). }
  eapply StronglySorted_impl_In;
    [ | exact (survivors_apart sort boxes Hsort Hsized) ].
  intros a b Ha Hb Hapart. split; [ exact Hapart | ].
  destruct Hapart as [Hle Hkeep].
  apply Hin in Ha, Hb.
  rewrite (inter_area_in_range a b Ha Hb) in Hkeep.
  destruct a as [[[ax ay] aw] ah], b as [[[bx by_] bw] bh].
  rewrite (area_of_sized ax ay aw ah) in Hle
    by exact (in_range_sized _ Ha).
  rewrite (area_of_sized bx by_ bw bh) in Hle, Hkeep
    by exact (in_range_sized _ Hb).
  split; assumption.
Qed.

Lemma survivors_keep_apart_witness :
  StronglySorted
    (fun a b =>
       apart a b
       /\ (a.1.2 + 1) * (a.2 + 1) <= (b.1.2 + 1) * (b.2 + 1)
       /\ overlap_exceeds (shared_pixels a b) ((b.1.2 + 1) * (b.2 + 1))
          = false)
    (_non_max_suppression three_candidates).
Proof.
  apply (survivors_keep_apart argsort three_candidates).
  - exact argsort_sorts_by_area.
  - repeat constructor; unfold coordinate_limit; lia.
Defined.

(** Nothing is dropped without a reason: a candidate that is not
    returned is overlapped, by more than 0.3 of its own area, by a
    survivor that is no larger than it. *)
Theorem dropped_candidate_is_covered (sort : list Z -> list nat)
  (boxes : list box) (b : box) :
  sorts_by_area sort ->
  Forall in_range boxes ->
  In b boxes ->
  In b (non_max_suppression_with sort boxes)
  \/ exists a,
       In a (non_max_suppression_with sort boxes)
       /\ covered_by b a
       /\ (a.1.2 + 1) * (a.2 + 1) <= (b.1.2 + 1) * (b.2 + 1)
       /\ overlap_exceeds (shared_pixels a b) ((b.1.2 + 1) * (b.2 + 1))
          = true.
Proof.
  intros Hsort Hrange Hb.
  pose proof (Forall_in_range_sized boxes Hrange) as Hsized.
  destruct (dropped_is_covered sort boxes b Hsort Hsized Hb)
    as [Hkept | (a & Ha & Hcover)]; [ left; exact Hkept | ].
  right. exists a. split; [ exact Ha | ]. split; [ exact Hcover | ].
  assert (Har : in_range a).
  { rewrite List.Forall_forall in Hrange. apply Hrange.
    apply list_elem_of_In. apply list_elem_of_In in Ha.
    exact (elem_of_submseteq _ _ _ Ha
             (survivors_submseteq sort boxes Hsort Hsized)). }
  assert (Hbr : in_range b).
  { rewrite List.Forall_forall in Hrange. apply Hrange, Hb. }
  destruct Hcover as [Hle Hover].
  rewrite (inter_area_in_range a b Har Hbr) in Hover.
  destruct a as [[[ax ay] aw] ah], b as [[[bx by_] bw] bh].
  rewrite (area_of_sized ax ay aw ah) in Hle
    by exact (in_range_sized _ Har).
  rewrite (area_of_sized bx by_ bw bh) in Hle, Hover
    by exact (in_range_sized _ Hbr).
  split; assumption.
Qed.

Lemma dropped_candidate_is_covered_witness :
  In (0, 0, 10, 10) (_non_max_suppression three_candidates)
  \/ exists a,
       In a (_non_max_suppression three_candidates)
       /\ covered_by (0, 0, 10, 10) a
       /\ (a.1.2 + 1) * (a.2 + 1) <= (10 + 1) * (10 + 1)
       /\ overlap_exceeds (shared_pixels a (0, 0, 10, 10))
            ((10 + 1) * (10 + 1)) = true.
Proof.
  apply (dropped_candidate_is_covered argsort three_candidates (0, 0, 10, 10)).
  - exact argsort_sorts_by_area.
  - repeat constructor; unfold coordinate_limit; lia.
  - cbn. tauto.
Defined.

End Suppression.

(* ===================================================================== *)
(** * Template matching: all places of a template *)
(* ===================================================================== *)

Module Templates.

Import Recognition Suppression.

(** [np.where(result >= threshold)] read as [(x, y)] pairs, in the
    order numpy lists them: row by row, left to right.  [matrix] holds
    the rows of the score matrix that [cv2.matchTemplate] returns. *)
Fixpoint row_hits (threshold : Q) (y x : Z) (scores : list Q) : list (Z * Z) :=
  match scores with
  | [] => []
  | score :: rest =>
      (if Qle_bool threshold score then [(x, y)] else [])
      ++ row_hits threshold y (x + 1) rest
  end.

Fixpoint rows_hits (threshold : Q) (y : Z) (matrix : list (list Q))
  : list (Z * Z) :=
  match matrix with
  | [] => []
  | scores :: rest =>
      row_hits threshold y 0 scores ++ rows_hits threshold (y + 1) rest
  end.

Definition where_ge (matrix : list (list Q)) (threshold : Q)
  : list (Z * Z) :=
  rows_hits threshold 0 matrix.

(** The score at column [x] of line [y]. *)
Definition score_at (matrix : list (list Q)) (x y : Z) : option Q :=
  if (x <? 0) || (y <? 0) then None
  else scores ← matrix !! Z.to_nat y; scores !! Z.to_nat x.

Section Matching.

Variable Image : Type.
Variable Template : Type.
(** [self.template_cache] and [self.threshold]. *)
Variable template_cache : gmap string Template.
Variable threshold : Q.
(** [(template.shape[0], template.shape[1])]: height, width. *)
Variable shape : Template -> Z * Z.
(** [cv2.matchTemplate(screenshot, template, cv2.TM_CCOEFF_NORMED)]. *)
Variable matchTemplate : Image -> Template -> result (list (list Q)).
(** The order [np.argsort] gives inside [_non_max_suppression]. *)
Variable sort : list Z -> list nat.

(** [find_all_templates(screenshot, template_name, threshold)]. *)
Definition find_all_templates (screenshot : Image) (template_name : string)
  (threshold_arg : option Q) : list box :=
  match template_cache !! template_name with
  | None => []
  | Some template =>
      let local_threshold := default threshold threshold_arg in
      match matchTemplate screenshot template with
      | Raise _ => []
      | Ok matrix =>
          let locations := where_ge matrix local_threshold in
          let '(h, w) := shape template in
          match locations with
          | [] => []
          | _ :: _ =>
              non_max_suppression_with sort
                (map (fun pt => (pt.1, pt.2, w, h)) locations)
          end
      end
  end.

End Matching.

(** ** Lemmas *)

Lemma row_hits_spec threshold y : forall scores x0 x y',
  In (x, y') (row_hits threshold y x0 scores)
  <-> y' = y /\ x0 <= x
      /\ exists score,
           scores !! Z.to_nat (x - x0) = Some score
           /\ Qle_bool threshold score = true.
Proof.
  induction scores as [ | score rest IH ]; intros x0 x y'.
  - cbn. split; [ tauto | ]. intros (_ & _ & v & Hv & _). discriminate Hv.
  - cbn [row_hits]. rewrite in_app_iff, IH. split.
    + intros [Hhere | (-> & Hx & v & Hv & Hge)].
      * destruct (Qle_bool threshold score) eqn:Hscore; [ | destruct Hhere ].
        cbn in Hhere. destruct Hhere as [Heq | []]. injection Heq as <- <-.
        split; [ reflexivity | ]. split; [ lia | ].
        exists score. rewrite Z.sub_diag. split; [ reflexivity | exact Hscore ].
      * split; [ reflexivity | ]. split; [ lia | ].
        exists v. split; [ | exact Hge ].
        replace (Z.to_nat (x - x0)) with (S (Z.to_nat (x - (x0 + 1)))) by lia.
        exact Hv.
    + intros (-> & Hx & v & Hv & Hge).
      destruct (Z.eq_dec x x0) as [-> | Hne].
      * left. rewrite Z.sub_diag in Hv. cbn in Hv. injection Hv as ->.
        rewrite Hge. left. reflexivity.
      * right. split; [ reflexivity | ]. split; [ lia | ].
        exists v. split; [ | exact Hge ].
        replace (Z.to_nat (x - x0)) with (S (Z.to_nat (x - (x0 + 1))))
          in Hv by lia.
        exact Hv.
Qed.

Lemma rows_hits_spec threshold : forall matrix y0 x y,
  In (x, y) (rows_hits threshold y0 matrix)
  <-> y0 <= y /\ 0 <= x
      /\ exists scores score,
           matrix !! Z.to_nat (y - y0) = Some scores
           /\ scores !! Z.to_nat x = Some score
           /\ Qle_bool threshold score = true.
Proof.
  induction matrix as [ | scores rest IH ]; intros y0 x y.
  - cbn. split; [ tauto | ]. intros (_ & _ & r & v & Hr & _). discriminate Hr.
  - cbn [rows_hits]. rewrite in_app_iff, row_hits_spec, IH. split.
    + intros [(-> & Hx & v & Hv & Hge) | (Hy & Hx & r & v & Hr & Hv & Hge)].
      * split; [ lia | ]. split; [ exact Hx | ].
        exists scores, v. rewrite Z.sub_diag, Z.sub_0_r in *.
        repeat split; assumption.
      * split; [ lia | ]. split; [ exact Hx | ].
        exists r, v.
        replace (Z.to_nat (y - y0)) with (S (Z.to_nat (y - (y0 + 1)))) by lia.
        repeat split; assumption.
    + intros (Hy & Hx & r & v & Hr & Hv & Hge).
      destruct (Z.eq_dec y y0) as [-> | Hne].
      * left. rewrite Z.sub_diag in Hr. cbn in Hr. injection Hr as ->.
        split; [ reflexivity | ]. split; [ exact Hx | ].
        exists v. rewrite Z.sub_0_r. split; assumption.
      * right. split; [ lia | ]. split; [ exact Hx | ].
        exists r, v.
        replace (Z.to_nat (y - y0)) with (S (Z.to_nat (y - (y0 + 1))))
          in Hr by lia.
        repeat split; assumption.
Qed.

(** A place is listed exactly when its score reaches the threshold. *)
Lemma where_ge_spec matrix threshold x y :
  In (x, y) (where_ge matrix threshold)
  <-> exists score,
        score_at matrix x y = Some score
        /\ Qle_bool threshold score = true.
Proof.
  unfold where_ge, score_at. rewrite rows_hits_spec, Z.sub_0_r. split.
  - intros (Hy & Hx & r & v & Hr & Hv & Hge).
    destruct (Z.ltb_spec x 0); [ lia | ].
    destruct (Z.ltb_spec y 0); [ lia | ].
    cbn [orb]. rewrite Hr. cbn. exists v. split; assumption.
  - intros (v & Hv & Hge).
    destruct (Z.ltb_spec x 0); [ discriminate Hv | ].
    destruct (Z.ltb_spec y 0); [ discriminate Hv | ].
    cbn [orb] in Hv.
    destruct (matrix !! Z.to_nat y) as [r | ] eqn:Hr; [ | discriminate Hv ].
    cbn in Hv. split; [ lia | ]. split; [ lia | ].
    exists r, v. repeat split; assumption.
Qed.

(** The candidates of a template all have its size. *)
Lemma candidates_sized (w h : Z) (locations : list (Z * Z)) :
  small w -> small h ->
  Forall sized (map (fun pt : Z * Z => (pt.1, pt.2, w, h)) locations).
Proof.
  intros Hw Hh. apply Forall_map. apply List.Forall_forall.
  intros pt _. split; assumption.
Qed.

(** ** What [find_all_templates] returns *)

(** [find_all_templates], for a template whose sides are numbers of a
    screen (at most [2 ^ 24]), returns rectangles of the template's size only, each at a
    place whose score reaches the threshold (the argument, or the one of
    the object when none is given); no two of them overlap by more than
    0.3 of the template's area, counted with both corner pixels; and
    every place whose score reaches the threshold is returned or is
    overlapped to that extent by one that is. *)
Theorem matches_are_hits_kept_apart (Image Template : Type)
  (template_cache : gmap string Template) (threshold : Q)
  (shape : Template -> Z * Z)
  (matchTemplate : Image -> Template -> result (list (list Q)))
  (sort : list Z -> list nat)
  (screenshot : Image) (template_name : string) (threshold_arg : option Q)
  (template : Template) (matrix : list (list Q)) (h w : Z) :
  sorts_by_area sort ->
  template_cache !! template_name = Some template ->
  matchTemplate screenshot template = Ok matrix ->
  shape template = (h, w) ->
  small w -> small h ->
  let found :=
    find_all_templates Image Template template_cache threshold shape
      matchTemplate sort screenshot template_name threshold_arg in
  let local_threshold := default threshold threshold_arg in
  let overlapping (a b : box) :=
    overlap_exceeds (inter_area (corners a) (corners b))
      ((w + 1) * (h + 1)) in
  (forall m,
      In m found ->
      exists x y score,
        m = (x, y, w, h)
        /\ score_at matrix x y = Some score
        /\ Qle_bool local_threshold score = true)
  /\ StronglySorted (fun a b => overlapping a b = false) found
  /\ (forall x y score,
        score_at matrix x y = Some score ->
        Qle_bool local_threshold score = true ->
        In (x, y, w, h) found
        \/ exists a, In a found /\ overlapping a (x, y, w, h) = true).
Proof.
  intros Hsort Hcache Hmatch Hshape Hw Hh found local_threshold overlapping.
  set (candidates := map (fun pt : Z * Z => (pt.1, pt.2, w, h))
                       (where_ge matrix local_threshold)).
  assert (Hsized : Forall sized candidates)
    by exact (candidates_sized w h _ Hw Hh).
  assert (Hfound : found = non_max_suppression_with sort candidates).
  { unfold found, find_all_templates.
    rewrite Hcache, Hmatch, Hshape. fold local_threshold.
    unfold candidates.
    destruct (where_ge matrix local_threshold); reflexivity. }
  assert (Hcandidate : forall m,
             In m candidates <->
             exists x y score,
               m = (x, y, w, h)
               /\ score_at matrix x y = Some score
               /\ Qle_bool local_threshold score = true).
  { intros m. unfold candidates. rewrite in_map_iff. split.
    - intros ([x y] & <- & Hin).
      apply where_ge_spec in Hin as (score & Hscore & Hge).
      exists x, y, score. repeat split; assumption.
    - intros (x & y & score & -> & Hscore & Hge).
      exists (x, y). split; [ reflexivity | ].
      apply where_ge_spec. exists score. split; assumption. }
  assert (Hsub : forall m, In m found -> In m candidates).
  { intros m Hm. rewrite Hfound in Hm.
    pose proof (survivors_submseteq sort candidates Hsort Hsized) as Hsubm.
    apply list_elem_of_In. apply list_elem_of_In in Hm.
    exact (elem_of_submseteq _ _ _ Hm Hsubm). }
  split; [ | split ].
  - intros m Hm. apply Hcandidate, Hsub, Hm.
  - apply (StronglySorted_impl_In apart).
    + intros a b _ Hb [_ Hkeep].
      apply Hsub, Hcandidate in Hb as (x & y & score & -> & _).
      unfold overlapping.
      rewrite <- (area_of_sized x y w h) by (split; assumption).
      exact Hkeep.
    + rewrite Hfound. apply survivors_apart; assumption.
  - intros x y score Hscore Hge.
    assert (Hin : In (x, y, w, h) candidates).
    { apply Hcandidate. exists x, y, score. repeat split; assumption. }
    rewrite Hfound.
    destruct (dropped_is_covered sort candidates (x, y, w, h) Hsort Hsized Hin)
      as [Hkept | (a & Ha & _ & Hcover)]; [ left; exact Hkept | ].
    right. exists a. split; [ exact Ha | ].
    unfold overlapping.
    rewrite <- (area_of_sized x y w h) by (split; assumption).
    exact Hcover.
Qed.

(** A score matrix with three neighbouring hits and one far away, for a
    template 20 wide and 10 high. *)
Definition scores : list (list Q) :=
  [ [ 9 # 10; 85 # 100; 1 # 10; 1 # 10; 95 # 100 ];
    [ 9 # 10; 2 # 10; 1 # 10; 1 # 10; 1 # 10 ] ].

Lemma matches_are_hits_kept_apart_witness :
  let found :=
    find_all_templates unit unit {[ "skip" := tt ]} (8 # 10)
      (fun _ => (10, 20)) (fun _ _ => Ok scores) argsort tt "skip" None in
  let overlapping (a b : box) :=
    overlap_exceeds (inter_area (corners a) (corners b))
      ((20 + 1) * (10 + 1)) in
  (forall m,
      In m found ->
      exists x y score,
        m = (x, y, 20, 10)
        /\ score_at scores x y = Some score
        /\ Qle_bool (8 # 10) score = true)
  /\ StronglySorted (fun a b => overlapping a b = false) found
  /\ (forall x y score,
        score_at scores x y = Some score ->
        Qle_bool (8 # 10) score = true ->
        In (x, y, 20, 10) found
        \/ exists a, In a found /\ overlapping a (x, y, 20, 10) = true).
Proof.
  apply (matches_are_hits_kept_apart unit unit {[ "skip" := tt ]} (8 # 10)
           (fun _ => (10, 20)) (fun _ _ => Ok scores) argsort tt "skip"
           None tt scores 10 20).
  - exact argsort_sorts_by_area.
  - reflexivity.
  - reflexivity.
  - reflexivity.
  - unfold small, coordinate_limit. lia.
  - unfold small, coordinate_limit. lia.
Defined.

End Templates.

(* ===================================================================== *)
(** * The pacing of the emulator facade *)
(* ===================================================================== *)

Module Pacing.

Import Emulator.

Section Paced.

Variable World : Type.
Variable time_now : World -> Z.
Variable time_sleep : Z -> World -> World.
Variable adb_swipe : Z -> Z -> Z -> Z -> Z -> World -> World * bool.

(** [Emulator.swipe]. *)
Definition swipe (start_x start_y end_x end_y duration_ms : Z)
  (e : Facade World) : bool * Facade World :=
  let e := wait_for_interval World time_now time_sleep e in
  let '(success, e) :=
    swipe_leg World adb_swipe (start_x, start_y) (end_x, end_y)
      duration_ms e in
  (success, touch World time_now e).

(** [time.sleep] sleeps at least as long as it is asked to. *)
Definition sleeps_long_enough : Prop :=
  forall ms w, 0 <= ms -> time_now w + ms <= time_now (time_sleep ms w).

Lemma wait_for_interval_cases e :
  let gap := time_now (world e) - last_action_time e in
  wait_for_interval World time_now time_sleep e
  = if gap <? min_action_interval
    then sleep World time_sleep (min_action_interval - gap) e
    else e.
Proof. reflexivity. Qed.

Lemma wait_for_interval_late e :
  sleeps_long_enough ->
  last_action_time e + min_action_interval
  <= time_now (world (wait_for_interval World time_now time_sleep e)).
Proof.
  intros Hsleep. unfold wait_for_interval.
  destruct (Z.ltb_spec (time_now (world e) - last_action_time e)
              min_action_interval) as [Hearly | Hlate].
  - cbn [sleep world].
    pose proof (Hsleep (min_action_interval
                        - (time_now (world e) - last_action_time e))
                  (world e) ltac:(lia)).
    lia.
  - lia.
Qed.

End Paced.

Arguments sleeps_long_enough {World} time_now time_sleep.

(** ** Pacing *)

(** [wait_for_interval] sleeps exactly the time missing to 1.5 s since
    the last action, and nothing when 1.5 s have passed; when
    [time.sleep] sleeps at least as long as it is asked to, the clock
    after it is at least 1.5 s past the last action.  The facade's own
    fields are not changed. *)
Theorem wait_for_interval_paces (World : Type)
  (time_now : World -> Z) (time_sleep : Z -> World -> World)
  (e : Facade World) :
  sleeps_long_enough time_now time_sleep ->
  let gap := time_now (world e) - last_action_time e in
  let e' := wait_for_interval World time_now time_sleep e in
  last_action_time e + min_action_interval <= time_now (world e')
  /\ last_action_time e' = last_action_time e
  /\ trace e'
     = trace e ++ (if gap <? min_action_interval
                   then [Sleep (min_action_interval - gap)] else []).
Proof.
  intros Hsleep gap e'. split; [ | split ].
  - apply wait_for_interval_late, Hsleep.
  - unfold e', wait_for_interval. destruct (_ <? _); reflexivity.
  - unfold e', wait_for_interval. fold gap.
    destruct (gap <? min_action_interval); cbn [sleep trace];
      [ reflexivity | rewrite app_nil_r; reflexivity ].
Qed.

Lemma wait_for_interval_paces_witness :
  let e := {| world := 400; last_action_time := 100; trace := [] |} in
  let e' := wait_for_interval Z id Z.add e in
  100 + min_action_interval <= world e'
  /\ last_action_time e' = 100
  /\ trace e' = [] ++ (if 400 - 100 <? min_action_interval
                       then [Sleep (min_action_interval - (400 - 100))]
                       else []).
Proof.
  apply (wait_for_interval_paces Z id Z.add
           {| world := 400; last_action_time := 100; trace := [] |}).
  intros ms w Hms. unfold id. lia.
Defined.

(** [swipe] paces, asks the device for one swipe, returns the device's
    flag and stamps the time; so the next action of the facade is held
    back until 1.5 s after the swipe has returned. *)
Theorem swipe_is_paced (World : Type)
  (time_now : World -> Z) (time_sleep : Z -> World -> World)
  (adb_swipe : Z -> Z -> Z -> Z -> Z -> World -> World * bool)
  (start_x start_y end_x end_y duration_ms : Z) (e : Facade World) :
  sleeps_long_enough time_now time_sleep ->
  let paced := wait_for_interval World time_now time_sleep e in
  let answer := adb_swipe start_x start_y end_x end_y duration_ms
                  (world paced) in
  let '(success, e') :=
    swipe World time_now time_sleep adb_swipe
      start_x start_y end_x end_y duration_ms e in
  success = snd answer
  /\ world e' = fst answer
  /\ trace e'
     = trace paced ++ [AdbSwipe start_x start_y end_x end_y duration_ms]
  /\ last_action_time e' = time_now (world e')
  /\ time_now (world e') + min_action_interval
     <= time_now (world (wait_for_interval World time_now time_sleep e')).
Proof.
  intros Hsleep paced answer. unfold swipe, swipe_leg. fold paced.
  cbn [fst snd]. fold answer. destruct answer as [w ok].
  cbn [touch world trace last_action_time fst snd].
  repeat split.
  match goal with
  | |- _ <= time_now (world (wait_for_interval _ _ _ ?e1)) =>
      pose proof (wait_for_interval_late World time_now time_sleep e1 Hsleep)
        as Hlate
  end.
  exact Hlate.
Qed.

Lemma swipe_is_paced_witness :
  let '(success, e') :=
    swipe Z id Z.add clock_swipe 100 200 300 200 500 idle_facade in
  success = true
  /\ world e' = 2000
  /\ trace e' = [Sleep 1500; AdbSwipe 100 200 300 200 500]
  /\ last_action_time e' = 2000
  /\ 2000 + min_action_interval
     <= world (wait_for_interval Z id Z.add e').
Proof.
  apply (swipe_is_paced Z id Z.add clock_swipe 100 200 300 200 500
           idle_facade).
  intros ms w Hms. unfold id. lia.
Defined.

End Pacing.

(* ===================================================================== *)
(** * Bot settings: partial files, [from_dict] and [reset_to_defaults] *)
(* ===================================================================== *)

Module SettingsReset.

Import Settings.

(** The file name [reset_to_defaults] builds its scratch instance on. *)
Definition temp_config : string := "_temp_config.json".

(** ** Lemmas on the instance dictionary *)

Lemma store_items_notin items key : forall self,
  ~ In key (map fst items) ->
  store_items items self !! key = self !! key.
Proof.
  unfold store_items.
  induction items as [ | [k v] rest IH ]; intros self Hnot; [ reflexivity | ].
  cbn [foldl fst snd]. cbn [map fst In] in Hnot.
  rewrite IH by tauto. apply lookup_insert_ne. tauto.
Qed.

Lemma store_items_in items key value : forall self,
  NoDup (map fst items) ->
  In (key, value) items ->
  store_items items self !! key = Some value.
Proof.
  induction items as [ | [k v] rest IH ]; intros self Hnodup Hin;
    [ destruct Hin | ].
  cbn [map fst] in Hnodup. apply NoDup_cons in Hnodup as [Hk Hrest].
  change (store_items ((k, v) :: rest) self)
    with (store_items rest (<[k := v]> self)).
  destruct Hin as [Heq | Hin].
  - injection Heq as -> ->.
    rewrite store_items_notin by (rewrite <- list_elem_of_In; exact Hk).
    apply lookup_insert_eq.
  - apply IH; assumption.
Qed.

Lemma to_dict_total (self : gmap string json) :
  Forall (fun key => is_Some (self !! key)) settings_keys ->
  exists settings, to_dict self = Some settings.
Proof.
  intros H. rewrite List.Forall_forall in H.
  unfold to_dict, settings_keys. cbn.
  repeat match goal with
    | |- context [self !! ?k] =>
        let E := fresh "E" in
        destruct (H k ltac:(cbn; tauto)) as [? E]; rewrite E; clear E; cbn
    end.
  eauto.
Qed.

Lemma to_dict_keys self settings :
  to_dict self = Some settings ->
  Forall (fun kv => In kv.1 settings_keys) settings.
Proof.
  intros Hd. destruct (to_dict_inv self settings Hd) as [Hkeys _].
  apply List.Forall_forall. intros kv Hin. rewrite <- Hkeys.
  apply in_map, Hin.
Qed.

Lemma to_dict_lookup self settings key :
  to_dict self = Some settings ->
  In key settings_keys ->
  exists value, In (key, value) settings /\ self !! key = Some value.
Proof.
  intros Hd Hkey. destruct (to_dict_inv self settings Hd) as [Hkeys Hvals].
  rewrite <- Hkeys in Hkey. apply in_map_iff in Hkey as ([k v] & <- & Hin).
  exists v. split; [ exact Hin | ].
  rewrite List.Forall_forall in Hvals. exact (Hvals _ Hin).
Qed.

Lemma settings_keys_NoDup : NoDup settings_keys.
Proof.
  unfold settings_keys.
  repeat (apply NoDup_cons; split;
          [ rewrite list_elem_of_In; cbn; intuition discriminate | ]).
  apply NoDup_nil. exact I.
Qed.

Section Runtime.

Variable default_assets_path : string.
Variable object_attr : string -> bool.
Variable setattr_object :
  string -> json -> gmap string json -> option (gmap string json).
(** Whether the OS lets the process remove the path. *)
Variable removable : string -> bool.

Hypothesis object_attr_dunder :
  forall name, object_attr name = true -> is_dunder name = true.

(** [from_dict]: the loop of [_load_settings] with no [try] around it;
    the flag tells whether [setattr] raised. *)
Definition from_dict (self : gmap string json)
  (settings_dict : list (string * json)) : gmap string json * bool :=
  apply_items object_attr setattr_object settings_dict self.

(** The loop of [reset_to_defaults]: [for key, value in ...items(): if
    key != 'config_path': setattr(self, key, value)]. *)
Fixpoint copy_items (items : list (string * json))
  (self : gmap string json) : gmap string json * bool :=
  match items with
  | [] => (self, false)
  | (key, value) :: rest =>
      if negb (String.eqb key "config_path") then
        match setattr object_attr setattr_object self key value with
        | Some self' => copy_items rest self'
        | None => (self, true)
        end
      else copy_items rest self
  end.

(** [reset_to_defaults]: the outcome, the instance and the file system
    after the call.  The scratch instance is [BotSettings(
    "_temp_config.json")], which loads that file when there is one;
    calling its [to_dict] raises when the file has put a value under
    that name or has taken a field away. *)
Definition reset_to_defaults (self : gmap string json)
  (fs : gmap string file)
  : result unit * gmap string json * gmap string file :=
  let default_settings :=
    BotSettings_init default_assets_path object_attr setattr_object
      temp_config fs in
  if bool_decide (is_Some (default_settings !! "to_dict"))
  then (Raise "TypeError", self, fs)
  else
    match to_dict default_settings with
    | None => (Raise "AttributeError", self, fs)
    | Some items =>
        let '(self', raised) := copy_items items self in
        if raised then (Raise "TypeError", self', fs)
        else
          match fs !! temp_config with
          | Some _ =>
              if removable temp_config
              then (Ok tt, self', delete temp_config fs)
              else (Raise "OSError", self', fs)
          | None => (Ok tt, self', fs)
          end
    end.

(** ** Lemmas *)

Lemma keys_are_plain (items : list (string * json))
  (self : gmap string json) :
  Forall (fun kv => In kv.1 settings_keys) items ->
  Forall (fun key => is_Some (self !! key)) settings_keys ->
  Forall (fun kv => object_attr kv.1 = false /\ is_Some (self !! kv.1)) items.
Proof.
  intros Hkeys Hself. eapply Forall_impl; [ exact Hkeys | ].
  intros [k v] Hk. cbn in *. split.
  - apply (settings_key_not_object object_attr object_attr_dunder), Hk.
  - rewrite List.Forall_forall in Hself. apply Hself, Hk.
Qed.

Lemma copy_items_plain items : forall self,
  Forall (fun kv => In kv.1 settings_keys) items ->
  copy_items items self = (store_items items self, false).
Proof.
  induction items as [ | [k v] rest IH ]; intros self Hkeys; [ reflexivity | ].
  apply Forall_cons in Hkeys as [Hk Hrest]. cbn [fst] in Hk.
  cbn [copy_items].
  assert (Hne : String.eqb k "config_path" = false).
  { apply String.eqb_neq. intros ->. cbn in Hk. intuition discriminate. }
  rewrite Hne. cbn [negb]. unfold setattr.
  rewrite (settings_key_not_object object_attr object_attr_dunder k Hk).
  apply IH, Hrest.
Qed.

(** The instance built on a file that holds settings fields only. *)
Lemma init_on_fields path items fs :
  fs !! path = Some (Doc (JObj items)) ->
  Forall (fun kv => In kv.1 settings_keys) items ->
  _load_settings object_attr setattr_object
    (defaults default_assets_path path) fs
  = (store_items items (defaults default_assets_path path), false).
Proof.
  intros Hfile Hkeys. unfold _load_settings.
  rewrite defaults_config_path, Hfile.
  rewrite (apply_items_plain object_attr setattr_object items
             (defaults default_assets_path path)).
  - rewrite bool_decide_eq_true_2; [ reflexivity | ].
    apply store_items_is_Some. rewrite defaults_config_path.
    exists (JStr path). reflexivity.
  - apply keys_are_plain; [ exact Hkeys | ].
    apply defaults_has_settings_keys.
Qed.

(** What [reset_to_defaults] does once its scratch instance is known
    to have the 15 fields and its own [to_dict]. *)
Lemma reset_copies_scratch self fs :
  let scratch :=
    BotSettings_init default_assets_path object_attr setattr_object
      temp_config fs in
  Forall (fun key => is_Some (scratch !! key)) settings_keys ->
  scratch !! "to_dict" = None ->
  (is_Some (fs !! temp_config) -> removable temp_config = true) ->
  exists self',
    reset_to_defaults self fs = (Ok tt, self', delete temp_config fs)
    /\ Forall (fun key => self' !! key = scratch !! key) settings_keys
    /\ (forall key, ~ In key settings_keys -> self' !! key = self !! key).
Proof.
  intros scratch Hfields Hmethod Hremove.
  destruct (to_dict_total scratch Hfields) as [settings Hd].
  pose proof (to_dict_keys scratch settings Hd) as Hkeys.
  destruct (to_dict_inv scratch settings Hd) as [Hfst Hvals].
  exists (store_items settings self). split; [ | split ].
  - unfold reset_to_defaults. fold scratch. rewrite Hmethod, Hd.
    rewrite bool_decide_eq_false_2 by (intros [? ?]; discriminate).
    rewrite (copy_items_plain settings self Hkeys).
    destruct (fs !! temp_config) as [f | ] eqn:Hfile.
    + rewrite Hremove by eauto. reflexivity.
    + rewrite delete_id by exact Hfile. reflexivity.
  - apply List.Forall_forall. intros key Hkey.
    destruct (to_dict_lookup scratch settings key Hd Hkey)
      as (value & Hin & ->).
    apply store_items_in; [ | exact Hin ].
    rewrite Hfst. apply settings_keys_NoDup.
  - intros key Hkey. apply store_items_notin. rewrite Hfst. exact Hkey.
Qed.

End Runtime.

(** ** Loading part of the fields *)

(** A configuration file that lists some of the settings fields: the
    instance takes the listed values and keeps the defaults of
    [__init__] for every other attribute; the load logs no error. *)
Theorem partial_file_overlays_defaults
  (default_assets_path : string) (object_attr : string -> bool)
  (setattr_object :
     string -> json -> gmap string json -> option (gmap string json))
  (path : string) (items : list (string * json)) (fs : gmap string file) :
  (forall name, object_attr name = true -> is_dunder name = true) ->
  fs !! path = Some (Doc (JObj items)) ->
  Forall (fun kv => In kv.1 settings_keys) items ->
  NoDup (map fst items) ->
  let self :=
    BotSettings_init default_assets_path object_attr setattr_object
      path fs in
  _load_settings object_attr setattr_object
    (defaults default_assets_path path) fs = (self, false)
  /\ (forall key value, In (key, value) items -> self !! key = Some value)
  /\ (forall key,
        ~ In key (map fst items) ->
        self !! key = defaults default_assets_path path !! key).
Proof.
  intros Hdunder Hfile Hkeys Hnodup self.
  pose proof (init_on_fields default_assets_path object_attr setattr_object
                Hdunder path items fs Hfile Hkeys) as Hload.
  assert (Hself : self = store_items items (defaults default_assets_path path)).
  { unfold self, BotSettings_init. rewrite Hload. reflexivity. }
  rewrite Hself. split; [ exact Hload | ]. split.
  - intros key value Hin. apply store_items_in; assumption.
  - intros key Hnot. apply store_items_notin. exact Hnot.
Qed.

Lemma partial_file_overlays_defaults_witness :
  let fs : gmap string file :=
    {[ "config.json" :=
         Doc (JObj [("end_server", JInt 500); ("dark_theme", JBool false)]) ]}
  in
  let self :=
    BotSettings_init "assets" cpython_object_attr cpython_setattr_object
      "config.json" fs in
  _load_settings cpython_object_attr cpython_setattr_object
    (defaults "assets" "config.json") fs = (self, false)
  /\ (forall key value,
        In (key, value) [("end_server", JInt 500); ("dark_theme", JBool false)]
        -> self !! key = Some value)
  /\ (forall key,
        ~ In key (map fst [("end_server", JInt 500);
                           ("dark_theme", JBool false)]) ->
        self !! key = defaults "assets" "config.json" !! key).
Proof.
  apply (partial_file_overlays_defaults "assets" cpython_object_attr
           cpython_setattr_object "config.json"
           [("end_server", JInt 500); ("dark_theme", JBool false)]).
  - exact cpython_object_attr_dunder.
  - reflexivity.
  - repeat constructor; cbn; tauto.
  - repeat constructor; rewrite list_elem_of_In; cbn; intuition discriminate.
Defined.

(** ** [from_dict] *)

(** [from_dict] on the dictionary another instance gave with [to_dict]
    copies the 15 settings fields and leaves every other attribute, the
    configuration path among them, as it was. *)
Theorem from_dict_copies_fields (object_attr : string -> bool)
  (setattr_object :
     string -> json -> gmap string json -> option (gmap string json))
  (self other : gmap string json) (settings : list (string * json)) :
  (forall name, object_attr name = true -> is_dunder name = true) ->
  to_dict self = Some settings ->
  Forall (fun key => is_Some (other !! key)) settings_keys ->
  let other' := (from_dict object_attr setattr_object other settings).1 in
  from_dict object_attr setattr_object other settings = (other', false)
  /\ to_dict other' = Some settings
  /\ (forall key, ~ In key settings_keys -> other' !! key = other !! key).
Proof.
  intros Hdunder Hd Hother other'.
  destruct (to_dict_inv self settings Hd) as [Hfst _].
  assert (Hrun : from_dict object_attr setattr_object other settings
                 = (store_items settings other, false)).
  { unfold from_dict.
    apply apply_items_plain, (keys_are_plain object_attr Hdunder);
      [ | exact Hother ].
    exact (to_dict_keys self settings Hd). }
  unfold other'. rewrite Hrun. cbn [fst]. split; [ reflexivity | ]. split.
  - apply to_dict_intro; [ exact Hfst | ].
    apply store_settings_lookup, Hfst.
  - intros key Hkey. apply (store_items_notin settings key).
    rewrite Hfst. exact Hkey.
Qed.

Lemma from_dict_copies_fields_witness :
  exists settings,
    to_dict edited_settings = Some settings
    /\ let other' :=
         (from_dict cpython_object_attr cpython_setattr_object
            (defaults "assets" "other.json") settings).1 in
       from_dict cpython_object_attr cpython_setattr_object
         (defaults "assets" "other.json") settings = (other', false)
       /\ to_dict other' = Some settings
       /\ (forall key,
             ~ In key settings_keys ->
             other' !! key = defaults "assets" "other.json" !! key).
Proof.
  destruct (to_dict edited_settings) as [settings | ] eqn:Hd;
    [ | vm_compute in Hd; discriminate Hd ].
  exists settings. split; [ reflexivity | ].
  apply (from_dict_copies_fields cpython_object_attr cpython_setattr_object
           edited_settings (defaults "assets" "other.json") settings).
  - exact cpython_object_attr_dunder.
  - exact Hd.
  - apply defaults_has_settings_keys.
Defined.

(** ** [reset_to_defaults] *)

(** With no file [_temp_config.json] in the working directory,
    [reset_to_defaults] puts the 15 settings fields back to the values
    of [__init__], keeps every other attribute of the instance (its
    configuration path among them) and leaves the file system alone. *)
Theorem reset_restores_defaults
  (default_assets_path : string) (object_attr : string -> bool)
  (setattr_object :
     string -> json -> gmap string json -> option (gmap string json))
  (removable : string -> bool)
  (self : gmap string json) (fs : gmap string file) :
  (forall name, object_attr name = true -> is_dunder name = true) ->
  fs !! temp_config = None ->
  exists self',
    reset_to_defaults default_assets_path object_attr setattr_object
      removable self fs = (Ok tt, self', fs)
    /\ (forall path,
          Forall (fun key =>
                    self' !! key = defaults default_assets_path path !! key)
            settings_keys)
    /\ (forall key, ~ In key settings_keys -> self' !! key = self !! key).
Proof.
  intros Hdunder Hfile.
  assert (Hscratch :
            BotSettings_init default_assets_path object_attr setattr_object
              temp_config fs
            = defaults default_assets_path temp_config).
  { unfold BotSettings_init, _load_settings.
    rewrite defaults_config_path, Hfile. reflexivity. }
  destruct (reset_copies_scratch default_assets_path object_attr
              setattr_object removable Hdunder self fs)
    as (self' & Hrun & Hfields & Hrest).
  - rewrite Hscratch. apply defaults_has_settings_keys.
  - rewrite Hscratch. reflexivity.
  - rewrite Hfile. intros [? ?]. discriminate.
  - exists self'. rewrite delete_id in Hrun by exact Hfile.
    split; [ exact Hrun | ]. split; [ | exact Hrest ].
    intros path. rewrite Hscratch in Hfields.
    rewrite List.Forall_forall in Hfields. apply List.Forall_forall.
    intros key Hkey. rewrite (Hfields key Hkey). cbn in Hkey.
    repeat (destruct Hkey as [<- | Hkey]; [ reflexivity | ]).
    destruct Hkey.
Qed.

Lemma reset_restores_defaults_witness :
  exists self',
    reset_to_defaults "assets" cpython_object_attr cpython_setattr_object
      (fun _ => true) edited_settings ∅ = (Ok tt, self', ∅)
    /\ (forall path,
          Forall (fun key => self' !! key = defaults "assets" path !! key)
            settings_keys)
    /\ (forall key,
          ~ In key settings_keys -> self' !! key = edited_settings !! key).
Proof.
  apply (reset_restores_defaults "assets" cpython_object_attr
           cpython_setattr_object (fun _ => true) edited_settings ∅).
  - exact cpython_object_attr_dunder.
  - reflexivity.
Defined.

(** A file [_temp_config.json] left in the working directory is read
    by the scratch instance: the reset then gives the fields the values
    of that file instead of the defaults, and removes the file. *)
Theorem reset_reads_stray_temp_file
  (default_assets_path : string) (object_attr : string -> bool)
  (setattr_object :
     string -> json -> gmap string json -> option (gmap string json))
  (removable : string -> bool)
  (self : gmap string json) (items : list (string * json))
  (fs : gmap string file) :
  (forall name, object_attr name = true -> is_dunder name = true) ->
  fs !! temp_config = Some (Doc (JObj items)) ->
  Forall (fun kv => In kv.1 settings_keys) items ->
  NoDup (map fst items) ->
  removable temp_config = true ->
  exists self',
    reset_to_defaults default_assets_path object_attr setattr_object
      removable self fs = (Ok tt, self', delete temp_config fs)
    /\ (forall key value, In (key, value) items -> self' !! key = Some value)
    /\ (forall key, ~ In key settings_keys -> self' !! key = self !! key).
Proof.
  intros Hdunder Hfile Hkeys Hnodup Hremove.
  assert (Hscratch :
            BotSettings_init default_assets_path object_attr setattr_object
              temp_config fs
            = store_items items (defaults default_assets_path temp_config)).
  { unfold BotSettings_init.
    rewrite (init_on_fields default_assets_path object_attr setattr_object
               Hdunder temp_config items fs Hfile Hkeys).
    reflexivity. }
  destruct (reset_copies_scratch default_assets_path object_attr
              setattr_object removable Hdunder self fs)
    as (self' & Hrun & Hfields & Hrest).
  - rewrite Hscratch. eapply Forall_impl;
      [ apply (defaults_has_settings_keys default_assets_path temp_config) | ].
    intros key Hsome. apply store_items_is_Some, Hsome.
  - rewrite Hscratch. rewrite store_items_notin; [ reflexivity | ].
    intros Hin. apply in_map_iff in Hin as ([k v] & Hk & Hin).
    cbn in Hk. subst k.
    rewrite List.Forall_forall in Hkeys. specialize (Hkeys _ Hin).
    cbn in Hkeys. intuition discriminate.
  - intros _. exact Hremove.
  - exists self'. split; [ exact Hrun | ]. split; [ | exact Hrest ].
    intros key value Hin.
    rewrite List.Forall_forall in Hfields, Hkeys.
    rewrite (Hfields key (Hkeys _ Hin)), Hscratch.
    apply store_items_in; assumption.
Qed.

Lemma reset_reads_stray_temp_file_witness :
  exists self',
    reset_to_defaults "assets" cpython_object_attr cpython_setattr_object
      (fun _ => true) (defaults "assets" "config.json")
      {[ temp_config := Doc (JObj [("start_server", JInt 1)]) ]}
    = (Ok tt, self',
       delete temp_config
         {[ temp_config := Doc (JObj [("start_server", JInt 1)]) ]})
    /\ (forall key value,
          In (key, value) [("start_server", JInt 1)] ->
          self' !! key = Some value)
    /\ (forall key,
          ~ In key settings_keys ->
          self' !! key = defaults "assets" "config.json" !! key).
Proof.
  apply (reset_reads_stray_temp_file "assets" cpython_object_attr
           cpython_setattr_object (fun _ => true)
           (defaults "assets" "config.json") [("start_server", JInt 1)]).
  - exact cpython_object_attr_dunder.
  - reflexivity.
  - repeat constructor; cbn; tauto.
  - repeat constructor; rewrite list_elem_of_In; cbn; intuition discriminate.
  - reflexivity.
Defined.

End SettingsReset.

(* ===================================================================== *)
(** * The LDPlayer console: launch, quit and reboot *)
(* ===================================================================== *)

Module Ldplayer.

Import Ocr.

(** What the wrapper asks of the outside, in the order it asks. *)
Inductive event : Type :=
| Console (command : string)     (* self._run_ldconsole_command(command) *)
| Sleep (ms : Z).                (* time.sleep(ms / 1000) *)

Definition is_console (ev : event) : bool :=
  match ev with
  | Console _ => true
  | Sleep _ => false
  end.

(** The time asked of [time.sleep], in milliseconds. *)
Fixpoint slept (evs : list event) : Z :=
  match evs with
  | [] => 0
  | Sleep ms :: rest => ms + slept rest
  | Console _ :: rest => slept rest
  end.

Definition consoles (evs : list event) : nat :=
  length (List.filter is_console evs).

Record Player (World : Type) : Type := {
  world : World;
  trace : list event
}.
Arguments world {World} _.
Arguments trace {World} _.

Section Console.

Variable World : Type.
(** [_run_ldconsole_command]: it catches every exception and returns
    a flag with the output of the console. *)
Variable run_ldconsole : string -> World -> World * (bool * pystr).
Variable time_sleep : Z -> World -> World.

Definition console (command : string) (p : Player World)
  : (bool * pystr) * Player World :=
  let '(w, answer) := run_ldconsole command (world p) in
  (answer, {| world := w; trace := trace p ++ [Console command] |}).

Definition sleep (ms : Z) (p : Player World) : Player World :=
  {| world := time_sleep ms (world p); trace := trace p ++ [Sleep ms] |}.

(** [is_running(index)]. *)
Definition is_running (index : string) (p : Player World)
  : bool * Player World :=
  let '((success, result), p) :=
    console ("isrunning --index " ++ index)%string p in
  if negb success then (false, p)
  else (contains (str "running") (lower result), p).

(** [for _ in range(rounds): if self.is_running(index): return True;
    time.sleep(1)], then [return False]. *)
Fixpoint wait_launched (rounds : nat) (index : string) (p : Player World)
  : bool * Player World :=
  match rounds with
  | O => (false, p)
  | S rounds' =>
      let '(running, p) := is_running index p in
      if running then (true, p)
      else wait_launched rounds' index (sleep 1000 p)
  end.

(** [for _ in range(rounds): if not self.is_running(index): return
    True; time.sleep(1)], then [return False]. *)
Fixpoint wait_closed (rounds : nat) (index : string) (p : Player World)
  : bool * Player World :=
  match rounds with
  | O => (false, p)
  | S rounds' =>
      let '(running, p) := is_running index p in
      if negb running then (true, p)
      else wait_closed rounds' index (sleep 1000 p)
  end.

(** [launch(index)]. *)
Definition launch (index : string) (p : Player World)
  : bool * Player World :=
  let '(running, p) := is_running index p in
  if running then (true, p)
  else
    let '((success, _), p) :=
      console ("launch --index " ++ index)%string p in
    if success then wait_launched 60 index p else (false, p).

(** [quit(index)]. *)
Definition quit (index : string) (p : Player World)
  : bool * Player World :=
  let '(running, p) := is_running index p in
  if negb running then (true, p)
  else
    let '((success, _), p) :=
      console ("quit --index " ++ index)%string p in
    if success then wait_closed 30 index p else (false, p).

(** [reboot(index)]. *)
Definition reboot (index : string) (p : Player World)
  : bool * Player World :=
  let '(closed, p) := quit index p in
  if negb closed then (false, p)
  else
    let '(launched, p) := launch index p in
    if negb launched then (false, p) else (true, p).

(** ** Lemmas *)

(** [p'] is [p] after the requests [evs]. *)
Definition extends (p p' : Player World) (evs : list event) : Prop :=
  trace p' = trace p ++ evs.

Lemma slept_app evs1 evs2 : slept (evs1 ++ evs2) = slept evs1 + slept evs2.
Proof.
  induction evs1 as [ | [command | ms] evs1 IH ]; cbn [app slept]; lia.
Qed.

Lemma consoles_app evs1 evs2 :
  consoles (evs1 ++ evs2) = (consoles evs1 + consoles evs2)%nat.
Proof.
  unfold consoles. rewrite List.filter_app, length_app. reflexivity.
Qed.

Lemma extends_trans p1 p2 p3 evs1 evs2 :
  extends p1 p2 evs1 -> extends p2 p3 evs2 -> extends p1 p3 (evs1 ++ evs2).
Proof.
  unfold extends. intros H1 H2. rewrite H2, H1, app_assoc. reflexivity.
Qed.

Lemma console_extends command p :
  extends p (snd (console command p)) [Console command].
Proof.
  unfold console, extends.
  destruct (run_ldconsole command (world p)) as [w answer]. reflexivity.
Qed.

Lemma is_running_extends index p :
  extends p (snd (is_running index p))
    [Console ("isrunning --index " ++ index)%string].
Proof.
  unfold is_running.
  pose proof (console_extends ("isrunning --index " ++ index)%string p) as H.
  destruct (console _ p) as [[success result] p']. cbn [snd] in *.
  destruct (negb success); exact H.
Qed.

Lemma wait_launched_bounded index : forall rounds p,
  exists evs,
    extends p (snd (wait_launched rounds index p)) evs
    /\ (consoles evs <= rounds)%nat
    /\ 0 <= slept evs <= 1000 * Z.of_nat rounds.
Proof.
  induction rounds as [ | rounds IH ]; intros p.
  - exists []. unfold extends. cbn. rewrite app_nil_r. repeat split; lia.
  - cbn [wait_launched].
    pose proof (is_running_extends index p) as Hpoll.
    destruct (is_running index p) as [running p1]. cbn [snd] in Hpoll.
    destruct running.
    + eexists. split; [ exact Hpoll | ]. cbn. repeat split; lia.
    + destruct (IH (sleep 1000 p1)) as (evs & Hext & Hc & Hs).
      eexists. split.
      * eapply extends_trans; [ exact Hpoll | ].
        eapply (extends_trans p1 (sleep 1000 p1) _ [Sleep 1000]);
          [ reflexivity | exact Hext ].
      * rewrite !consoles_app, !slept_app. cbn. split; lia.
Qed.

Lemma wait_closed_bounded index : forall rounds p,
  exists evs,
    extends p (snd (wait_closed rounds index p)) evs
    /\ (consoles evs <= rounds)%nat
    /\ 0 <= slept evs <= 1000 * Z.of_nat rounds.
Proof.
  induction rounds as [ | rounds IH ]; intros p.
  - exists []. unfold extends. cbn. rewrite app_nil_r. repeat split; lia.
  - cbn [wait_closed].
    pose proof (is_running_extends index p) as Hpoll.
    destruct (is_running index p) as [running p1]. cbn [snd] in Hpoll.
    destruct running; cbn [negb].
    + destruct (IH (sleep 1000 p1)) as (evs & Hext & Hc & Hs).
      eexists. split.
      * eapply extends_trans; [ exact Hpoll | ].
        eapply (extends_trans p1 (sleep 1000 p1) _ [Sleep 1000]);
          [ reflexivity | exact Hext ].
      * rewrite !consoles_app, !slept_app. cbn. split; lia.
    + eexists. split; [ exact Hpoll | ]. cbn. repeat split; lia.
Qed.

Lemma launch_bounded index p :
  exists evs,
    extends p (snd (launch index p)) evs
    /\ (consoles evs <= 62)%nat
    /\ 0 <= slept evs <= 60000.
Proof.
  unfold launch.
  pose proof (is_running_extends index p) as Hpoll.
  destruct (is_running index p) as [running p1]. cbn [snd] in Hpoll.
  destruct running.
  - eexists. split; [ exact Hpoll | ]. cbn. repeat split; lia.
  - pose proof (console_extends ("launch --index " ++ index)%string p1) as Hcmd.
    destruct (console _ p1) as [[success output] p2]. cbn [snd] in Hcmd.
    destruct success.
    + destruct (wait_launched_bounded index 60 p2) as (evs & Hext & Hc & Hs).
      eexists. split.
      * eapply extends_trans; [ exact Hpoll | ].
        eapply extends_trans; [ exact Hcmd | exact Hext ].
      * rewrite !consoles_app, !slept_app. cbn. split; lia.
    + eexists. split.
      * eapply extends_trans; [ exact Hpoll | exact Hcmd ].
      * cbn. repeat split; lia.
Qed.

Lemma quit_bounded index p :
  exists evs,
    extends p (snd (quit index p)) evs
    /\ (consoles evs <= 32)%nat
    /\ 0 <= slept evs <= 30000.
Proof.
  unfold quit.
  pose proof (is_running_extends index p) as Hpoll.
  destruct (is_running index p) as [running p1]. cbn [snd] in Hpoll.
  destruct running; cbn [negb].
  - pose proof (console_extends ("quit --index " ++ index)%string p1) as Hcmd.
    destruct (console _ p1) as [[success output] p2]. cbn [snd] in Hcmd.
    destruct success.
    + destruct (wait_closed_bounded index 30 p2) as (evs & Hext & Hc & Hs).
      eexists. split.
      * eapply extends_trans; [ exact Hpoll | ].
        eapply extends_trans; [ exact Hcmd | exact Hext ].
      * rewrite !consoles_app, !slept_app. cbn. split; lia.
    + eexists. split.
      * eapply extends_trans; [ exact Hpoll | exact Hcmd ].
      * cbn. repeat split; lia.
  - eexists. split; [ exact Hpoll | ]. cbn. repeat split; lia.
Qed.

(** The console says "running" to every [isrunning] of the emulator
    [index], whatever was asked of it before; nothing is said of its
    answers to other commands. *)
Definition keeps_running (index : string) : Prop :=
  forall w,
    exists output,
      snd (run_ldconsole ("isrunning --index " ++ index)%string w)
      = (true, output)
      /\ contains (str "running") (lower output) = true.

Lemma is_running_stuck index p :
  keeps_running index ->
  is_running index p
  = (true,
     {| world :=
          fst (run_ldconsole ("isrunning --index " ++ index)%string (world p));
        trace := trace p
                 ++ [Console ("isrunning --index " ++ index)%string] |}).
Proof.
  intros Hstuck. unfold is_running, console.
  destruct (Hstuck (world p)) as (output & Hanswer & Hsays).
  destruct (run_ldconsole _ (world p)) as [w answer].
  cbn [fst snd] in *. subst answer. cbn [negb]. rewrite Hsays.
  reflexivity.
Qed.

Lemma wait_closed_stuck index : forall rounds p,
  keeps_running index ->
  exists w,
    wait_closed rounds index p
    = (false,
       {| world := w;
          trace := trace p
                   ++ concat (replicate rounds
                        [ Console ("isrunning --index " ++ index)%string;
                          Sleep 1000 ]) |}).
Proof.
  induction rounds as [ | rounds IH ]; intros p Hstuck.
  - exists (world p). cbn. rewrite app_nil_r. destruct p; reflexivity.
  - cbn [wait_closed].
    rewrite (is_running_stuck index p Hstuck). cbn [negb].
    match goal with
    | |- context [wait_closed rounds index ?p1] =>
        destruct (IH p1 Hstuck) as (w & ->)
    end.
    exists w. cbn [sleep trace replicate concat].
    rewrite <- !app_assoc. reflexivity.
Qed.

End Console.

Arguments keeps_running {World} run_ldconsole index.

(** ** How long a reboot can take *)

(** Whatever the console answers, [reboot] ends after at most 94
    console commands and at most 90 s asked of [time.sleep]. *)
Theorem reboot_is_bounded (World : Type)
  (run_ldconsole : string -> World -> World * (bool * pystr))
  (time_sleep : Z -> World -> World)
  (index : string) (p : Player World) :
  exists evs,
    trace (snd (reboot World run_ldconsole time_sleep index p))
    = trace p ++ evs
    /\ (consoles evs <= 94)%nat
    /\ 0 <= slept evs <= 90000.
Proof.
  unfold reboot.
  destruct (quit_bounded World run_ldconsole time_sleep index p)
    as (evs1 & Hext1 & Hc1 & Hs1).
  destruct (quit World run_ldconsole time_sleep index p) as [closed p1].
  cbn [snd] in Hext1. destruct closed; cbn [negb].
  - destruct (launch_bounded World run_ldconsole time_sleep index p1)
      as (evs2 & Hext2 & Hc2 & Hs2).
    destruct (launch World run_ldconsole time_sleep index p1)
      as [launched p2].
    cbn [snd] in Hext2.
    exists (evs1 ++ evs2). split.
    + destruct launched; cbn [negb snd];
        exact (extends_trans World p p1 p2 evs1 evs2 Hext1 Hext2).
    + rewrite consoles_app, slept_app. split; lia.
  - exists evs1. cbn [snd]. split; [ exact Hext1 | ]. split; lia.
Qed.

(** An emulator that does not stop, that is, a console that answers
    every [isrunning] with "running": [reboot] asks whether it runs and
    asks it to quit; when the console accepts the [quit] it polls 30
    times one second apart, and when it refuses it polls no more; either
    way [reboot] returns [False] and never asks for the launch. *)
Theorem reboot_gives_up_on_quit (World : Type)
  (run_ldconsole : string -> World -> World * (bool * pystr))
  (time_sleep : Z -> World -> World)
  (index : string) (p : Player World) :
  keeps_running run_ldconsole index ->
  let isrunning := ("isrunning --index " ++ index)%string in
  let polled := fst (run_ldconsole isrunning (world p)) in
  let accepted :=
    fst (snd (run_ldconsole ("quit --index " ++ index)%string polled)) in
  let evs :=
    [ Console isrunning; Console ("quit --index " ++ index)%string ]
    ++ (if accepted
        then concat (replicate 30 [ Console isrunning; Sleep 1000 ])
        else []) in
  exists p',
    reboot World run_ldconsole time_sleep index p = (false, p')
    /\ trace p' = trace p ++ evs
    /\ ~ In (Console ("launch --index " ++ index)%string) evs.
Proof.
  intros Hstuck isrunning polled accepted evs. unfold reboot, quit.
  rewrite (is_running_stuck World run_ldconsole index p Hstuck).
  fold isrunning. fold polled.
  cbn [negb]. unfold console at 1. cbn [world trace].
  subst evs accepted.
  destruct (run_ldconsole ("quit --index " ++ index)%string polled)
    as [w2 [success output]].
  cbn [fst snd]. destruct success.
  - match goal with
    | |- context [wait_closed _ _ _ 30 index ?p2] =>
        destruct (wait_closed_stuck World run_ldconsole time_sleep index 30 p2
                    Hstuck) as (w3 & ->)
    end.
    cbn [negb]. eexists. split; [ reflexivity | ]. split.
    + cbn [trace]. fold isrunning. rewrite <- !app_assoc. reflexivity.
    + cbn. intros Hin.
      repeat (destruct Hin as [Hin | Hin]; [ discriminate Hin | ]).
      exact Hin.
  - cbn [negb]. eexists. split; [ reflexivity | ]. split.
    + cbn [trace]. rewrite <- !app_assoc. reflexivity.
    + cbn. intros Hin.
      repeat (destruct Hin as [Hin | Hin]; [ discriminate Hin | ]).
      exact Hin.
Qed.

(** A console that answers "running" to [isrunning] and accepts
    everything else without a word. *)
Definition stuck_console (command : string) (w : unit)
  : unit * (bool * pystr) :=
  if String.eqb command "isrunning --index 0"
  then (w, (true, str "running"))
  else (w, (true, str "")).

Lemma reboot_gives_up_on_quit_witness :
  let evs :=
    [ Console "isrunning --index 0"; Console "quit --index 0" ]
    ++ concat (replicate 30 [ Console "isrunning --index 0"; Sleep 1000 ]) in
  exists p',
    reboot unit stuck_console (fun _ w => w) "0"
      {| world := tt; trace := [] |} = (false, p')
    /\ trace p' = [] ++ evs
    /\ ~ In (Console "launch --index 0") evs.
Proof.
  apply (reboot_gives_up_on_quit unit stuck_console (fun _ w => w) "0"
           {| world := tt; trace := [] |}).
  intros w. exists (str "running"). split; reflexivity.
Defined.

End Ldplayer.

(* ===================================================================== *)
(** * The ADB transport: taking a screenshot *)
(* ===================================================================== *)

Module Adb.

(** What the transport asks of the outside, in the order it asks. *)
Inductive event : Type :=
| Command (command : string)    (* self.execute_adb_command(command) *)
| Pull                          (* adb pull /sdcard/screenshot.png - *)
| Sleep (ms : Z).               (* time.sleep(ms / 1000) *)

(** What [subprocess.check_output] does on the [pull] command. *)
Inductive pulled : Type :=
| Bytes (screenshot_bytes : list Z)
| CalledProcessError (output : string)
| OtherError (message : string).

(** The fields of [ADB], with the log of its requests. *)
Record Transport (World : Type) : Type := {
  world : World;
  last_action_time : Z;       (* milliseconds *)
  trace : list event
}.
Arguments world {World} _.
Arguments last_action_time {World} _.
Arguments trace {World} _.

(** [self.min_action_interval = 1.5]. *)
Definition min_action_interval : Z := 1500.

Definition mkdir_command : string := "shell mkdir -p /sdcard/".
Definition echo_command : string := "shell echo 'Test connection'".
Definition screencap_command : string :=
  "shell screencap -p /sdcard/screenshot.png".
Definition rm_command : string := "shell rm /sdcard/screenshot.png".

Section Device.

Variable World : Type.
Variable time_now : World -> Z.
Variable time_sleep : Z -> World -> World.
(** [execute_adb_command]: it catches every exception and returns a
    flag with the output. *)
Variable execute_adb_command : string -> World -> World * (bool * string).
(** [subprocess.check_output] on the [pull] command. *)
Variable pull_screenshot : World -> World * pulled.

Definition log (w : World) (ev : event) (a : Transport World)
  : Transport World :=
  {| world := w; last_action_time := last_action_time a;
     trace := trace a ++ [ev] |}.

(** [wait_for_interval]. *)
Definition wait_for_interval (a : Transport World) : Transport World :=
  let current_time := time_now (world a) in
  let time_since_last_action := current_time - last_action_time a in
  if time_since_last_action <? min_action_interval
  then
    let sleep_time := min_action_interval - time_since_last_action in
    log (time_sleep sleep_time (world a)) (Sleep sleep_time) a
  else a.

Definition execute (command : string) (a : Transport World)
  : (bool * string) * Transport World :=
  let '(w, answer) := execute_adb_command command (world a) in
  (answer, log w (Command command) a).

(** [self.last_action_time = time.time()]. *)
Definition touch (a : Transport World) : Transport World :=
  {| world := world a; last_action_time := time_now (world a);
     trace := trace a |}.

(** [get_screenshot]; every exception of the body is logged and raised
    again. *)
Definition get_screenshot (a : Transport World)
  : result (list Z) * Transport World :=
  let a := wait_for_interval a in
  let '(_, a) := execute mkdir_command a in
  let '((success, output), a) := execute echo_command a in
  if negb success
  then (Raise ("Устройство не отвечает: " ++ output)%string, a)
  else
    let '((success, output), a) := execute screencap_command a in
    if negb success
    then (Raise ("Не удалось сделать скриншот: " ++ output)%string, a)
    else
      let '(w, answer) := pull_screenshot (world a) in
      let a := log w Pull a in
      match answer with
      | CalledProcessError output =>
          (Raise ("Не удалось загрузить скриншот: " ++ output)%string, a)
      | OtherError message => (Raise message, a)
      | Bytes screenshot_bytes =>
          let '(_, a) := execute rm_command a in
          (Ok screenshot_bytes, touch a)
      end.

Lemma adb_pacing_trace a :
  exists pacing,
    trace (wait_for_interval a) = trace a ++ pacing
    /\ (pacing = [] \/ exists ms, pacing = [Sleep ms])
    /\ last_action_time (wait_for_interval a) = last_action_time a.
Proof.
  unfold wait_for_interval.
  destruct (_ <? min_action_interval).
  - eexists [Sleep _]. cbn. repeat split. right. eauto.
  - exists []. rewrite app_nil_r. repeat split. left. reflexivity.
Qed.

End Device.

(** The commands of a screenshot, in order. *)
Definition screenshot_commands : list event :=
  [ Command mkdir_command; Command echo_command;
    Command screencap_command; Pull; Command rm_command ].

(** ** The screenshot protocol *)

(** [get_screenshot] paces at most once and then asks, in this order,
    for the directory, an echo, the screen capture, the pull and the
    removal of the file, each on the device as the request before left
    it.  The answer to the first command is ignored.  When the echo
    fails the call raises after these two commands; when the capture
    fails, after three; when the pull raises, after the pull, so the
    file stays on the device; nothing further is asked in these cases
    and [last_action_time] is left alone.  Otherwise the file is removed,
    whatever the device answers to that, the bytes of the pull are
    returned and [last_action_time] is stamped. *)
Theorem screenshot_protocol (World : Type)
  (time_now : World -> Z) (time_sleep : Z -> World -> World)
  (execute_adb_command : string -> World -> World * (bool * string))
  (pull_screenshot : World -> World * pulled)
  (a : Transport World) :
  let paced := wait_for_interval World time_now time_sleep a in
  let made := execute_adb_command mkdir_command (world paced) in
  let echoed := execute_adb_command echo_command made.1 in
  let captured := execute_adb_command screencap_command echoed.1 in
  let pull := pull_screenshot captured.1 in
  let removed := execute_adb_command rm_command pull.1 in
  let run :=
    get_screenshot World time_now time_sleep execute_adb_command
      pull_screenshot a in
  let outcome := run.1 in
  let a' := run.2 in
  (exists pacing,
      trace paced = trace a ++ pacing
      /\ (pacing = [] \/ exists ms, pacing = [Sleep ms]))
  /\ if negb echoed.2.1
     then raised outcome = true
          /\ trace a' = trace paced ++ firstn 2 screenshot_commands
          /\ world a' = echoed.1
          /\ last_action_time a' = last_action_time a
     else if negb captured.2.1
     then raised outcome = true
          /\ trace a' = trace paced ++ firstn 3 screenshot_commands
          /\ world a' = captured.1
          /\ last_action_time a' = last_action_time a
     else match pull.2 with
          | Bytes screenshot_bytes =>
              outcome = Ok screenshot_bytes
              /\ trace a' = trace paced ++ screenshot_commands
              /\ world a' = removed.1
              /\ last_action_time a' = time_now removed.1
          | CalledProcessError _ | OtherError _ =>
              raised outcome = true
              /\ trace a' = trace paced ++ firstn 4 screenshot_commands
              /\ world a' = pull.1
              /\ last_action_time a' = last_action_time a
          end.
Proof.
  intros paced made echoed captured pull removed run outcome a'.
  destruct (adb_pacing_trace World time_now time_sleep a)
    as (pacing & Hpace & Hshape & Hlast).
  fold paced in Hpace, Hlast.
  split; [ exists pacing; split; assumption | ].
  subst a' outcome run removed pull captured echoed made.
  unfold get_screenshot. fold paced. unfold execute.
  destruct (execute_adb_command mkdir_command (world paced)) as [w1 answer1].
  cbn [log world fst snd].
  destruct (execute_adb_command echo_command w1) as [w2 [ok2 out2]].
  cbn [fst snd]. destruct ok2; cbn [negb].
  2: { cbn [log trace last_action_time world firstn screenshot_commands
             fst snd raised].
       rewrite Hlast, <- !app_assoc. repeat split. }
  cbn [log world].
  destruct (execute_adb_command screencap_command w2) as [w3 [ok3 out3]].
  cbn [fst snd]. destruct ok3; cbn [negb].
  2: { cbn [log trace last_action_time world firstn screenshot_commands
             fst snd raised].
       rewrite Hlast, <- !app_assoc. repeat split. }
  cbn [log world].
  destruct (pull_screenshot w3) as [w4 [bytes | output | message]];
    cbn [fst snd].
  - cbn [log world].
    destruct (execute_adb_command rm_command w4) as [w5 answer5].
    cbn [log touch trace last_action_time world screenshot_commands fst snd].
    rewrite <- !app_assoc. repeat split.
  - cbn [log trace last_action_time world firstn screenshot_commands
           fst snd raised].
    rewrite Hlast, <- !app_assoc. repeat split.
  - cbn [log trace last_action_time world firstn screenshot_commands
           fst snd raised].
    rewrite Hlast, <- !app_assoc. repeat split.
Qed.

End Adb.

(* ===================================================================== *)
(** * The statistics of a run *)
(* ===================================================================== *)

Module Stats.

(** A duration is a Python [float], and so is their running sum: the
    binary64 numbers of [PrimFloat]. *)
Definition float : Set := PrimFloat.float.

(** One record of [server_history]; the time stamp of the record is
    left out. *)
Inductive entry : Type :=
| Success (server : Z) (season : string) (duration : float)
| Failure (server : Z) (season : string) (reason : string)
| Error (server : Z) (season : option string) (error_message : string).

(** [BotStatistics], without the three clock readings. *)
Record BotStatistics : Type := {
  success_count : Z;
  failure_count : Z;
  error_count : Z;
  completed_servers : list Z;
  failed_servers : list Z;
  server_history : list entry;
  total_time : float;
  current_server : option Z;
  current_season : option string;
  current_step : option Z
}.

(** [BotStatistics()], and the object after [reset()]. *)
Definition new_statistics : BotStatistics :=
  {| success_count := 0; failure_count := 0; error_count := 0;
     completed_servers := []; failed_servers := []; server_history := [];
     total_time := PrimFloat.zero;
     current_server := None; current_season := None;
     current_step := None |}.

Definition reset (s : BotStatistics) : BotStatistics := new_statistics.

(** [add_success(server, duration)]. *)
Definition add_success (server : Z) (duration : float) (s : BotStatistics)
  : BotStatistics :=
  {| success_count := success_count s + 1;
     failure_count := failure_count s;
     error_count := error_count s;
     completed_servers := completed_servers s ++ [server];
     failed_servers := failed_servers s;
     server_history :=
       server_history s
       ++ [Success server (Season.stats_get_season_for_server server)
             duration];
     total_time := PrimFloat.add (total_time s) duration;
     current_server := current_server s;
     current_season := current_season s;
     current_step := current_step s |}.

(** [add_failure(server, reason)]. *)
Definition add_failure (server : Z) (reason : string) (s : BotStatistics)
  : BotStatistics :=
  {| success_count := success_count s;
     failure_count := failure_count s + 1;
     error_count := error_count s;
     completed_servers := completed_servers s;
     failed_servers := failed_servers s ++ [server];
     server_history :=
       server_history s
       ++ [Failure server (Season.stats_get_season_for_server server)
             reason];
     total_time := total_time s;
     current_server := current_server s;
     current_season := current_season s;
     current_step := current_step s |}.

(** [add_error(error_message)]; [if self.current_server:] holds for a
    known server other than 0. *)
Definition add_error (error_message : string) (s : BotStatistics)
  : BotStatistics :=
  {| success_count := success_count s;
     failure_count := failure_count s;
     error_count := error_count s + 1;
     completed_servers := completed_servers s;
     failed_servers := failed_servers s;
     server_history :=
       match current_server s with
       | Some server =>
           if server =? 0 then server_history s
           else server_history s
                ++ [Error server (current_season s) error_message]
       | None => server_history s
       end;
     total_time := total_time s;
     current_server := current_server s;
     current_season := current_season s;
     current_step := current_step s |}.

(** [set_current_progress(server, season, step)]: an argument that is
    [None] leaves its field alone. *)
Definition set_current_progress (server : option Z) (season : option string)
  (step : option Z) (s : BotStatistics) : BotStatistics :=
  {| success_count := success_count s;
     failure_count := failure_count s;
     error_count := error_count s;
     completed_servers := completed_servers s;
     failed_servers := failed_servers s;
     server_history := server_history s;
     total_time := total_time s;
     current_server :=
       match server with Some _ => server | None => current_server s end;
     current_season :=
       match season with Some _ => season | None => current_season s end;
     current_step :=
       match step with Some _ => step | None => current_step s end |}.

(** The [float] Python makes of a count before it divides by it: the
    count itself below [2 ^ 53], the nearest [float] from there on
    (counts stay below [2 ^ 63]). *)
Definition float_of_count (count : Z) : float :=
  PrimFloat.of_uint63 (Uint63.of_Z count).

(** [get_average_time()]. *)
Definition get_average_time (s : BotStatistics) : option float :=
  if 0 <? success_count s
  then Some (PrimFloat.div (total_time s) (float_of_count (success_count s)))
  else None.

(** [get_success_rate()]: the quotient of two counts, times 100, as a
    rational number; the code returns the [float] next to it. *)
Definition get_success_rate (s : BotStatistics) : option Q :=
  let total_attempts := success_count s + failure_count s in
  if 0 <? total_attempts
  then Some (inject_Z (success_count s) / inject_Z total_attempts * 100)%Q
  else None.

(** The calls that write to the statistics. *)
Inductive call : Type :=
| AddSuccess (server : Z) (duration : float)
| AddFailure (server : Z) (reason : string)
| AddError (error_message : string)
| SetCurrentProgress (server : option Z) (season : option string)
    (step : option Z)
| Reset.

Definition perform (c : call) (s : BotStatistics) : BotStatistics :=
  match c with
  | AddSuccess server duration => add_success server duration s
  | AddFailure server reason => add_failure server reason s
  | AddError error_message => add_error error_message s
  | SetCurrentProgress server season step =>
      set_current_progress server season step s
  | Reset => reset s
  end.

(** The statistics after the calls, made in list order on a fresh
    object. *)
Definition after (calls : list call) : BotStatistics :=
  foldl (fun s c => perform c s) new_statistics calls.

(** The servers of the history with a success, and with a failure. *)
Definition successes (history : list entry) : list Z :=
  omap (fun e => match e with Success server _ _ => Some server | _ => None end)
    history.

Definition failures (history : list entry) : list Z :=
  omap (fun e => match e with Failure server _ _ => Some server | _ => None end)
    history.

Definition errors (history : list entry) : nat :=
  length (List.filter (fun e => match e with Error _ _ _ => true | _ => false end)
            history).

(** What every sequence of calls keeps. *)
Definition consistent (s : BotStatistics) : Prop :=
  success_count s = Z.of_nat (length (completed_servers s))
  /\ failure_count s = Z.of_nat (length (failed_servers s))
  /\ completed_servers s = successes (server_history s)
  /\ failed_servers s = failures (server_history s)
  /\ Z.of_nat (errors (server_history s)) <= error_count s.

Lemma successes_app h1 h2 : successes (h1 ++ h2) = successes h1 ++ successes h2.
Proof. apply omap_app. Qed.

Lemma failures_app h1 h2 : failures (h1 ++ h2) = failures h1 ++ failures h2.
Proof. apply omap_app. Qed.

Lemma errors_app h1 h2 : errors (h1 ++ h2) = (errors h1 + errors h2)%nat.
Proof. unfold errors. rewrite List.filter_app, length_app. reflexivity. Qed.

Lemma perform_consistent c s : consistent s -> consistent (perform c s).
Proof.
  unfold consistent. intros (Hs & Hf & Hcs & Hfs & He).
  destruct c as [server duration | server reason | message
                | server season step | ];
    cbn [ perform add_success add_failure add_error set_current_progress
          reset new_statistics success_count failure_count error_count
          completed_servers failed_servers server_history ].
  - rewrite length_app, successes_app, failures_app, errors_app, Hs, <- Hcs,
      <- Hfs. cbn. rewrite !app_nil_r. repeat split; lia.
  - rewrite length_app, successes_app, failures_app, errors_app, Hf, <- Hcs,
      <- Hfs. cbn. rewrite !app_nil_r. repeat split; lia.
  - destruct (current_server s) as [server | ];
      [ destruct (server =? 0) | ];
      rewrite ?successes_app, ?failures_app, ?errors_app; cbn;
      rewrite ?app_nil_r; repeat split; try assumption; lia.
  - repeat split; assumption.
  - cbn. repeat split; lia.
Qed.

Lemma after_snoc calls c : after (calls ++ [c]) = perform c (after calls).
Proof. unfold after. rewrite foldl_app. reflexivity. Qed.

Lemma after_consistent calls : consistent (after calls).
Proof.
  induction calls as [ | c calls IH ] using rev_ind.
  - cbn. unfold consistent. cbn. repeat split; lia.
  - rewrite after_snoc. apply perform_consistent, IH.
Qed.

(** The durations of the success records of a history, in order. *)
Definition success_durations (history : list entry) : list float :=
  omap (fun e => match e with Success _ _ duration => Some duration | _ => None end)
    history.

(** [total_time += duration] over the durations, from [0.0]: each sum
    is rounded before the next duration is added. *)
Definition float_sum (durations : list float) : float :=
  foldl PrimFloat.add PrimFloat.zero durations.

Lemma success_durations_app h1 h2 :
  success_durations (h1 ++ h2) = success_durations h1 ++ success_durations h2.
Proof. apply omap_app. Qed.

Lemma float_sum_snoc durations duration :
  float_sum (durations ++ [duration])
  = PrimFloat.add (float_sum durations) duration.
Proof. unfold float_sum. rewrite foldl_app. reflexivity. Qed.

Lemma perform_total_time c s :
  total_time s = float_sum (success_durations (server_history s)) ->
  total_time (perform c s)
  = float_sum (success_durations (server_history (perform c s))).
Proof.
  intros Ht.
  destruct c as [server duration | server reason | message
                | server season step | ];
    cbn [ perform add_success add_failure add_error set_current_progress
          reset new_statistics total_time server_history ].
  - rewrite success_durations_app.
    change (success_durations [Success server _ duration]) with [duration].
    rewrite float_sum_snoc, Ht. reflexivity.
  - rewrite success_durations_app. cbn. rewrite app_nil_r. exact Ht.
  - destruct (current_server s) as [server | ];
      [ destruct (server =? 0) | ];
      rewrite ?success_durations_app; cbn; rewrite ?app_nil_r; exact Ht.
  - exact Ht.
  - reflexivity.
Qed.

Lemma after_total_time calls :
  total_time (after calls)
  = float_sum (success_durations (server_history (after calls))).
Proof.
  induction calls as [ | c calls IH ] using rev_ind.
  - reflexivity.
  - rewrite after_snoc. apply perform_total_time, IH.
Qed.

Lemma success_durations_length history :
  length (success_durations history) = length (successes history).
Proof.
  unfold success_durations, successes.
  induction history as [ | [server season duration | ? ? ? | ? ? ?] history IH ];
    cbn; rewrite ?IH; reflexivity.
Qed.

Lemma rate_value x t :
  0 < t ->
  (inject_Z x / inject_Z t * 100 == (100 * x) # (Z.to_pos t))%Q.
Proof.
  intros Ht. destruct t as [ | p | p ]; try lia.
  unfold Qeq, Qdiv, Qmult, Qinv, inject_Z. cbn. lia.
Qed.

(** ** What the counters say *)

(** Whatever calls are made on a fresh statistics object, in whatever
    order, resets included: the two counters are the lengths of the two
    server lists, the lists are the servers of the success and failure
    records of the history, in order, and the error counter is at least
    the number of error records (an error met while no server is known
    is counted but leaves no record). *)
Theorem statistics_stay_consistent (calls : list call) :
  consistent (after calls).
Proof. exact (after_consistent calls). Qed.

(** [get_success_rate] after any calls: [None] exactly when no server
    was completed or failed; otherwise a number from 0 to 100, which is
    100 exactly when no server failed and 0 exactly when none was
    completed. *)
Theorem success_rate_is_a_percentage (calls : list call) :
  let s := after calls in
  match get_success_rate s with
  | None => completed_servers s = [] /\ failed_servers s = []
  | Some rate =>
      (0 <= rate <= 100)%Q
      /\ ((rate == 100)%Q <-> failed_servers s = [])
      /\ ((rate == 0)%Q <-> completed_servers s = [])
  end.
Proof.
  intros s. destruct (after_consistent calls) as (Hs & Hf & _).
  fold s in Hs, Hf. unfold get_success_rate. rewrite Hs, Hf.
  destruct (completed_servers s) as [ | c done ] eqn:Hdone;
    destruct (failed_servers s) as [ | f failed ] eqn:Hfailed;
    cbn [length];
    match goal with
    | |- context [0 <? ?t] => destruct (Z.ltb_spec 0 t) as [Hpos | Hzero]
    end; try lia.
  - split; reflexivity.
  - rewrite (rate_value _ _ Hpos). unfold Qle, Qeq. cbn [Qnum Qden].
    rewrite !Z2Pos.id by lia. repeat split; try lia; try discriminate.
  - rewrite (rate_value _ _ Hpos). unfold Qle, Qeq. cbn [Qnum Qden].
    rewrite !Z2Pos.id by lia. repeat split; try lia; try discriminate.
  - rewrite (rate_value _ _ Hpos). unfold Qle, Qeq. cbn [Qnum Qden].
    rewrite !Z2Pos.id by lia. repeat split; try lia; try discriminate.
Qed.

(** [get_average_time] after any calls: [None] exactly when no server
    was completed since the last reset; otherwise the running sum of the
    durations of the success records, added one by one in the order of
    the calls with the rounding of [float], divided by their number:
    the mean of the durations up to that rounding. *)
Theorem average_time_is_the_float_mean (calls : list call) :
  let s := after calls in
  let durations := success_durations (server_history s) in
  length durations = length (completed_servers s)
  /\ total_time s = float_sum durations
  /\ match get_average_time s with
     | None => completed_servers s = []
     | Some average =>
         completed_servers s <> []
         /\ average
            = PrimFloat.div (float_sum durations)
                (float_of_count (Z.of_nat (length durations)))
     end.
Proof.
  intros s durations.
  destruct (after_consistent calls) as (Hs & _ & Hdone & _).
  pose proof (after_total_time calls) as Ht. fold s in Hs, Hdone, Ht.
  fold durations in Ht.
  assert (Hlen : length durations = length (completed_servers s)).
  { unfold durations. rewrite success_durations_length, Hdone. reflexivity. }
  split; [ exact Hlen | ]. split; [ exact Ht | ].
  unfold get_average_time. rewrite Hs, Ht, Hlen.
  destruct (completed_servers s) as [ | c done ]; cbn [length].
  - reflexivity.
  - destruct (Z.ltb_spec 0 (Z.of_nat (S (length done)))) as [Hpos | ];
      [ | lia ].
    split; [ discriminate | reflexivity ].
Qed.

(** The [float] next to the quotient of two counts. *)
Definition ratio (n d : Z) : float :=
  PrimFloat.div (float_of_count n) (float_of_count d).

(** Two servers done in 0.1 s and 0.2 s: the average is not 0.15 but
    the [float] next above it, as the sum of the two is rounded up. *)
Example average_of_two :
  get_average_time
    (after [AddSuccess 575 (ratio 1 10); AddSuccess 574 (ratio 2 10)])
  = Some (PrimFloat.next_up (ratio 15 100)).
Proof. reflexivity. Qed.

End Stats.

(* ===================================================================== *)
(** * The rolling history of the performance monitor *)
(* ===================================================================== *)

Module History.

Import Performance.

(** The monitor with its two histories of [(time, percent)] points. *)
Record Sampler : Type := {
  monitor : Monitor;
  history_length : Z;
  cpu_history : list (Q * Q);
  memory_history : list (Q * Q)
}.

(** [PerformanceMonitor(history_length=n)]. *)
Definition new_sampler (n : Z) : Sampler :=
  {| monitor := new_monitor; history_length := n;
     cpu_history := []; memory_history := [] |}.

(** [if len(history) > self.history_length: history.pop(0)]. *)
Definition trim {A : Type} (limit : Z) (history : list A) : list A :=
  if limit <? Z.of_nat (length history) then tail history else history.

(** One pass through the [try] block of [_monitor_loop]: the sample
    [ps] is what [psutil] answers, [current_time] what [time.time()]
    does. *)
Definition monitor_round (ps : Psutil) (current_time : Q) (s : Sampler)
  : Sampler :=
  let m := fst (update_metrics ps (monitor s)) in
  {| monitor := m;
     history_length := history_length s;
     cpu_history :=
       trim (history_length s)
         (cpu_history s ++ [(current_time, cpu_usage m)]);
     memory_history :=
       trim (history_length s)
         (memory_history s ++ [(current_time, memory_usage m)]) |}.

(** The passes of the loop, one per sample. *)
Definition monitor_loop (samples : list (Psutil * Q)) (s : Sampler)
  : Sampler :=
  foldl (fun s sample => monitor_round sample.1 sample.2 s) s samples.

(** Every point the loop has recorded, nothing dropped. *)
Fixpoint recorded (samples : list (Psutil * Q)) (m : Monitor)
  : list (Q * Q) * list (Q * Q) :=
  match samples with
  | [] => ([], [])
  | (ps, current_time) :: rest =>
      let m := fst (update_metrics ps m) in
      let '(cpu, memory) := recorded rest m in
      ((current_time, cpu_usage m) :: cpu,
       (current_time, memory_usage m) :: memory)
  end.

(** ** Lemmas *)

(** The last [limit] points of a list. *)
Definition latest {A : Type} (limit : Z) (points : list A) : list A :=
  drop (length points - Z.to_nat limit) points.

Lemma tail_drop_snoc {A : Type} (x : A) : forall (points : list A) k,
  (k <= length points)%nat ->
  tail (drop k points ++ [x]) = drop (S k) (points ++ [x]).
Proof.
  induction points as [ | y points IH ]; intros k Hk.
  - cbn in Hk. replace k with 0%nat by lia. reflexivity.
  - destruct k as [ | k ]; [ reflexivity | ].
    cbn [drop app]. apply IH. cbn in Hk. lia.
Qed.

Lemma trim_latest {A : Type} (limit : Z) (points : list A) (x : A) :
  trim limit (latest limit points ++ [x]) = latest limit (points ++ [x]).
Proof.
  unfold trim, latest. rewrite !length_app, length_drop. cbn [length].
  destruct (Z.ltb_spec limit
              (Z.of_nat (length points
                         - (length points - Z.to_nat limit) + 1)))
    as [Hfull | Hroom].
  - replace (length points + 1 - Z.to_nat limit)%nat
      with (S (length points - Z.to_nat limit)) by lia.
    apply tail_drop_snoc. lia.
  - replace (length points - Z.to_nat limit)%nat with 0%nat by lia.
    replace (length points + 1 - Z.to_nat limit)%nat with 0%nat by lia.
    reflexivity.
Qed.

Lemma recorded_snoc samples ps current_time : forall m,
  let m' := monitor (monitor_loop samples
                       {| monitor := m; history_length := 0;
                          cpu_history := []; memory_history := [] |}) in
  let m'' := fst (update_metrics ps m') in
  recorded (samples ++ [(ps, current_time)]) m
  = ((recorded samples m).1 ++ [(current_time, cpu_usage m'')],
     (recorded samples m).2 ++ [(current_time, memory_usage m'')]).
Proof.
  induction samples as [ | [ps0 t0] samples IH ]; intros m.
  - reflexivity.
  - cbn [app recorded]. rewrite IH.
    destruct (recorded samples (update_metrics ps0 m).1) as [cpu memory].
    reflexivity.
Qed.

Lemma monitor_loop_monitor samples : forall s s',
  monitor s = monitor s' ->
  monitor (monitor_loop samples s) = monitor (monitor_loop samples s').
Proof.
  induction samples as [ | [ps t] samples IH ]; intros s s' Hm;
    [ exact Hm | ].
  cbn [monitor_loop foldl]. apply IH. cbn. rewrite Hm. reflexivity.
Qed.

Lemma monitor_loop_snoc samples sample s :
  monitor_loop (samples ++ [sample]) s
  = monitor_round sample.1 sample.2 (monitor_loop samples s).
Proof. unfold monitor_loop. rewrite foldl_app. reflexivity. Qed.

Lemma monitor_loop_length samples : forall s,
  history_length (monitor_loop samples s) = history_length s.
Proof.
  induction samples as [ | sample samples IH ] using rev_ind; intros s;
    [ reflexivity | ].
  rewrite monitor_loop_snoc. cbn. apply IH.
Qed.

Lemma monitor_loop_latest n samples :
  let s := monitor_loop samples (new_sampler n) in
  cpu_history s = latest n (recorded samples new_monitor).1
  /\ memory_history s = latest n (recorded samples new_monitor).2.
Proof.
  induction samples as [ | [ps t] samples [IHc IHm] ] using rev_ind.
  - split; reflexivity.
  - rewrite monitor_loop_snoc, recorded_snoc.
    cbn [monitor_round cpu_history memory_history fst snd].
    rewrite monitor_loop_length. cbn [new_sampler history_length].
    rewrite IHc, IHm, !trim_latest.
    rewrite (monitor_loop_monitor samples (new_sampler n)
               {| monitor := new_monitor; history_length := 0;
                  cpu_history := []; memory_history := [] |} eq_refl).
    split; reflexivity.
Qed.

Lemma recorded_length samples : forall m,
  length (recorded samples m).1 = length samples
  /\ length (recorded samples m).2 = length samples.
Proof.
  induction samples as [ | [ps t] rest IH ]; intros m; [ split; reflexivity | ].
  cbn [recorded]. specialize (IH (update_metrics ps m).1).
  destruct (recorded rest (update_metrics ps m).1) as [cpu memory].
  cbn in *. lia.
Qed.

(** ** The window *)

(** Started with empty histories, the monitor keeps the latest
    [history_length] points of each history, in the order they were
    sampled, and never more; with a limit of 0 or less it keeps
    none. *)
Theorem history_is_a_window (n : Z) (samples : list (Psutil * Q)) :
  let s := monitor_loop samples (new_sampler n) in
  let '(cpu, memory) := recorded samples new_monitor in
  cpu_history s = drop (length samples - Z.to_nat n) cpu
  /\ memory_history s = drop (length samples - Z.to_nat n) memory
  /\ length (cpu_history s) = Nat.min (length samples) (Z.to_nat n)
  /\ length (memory_history s) = Nat.min (length samples) (Z.to_nat n).
Proof.
  intros s. destruct (monitor_loop_latest n samples) as [Hc Hm]. fold s in Hc, Hm.
  pose proof (recorded_length samples new_monitor) as Hlen.
  destruct (recorded samples new_monitor) as [cpu memory].
  cbn [fst snd] in *. destruct Hlen as [Hlc Hlm].
  unfold latest in Hc, Hm. rewrite Hlc in Hc. rewrite Hlm in Hm.
  rewrite Hc, Hm, !length_drop. repeat split; lia.
Qed.

End History.

(* ===================================================================== *)
(** * Step handlers: one of several images, and the server list *)
(* ===================================================================== *)

Module Handlers.

Import Bot MainLoop.

(** What a handler asks of the emulator facade and of [time]. *)
Inductive event : Type :=
| Screenshot                                (* emulator.get_screenshot() *)
| Click (x y : Z)                           (* emulator.click(x, y) *)
| Swipe (start_x start_y end_x end_y duration_ms : Z)
| Sleep (ms : Z).

(** The bot a handler is bound to, with the log of its requests. *)
Record Hstate (Env : Type) : Type := {
  self : Self Env;
  trace : list event
}.
Arguments self {Env} _.
Arguments trace {Env} _.

(** [server_numbers.sort(key=lambda x: x[0], reverse=True)]: the sort
    of Python is stable, also in reverse. *)
Fixpoint insert_descending (x : Z * (Z * Z)) (sorted : list (Z * (Z * Z)))
  : list (Z * (Z * Z)) :=
  match sorted with
  | [] => [x]
  | y :: rest =>
      if y.1 <=? x.1 then x :: y :: rest
      else y :: insert_descending x rest
  end.

Definition sort_descending (server_numbers : list (Z * (Z * Z)))
  : list (Z * (Z * Z)) :=
  foldr insert_descending [] server_numbers.

(** [for server_number, coords in server_numbers: if server_number <
    target_server: ...], up to the first hit. *)
Definition first_below (target_server : Z)
  (server_numbers : list (Z * (Z * Z))) : option (Z * (Z * Z)) :=
  List.find (fun candidate => candidate.1 <? target_server) server_numbers.

(** ** Lemmas on the choice of a lower server *)

Lemma insert_descending_perm x sorted :
  Permutation (insert_descending x sorted) (x :: sorted).
Proof.
  induction sorted as [ | y rest IH ]; cbn; [ reflexivity | ].
  destruct (y.1 <=? x.1); [ reflexivity | ].
  rewrite IH. apply perm_swap.
Qed.

Lemma sort_descending_perm server_numbers :
  Permutation (sort_descending server_numbers) server_numbers.
Proof.
  induction server_numbers as [ | x rest IH ]; cbn; [ reflexivity | ].
  rewrite insert_descending_perm, IH. reflexivity.
Qed.

Definition descending (a b : Z * (Z * Z)) : Prop := b.1 <= a.1.

Lemma insert_descending_sorted x sorted :
  StronglySorted descending sorted ->
  StronglySorted descending (insert_descending x sorted).
Proof.
  induction 1 as [ | y rest Hs IH Hy ]; cbn.
  - repeat constructor.
  - destruct (Z.leb_spec y.1 x.1) as [Hle | Hgt].
    + constructor; [ constructor; assumption | ].
      constructor; [ exact Hle | ].
      eapply List.Forall_impl; [ | exact Hy ].
      unfold descending. intros z Hz. lia.
    + constructor; [ exact IH | ].
      eapply Permutation_Forall;
        [ symmetry; apply insert_descending_perm | ].
      constructor; [ unfold descending; lia | exact Hy ].
Qed.

Lemma sort_descending_sorted server_numbers :
  StronglySorted descending (sort_descending server_numbers).
Proof.
  induction server_numbers as [ | x rest IH ]; cbn; [ constructor | ].
  apply insert_descending_sorted, IH.
Qed.

Lemma first_below_sorted target sorted :
  StronglySorted descending sorted ->
  match first_below target sorted with
  | Some chosen =>
      In chosen sorted /\ chosen.1 < target
      /\ Forall (fun c => c.1 < target -> c.1 <= chosen.1) sorted
  | None => Forall (fun c => target <= c.1) sorted
  end.
Proof.
  unfold first_below.
  induction 1 as [ | y rest Hs IH Hy ]; cbn [List.find]; [ constructor | ].
  destruct (Z.ltb_spec y.1 target) as [Hlt | Hge].
  - split; [ left; reflexivity | ]. split; [ exact Hlt | ].
    constructor; [ lia | ].
    eapply List.Forall_impl; [ | exact Hy ].
    unfold descending. intros z Hz _. exact Hz.
  - destruct (List.find _ rest) as [chosen | ].
    + destruct IH as (Hin & Hlt & Hmax).
      split; [ right; exact Hin | ]. split; [ exact Hlt | ].
      constructor; [ lia | exact Hmax ].
    + constructor; [ exact Hge | exact IH ].
Qed.

(** The choice is the largest listed number below the target. *)
Lemma first_below_largest target server_numbers :
  match first_below target (sort_descending server_numbers) with
  | Some chosen =>
      In chosen server_numbers /\ chosen.1 < target
      /\ Forall (fun c => c.1 < target -> c.1 <= chosen.1) server_numbers
  | None => Forall (fun c => target <= c.1) server_numbers
  end.
Proof.
  pose proof (first_below_sorted target _
                (sort_descending_sorted server_numbers)) as H.
  pose proof (sort_descending_perm server_numbers) as Hperm.
  destruct (first_below target (sort_descending server_numbers))
    as [chosen | ].
  - destruct H as (Hin & Hlt & Hmax). split; [ | split ].
    + eapply Permutation_in; eassumption.
    + exact Hlt.
    + eapply Permutation_Forall; eassumption.
  - eapply Permutation_Forall; eassumption.
Qed.

Lemma find_missing (target : Z) (server_numbers : list (Z * (Z * Z))) :
  Forall (fun candidate => candidate.1 <> target) server_numbers ->
  List.find (fun candidate => candidate.1 =? target) server_numbers = None.
Proof.
  induction 1 as [ | c rest Hc _ IH ]; [ reflexivity | ].
  cbn [List.find]. destruct (Z.eqb_spec c.1 target); [ contradiction | ].
  exact IH.
Qed.

Section Handler.

Variable Env : Type.
Variable Image : Type.

(** [emulator.get_screenshot()]: it raises when the device does not
    answer. *)
Variable emu_get_screenshot : Env -> Env * result (list Z).
(** [image_recognition.bytes_to_cv2_image]. *)
Variable bytes_to_cv2_image : list Z -> result Image.
(** [image_recognition.find_template]: it catches its own exceptions. *)
Variable find_template : Image -> string -> option (Z * Z * Z * Z).
(** [text_recognition.find_server_numbers]. *)
Variable find_server_numbers : Image -> result (list (Z * (Z * Z))).
(** [emulator.click] and [emulator.swipe] return a flag. *)
Variable emu_click : Z -> Z -> Env -> Env * bool.
Variable emu_swipe : Z -> Z -> Z -> Z -> Z -> Env -> Env * bool.
Variable time_sleep : Z -> Env -> Env.

Definition H (A : Type) : Type := Hstate Env -> result A * Hstate Env.

Definition ret {A : Type} (a : A) : H A := fun s => (Ok a, s).

Definition bind {A B : Type} (m : H A) (k : A -> H B) : H B :=
  fun s =>
    match m s with
    | (Ok a, s') => k a s'
    | (Raise message, s') => (Raise message, s')
    end.

Definition catch {A : Type} (m : H A) (h : string -> H A) : H A :=
  fun s =>
    match m s with
    | (Ok a, s') => (Ok a, s')
    | (Raise message, s') => h message s'
    end.

Notation "'let*' x ':=' m 'in' k" :=
  (bind m (fun x => k))
    (at level 10, x name, m at level 100, k at level 200).
Notation "m '>>' k" :=
  (bind m (fun _ => k)) (at level 150, right associativity).

Definition with_env (e : Env) (s : Self Env) : Self Env :=
  {| env := e; bot_current_server := bot_current_server s;
     bot_current_season := bot_current_season s;
     end_server := end_server s;
     success_count := success_count s; failure_count := failure_count s;
     completed_servers := completed_servers s;
     failed_servers := failed_servers s |}.

(** A call to the outside: log it, move the environment, hand back the
    outcome. *)
Definition call {A : Type} (ev : event) (f : Env -> Env * result A) : H A :=
  fun s =>
    let '(e, r) := f (env (self s)) in
    (r, {| self := with_env e (self s); trace := trace s ++ [ev] |}).

Definition lift {A : Type} (r : result A) : H A := fun s => (r, s).

Definition click (x y : Z) : H bool :=
  call (Click x y) (fun e => let '(e, ok) := emu_click x y e in (e, Ok ok)).

Definition swipe (start_x start_y end_x end_y duration_ms : Z) : H bool :=
  call (Swipe start_x start_y end_x end_y duration_ms)
    (fun e =>
       let '(e, ok) :=
         emu_swipe start_x start_y end_x end_y duration_ms e in
       (e, Ok ok)).

Definition sleep (ms : Z) : H unit :=
  call (Sleep ms) (fun e => (time_sleep ms e, Ok tt)).

(** [screenshot_bytes = self.emulator.get_screenshot(); screenshot =
    self.image_recognition.bytes_to_cv2_image(screenshot_bytes)]. *)
Definition take_screenshot : H Image :=
  let* screenshot_bytes := call Screenshot emu_get_screenshot in
  lift (bytes_to_cv2_image screenshot_bytes).

(** ** [find_and_click_multiple] *)

(** The [for image_name in images] loop. *)
Fixpoint click_first (screenshot : Image) (images : list string)
  (priority_image next_step_on_priority : pyval) : H (bool * pyval) :=
  match images with
  | [] => ret (false, VNone)
  | image_name :: rest =>
      match find_template screenshot image_name with
      | Some (x, y, w, h) =>
          let center_x := x + w / 2 in
          let center_y := y + h / 2 in
          click center_x center_y >>
          match priority_image, next_step_on_priority with
          | _, VNone => ret (true, VNone)
          | VStr name, next_step =>
              if String.eqb image_name name then ret (true, next_step)
              else ret (true, VNone)
          | _, _ => ret (true, VNone)
          end
      | None =>
          click_first screenshot rest priority_image next_step_on_priority
      end
  end.

(** [find_and_click_multiple(step)]; the second component is the next
    step as the step stores it, [VNone] for [None].  [None]: [images]
    is a string or a list of tuples, which the loop would walk through
    item by item; this is outside what is modelled here. *)
Definition find_and_click_multiple (step : TutorialStep)
  : option (H (bool * pyval)) :=
  let images := get_param step "images" (VStrs []) in
  let priority_image := get_param step "priority_image" VNone in
  let next_step_on_priority :=
    get_param step "next_step_on_priority" VNone in
  match images with
  | VStr _ | VPoints _ => None
  | _ =>
      Some (catch
              (let* screenshot := take_screenshot in
               match images with
               | VStrs names =>
                   click_first screenshot names priority_image
                     next_step_on_priority
               | _ => lift (Raise "TypeError")
               end)
              (fun _ => ret (false, VNone)))
  end.

(** ** [select_server] *)

(** [find_specific_server]: the first pair with the target number. *)
Definition find_specific_server (screenshot : Image) (target_server : Z)
  : result (option (Z * Z)) :=
  match find_server_numbers screenshot with
  | Raise message => Raise message
  | Ok server_numbers =>
      Ok (snd <$> List.find (fun candidate => candidate.1 =? target_server)
                    server_numbers)
  end.

(** [for scroll_attempt in range(attempts)]: [Some flag] when the
    server was found and clicked. *)
Fixpoint search_by_scrolling (attempts : nat) (target_server : Z)
  : H (option bool) :=
  match attempts with
  | O => ret None
  | S attempts' =>
      let* screenshot := take_screenshot in
      let* server_coords :=
        lift (find_specific_server screenshot target_server) in
      match server_coords with
      | Some (x, y) =>
          let* success := click x y in
          ret (Some success)
      | None =>
          swipe 778 567 778 130 800 >>
          sleep 1500 >>
          search_by_scrolling attempts' target_server
      end
  end.

(** [for _ in range(rounds): swipe back; time.sleep(1)]. *)
Fixpoint scroll_back (rounds : nat) : H unit :=
  match rounds with
  | O => ret tt
  | S rounds' =>
      swipe 778 130 778 567 800 >> sleep 1000 >> scroll_back rounds'
  end.

(** [self.current_server = server_number]. *)
Definition set_current_server (server_number : Z) : H unit :=
  fun s =>
    (Ok tt,
     {| self :=
          {| env := env (self s); bot_current_server := server_number;
             bot_current_season := bot_current_season (self s);
             end_server := end_server (self s);
             success_count := success_count (self s);
             failure_count := failure_count (self s);
             completed_servers := completed_servers (self s);
             failed_servers := failed_servers (self s) |};
        trace := trace s |}).

(** [select_server(step)]. *)
Definition select_server (step : TutorialStep) : H (bool * option Z) :=
  catch
    (fun s =>
       let target_server := bot_current_server (self s) in
       (let* found := search_by_scrolling 20 target_server in
        match found with
        | Some success => ret (success, None)
        | None =>
            scroll_back 5 >>
            let* screenshot := take_screenshot in
            let* server_numbers := lift (find_server_numbers screenshot) in
            match first_below target_server
                    (sort_descending server_numbers) with
            | Some (server_number, (x, y)) =>
                let* success := click x y in
                set_current_server server_number >>
                ret (success, None)
            | None => ret (false, None)
            end
        end) s)
    (fun _ => ret (false, None)).

(** ** Lemmas on the handlers *)

Ltac run_handler :=
  cbv beta iota zeta delta
    [ take_screenshot click swipe sleep call lift bind ret catch
      set_current_server ];
  cbn [ self trace env with_env fst snd ].

(** Every screenshot comes back with a list of servers, which may
    change from one screen to the next, and none shows the server
    [target]. *)
Definition never_shows (target : Z) : Prop :=
  forall e,
    exists e' screenshot_bytes screenshot server_numbers,
      emu_get_screenshot e = (e', Ok screenshot_bytes)
      /\ bytes_to_cv2_image screenshot_bytes = Ok screenshot
      /\ find_server_numbers screenshot = Ok server_numbers
      /\ Forall (fun candidate => candidate.1 <> target) server_numbers.

(** The emulator after a look at the screen and a scroll down, and
    after a scroll back up. *)
Definition scrolled_down (e : Env) : Env :=
  time_sleep 1500 (fst (emu_swipe 778 567 778 130 800
                          (fst (emu_get_screenshot e)))).

Definition scrolled_up (e : Env) : Env :=
  time_sleep 1000 (fst (emu_swipe 778 130 778 567 800 e)).

Lemma take_screenshot_run s e' screenshot_bytes screenshot :
  emu_get_screenshot (env (self s)) = (e', Ok screenshot_bytes) ->
  bytes_to_cv2_image screenshot_bytes = Ok screenshot ->
  take_screenshot s
  = (Ok screenshot,
     {| self := with_env e' (self s); trace := trace s ++ [Screenshot] |}).
Proof.
  intros Hget Hdecode.
  run_handler. rewrite Hget. run_handler. rewrite Hdecode. reflexivity.
Qed.

Definition scroll_down : list event :=
  [Screenshot; Swipe 778 567 778 130 800; Sleep 1500].

Definition scroll_up : list event :=
  [Swipe 778 130 778 567 800; Sleep 1000].

Lemma search_by_scrolling_misses (target : Z) :
  never_shows target ->
  forall attempts s,
    exists s',
      search_by_scrolling attempts target s = (Ok None, s')
      /\ trace s' = trace s ++ concat (replicate attempts scroll_down)
      /\ own_fields (self s') = own_fields (self s)
      /\ env (self s') = Nat.iter attempts scrolled_down (env (self s)).
Proof.
  intros Hscreen.
  induction attempts as [ | attempts IH ]; intros s.
  - exists s. cbn. rewrite app_nil_r. repeat split.
  - cbn [search_by_scrolling]. unfold bind at 1.
    destruct (Hscreen (env (self s)))
      as (e1 & bytes & shot & numbers & Hget & Hdecode & Hnumbers & Hmissing).
    rewrite (take_screenshot_run s e1 bytes shot Hget Hdecode).
    unfold bind at 1, lift at 1, find_specific_server.
    rewrite Hnumbers, (find_missing _ _ Hmissing). cbn [fmap option_fmap option_map].
    run_handler.
    destruct (emu_swipe 778 567 778 130 800 e1) as [e2 ok] eqn:Hswipe.
    run_handler.
    match goal with
    | |- context [search_by_scrolling attempts target ?s1] =>
        destruct (IH s1) as (s' & -> & Htrace & Hown & Henv)
    end.
    exists s'. split; [ reflexivity | ]. split; [ | split ].
    + rewrite Htrace. cbn [trace replicate concat scroll_down].
      rewrite <- !app_assoc. reflexivity.
    + rewrite Hown. reflexivity.
    + rewrite Henv, Nat.iter_succ_r. cbn [self env with_env].
      unfold scrolled_down. rewrite Hget. cbn [fst]. rewrite Hswipe.
      reflexivity.
Qed.

Lemma scroll_back_trace : forall rounds s,
  exists s',
    scroll_back rounds s = (Ok tt, s')
    /\ trace s' = trace s ++ concat (replicate rounds scroll_up)
    /\ own_fields (self s') = own_fields (self s)
    /\ env (self s') = Nat.iter rounds scrolled_up (env (self s)).
Proof.
  induction rounds as [ | rounds IH ]; intros s.
  - exists s. cbn. rewrite app_nil_r. repeat split.
  - cbn [scroll_back]. run_handler.
    destruct (emu_swipe 778 130 778 567 800 (env (self s))) as [e1 ok]
      eqn:Hswipe.
    run_handler.
    match goal with
    | |- context [scroll_back rounds ?s1] =>
        destruct (IH s1) as (s' & -> & Htrace & Hown & Henv)
    end.
    exists s'. split; [ reflexivity | ]. split; [ | split ].
    + rewrite Htrace. cbn [trace replicate concat scroll_up].
      rewrite <- !app_assoc. reflexivity.
    + rewrite Hown. reflexivity.
    + rewrite Henv, Nat.iter_succ_r. cbn [self env with_env].
      unfold scrolled_up. rewrite Hswipe. reflexivity.
Qed.

(** The image the loop of [find_and_click_multiple] stops at. *)
Definition first_found (screenshot : Image) (names : list string)
  : option string :=
  List.find (fun name => match find_template screenshot name with
                         | Some _ => true
                         | None => false
                         end) names.

Lemma click_first_spec screenshot priority next : forall names s1,
  match first_found screenshot names with
  | None =>
      click_first screenshot names priority next s1 = (Ok (false, VNone), s1)
  | Some name =>
      exists x y w h next_step s',
        find_template screenshot name = Some (x, y, w, h)
        /\ click_first screenshot names priority next s1
           = (Ok (true, next_step), s')
        /\ trace s' = trace s1 ++ [Click (x + w / 2) (y + h / 2)]
        /\ (next_step <> VNone -> priority = VStr name /\ next_step = next)
        /\ (priority = VStr name -> next_step = next)
  end.
Proof.
  unfold first_found.
  induction names as [ | name names IH ]; intros s1; [ reflexivity | ].
  cbn [click_first List.find].
  destruct (find_template screenshot name) as [[[[x y] w] h] | ] eqn:Hfound;
    [ | apply IH ].
  exists x, y, w, h.
  unfold bind at 1, click at 1, call at 1.
  destruct (emu_click (x + w / 2) (y + h / 2) (env (self s1))) as [e2 ok].
  destruct next as [ | b | n | q | text | items | points ];
    destruct priority as [ | pb | pn | pq | ptext | pitems | ppoints ];
    try destruct (String.eqb_spec name ptext);
    cbn; eexists; eexists;
    (split; [ exact Hfound | ]);
    (split; [ reflexivity | ]);
    (split; [ reflexivity | ]);
    split; try congruence; try (intros _; split; congruence).
Qed.

Lemma find_and_click_multiple_run step names s e1 screenshot_bytes screenshot :
  get_param step "images" (VStrs []) = VStrs names ->
  emu_get_screenshot (env (self s)) = (e1, Ok screenshot_bytes) ->
  bytes_to_cv2_image screenshot_bytes = Ok screenshot ->
  exists handler,
    find_and_click_multiple step = Some handler
    /\ handler s
       = catch
           (click_first screenshot names
              (get_param step "priority_image" VNone)
              (get_param step "next_step_on_priority" VNone))
           (fun _ => ret (false, VNone))
           {| self := with_env e1 (self s);
              trace := trace s ++ [Screenshot] |}.
Proof.
  intros Himages Hget Hdecode.
  unfold find_and_click_multiple. rewrite Himages.
  eexists. split; [ reflexivity | ].
  unfold catch, bind at 1, take_screenshot, bind at 1, call at 1.
  rewrite Hget. unfold lift at 1. rewrite Hdecode. reflexivity.
Qed.

(** The whole of [select_server] when the wanted server is on no
    screen; [server_numbers] is what the screen lists after the
    scrolling. *)
Lemma select_server_misses server_numbers step s e' screenshot_bytes
  screenshot :
  never_shows (bot_current_server (self s)) ->
  let listed :=
    Nat.iter 5 scrolled_up (Nat.iter 20 scrolled_down (env (self s))) in
  emu_get_screenshot listed = (e', Ok screenshot_bytes) ->
  bytes_to_cv2_image screenshot_bytes = Ok screenshot ->
  find_server_numbers screenshot = Ok server_numbers ->
  let target := bot_current_server (self s) in
  let scrolled :=
    trace s ++ concat (replicate 20 scroll_down)
    ++ concat (replicate 5 scroll_up) ++ [Screenshot] in
  exists s',
    match first_below target (sort_descending server_numbers) with
    | Some (server_number, (x, y)) =>
        exists success,
          select_server step s = (Ok (success, None), s')
          /\ success = snd (emu_click x y e')
          /\ bot_current_server (self s') = server_number
          /\ trace s' = scrolled ++ [Click x y]
    | None =>
        select_server step s = (Ok (false, None), s')
        /\ bot_current_server (self s') = target
        /\ trace s' = scrolled
    end.
Proof.
  intros Hscreen listed Hget Hdecode Hnumbers target scrolled.
  destruct (search_by_scrolling_misses target Hscreen 20 s)
    as (s1 & Hsearch & Htrace1 & Hown1 & Henv1).
  destruct (scroll_back_trace 5 s1) as (s2 & Hback & Htrace2 & Hown2 & Henv2).
  assert (Hlisted : env (self s2) = listed).
  { rewrite Henv2, Henv1. reflexivity. }
  rewrite <- Hlisted in Hget.
  pose proof (take_screenshot_run s2 e' screenshot_bytes screenshot Hget
                Hdecode) as Hshot.
  set (e3 := e') in *.
  assert (Hscrolled : trace s2 ++ [Screenshot] = scrolled).
  { unfold scrolled. rewrite Htrace2, Htrace1, <- !app_assoc. reflexivity. }
  assert (Hserver : bot_current_server (self s2) = target).
  { unfold own_fields in Hown1, Hown2.
    injection Hown2 as Hs2 _ _ _ _ _ _. injection Hown1 as Hs1 _ _ _ _ _ _.
    rewrite Hs2, Hs1. reflexivity. }
  assert (Hrun : select_server step s
                 = catch
                     (match first_below target
                              (sort_descending server_numbers) with
                      | Some (server_number, (x, y)) =>
                          let* success := click x y in
                          set_current_server server_number >>
                          ret (success, None)
                      | None => ret (false, None)
                      end)
                     (fun _ => ret (false, None))
                     {| self := with_env e3 (self s2);
                        trace := trace s2 ++ [Screenshot] |}).
  { unfold select_server, catch. unfold bind at 1. fold target.
    rewrite Hsearch. unfold bind at 1. rewrite Hback.
    unfold bind at 1. rewrite Hshot.
    unfold bind at 1, lift at 1. rewrite Hnumbers. reflexivity. }
  rewrite Hrun. clear Hrun.
  destruct (first_below target (sort_descending server_numbers))
    as [[server_number [x y]] | ].
  - unfold catch. run_handler.
    destruct (emu_click x y e3) as [e4 ok]. run_handler.
    eexists. exists ok. split; [ reflexivity | ].
    cbn [self trace bot_current_server snd]. rewrite Hscrolled.
    repeat split; reflexivity.
  - unfold catch. run_handler. eexists. split; [ reflexivity | ].
    cbn [self trace with_env bot_current_server].
    split; [ exact Hserver | exact Hscrolled ].
Qed.

End Handler.

Arguments never_shows {Env Image} emu_get_screenshot bytes_to_cv2_image
  find_server_numbers target.

(** ** A screen to run the handlers on *)

(** Images are the lists of what is on them: templates with their
    rectangles, and server numbers with their places. *)
Record picture : Type := {
  templates : list (string * (Z * Z * Z * Z));
  servers : list (Z * (Z * Z))
}.

Definition lookup_template (screenshot : picture) (template_name : string)
  : option (Z * Z * Z * Z) :=
  snd <$> List.find (fun t => String.eqb t.1 template_name)
            (templates screenshot).

(** A device whose screen always shows [screenshot]; clicks are
    accepted or refused as [accepts] says. *)
Definition still_bot (server : Z) : Hstate unit :=
  {| self :=
       {| env := tt; bot_current_server := server;
          bot_current_season := Season.get_season_for_server server;
          end_server := 1;
          success_count := 0; failure_count := 0;
          completed_servers := []; failed_servers := [] |};
     trace := [] |}.

Definition lobby : picture :=
  {| templates := [ ("skip", (100, 40, 60, 20)); ("shoot", (500, 300, 81, 41)) ];
     servers := [ (575, (400, 100)); (571, (400, 200)); (573, (400, 300)) ] |}.

Definition multi_step : TutorialStep :=
  {| step_id := 12; description := "Поиск картинок";
     action_type := "find_and_click_multiple";
     params := {[ "images" := VStrs ["cannon"; "skip"; "shoot"];
                  "priority_image" := VStr "shoot";
                  "next_step_on_priority" := VInt 20 ]} |}.

Definition server_step : TutorialStep :=
  {| step_id := 5; description := "Выбор сервера";
     action_type := "select_server"; params := ∅ |}.

(** ** One of several images *)

(** [find_and_click_multiple] clicks the first image of the list, in
    list order, that is on the screenshot, in the middle of its
    rectangle, and reports success whatever the click returns; it
    names a next step only when that first image is the priority image,
    so a priority image that is on the screen behind an earlier image
    of the list is neither clicked nor followed.  With no image of the
    list on the screenshot it clicks nothing and fails. *)
Theorem first_image_found_is_clicked (Env Image : Type)
  (emu_get_screenshot : Env -> Env * result (list Z))
  (bytes_to_cv2_image : list Z -> result Image)
  (find_template : Image -> string -> option (Z * Z * Z * Z))
  (emu_click : Z -> Z -> Env -> Env * bool)
  (step : TutorialStep) (names : list string)
  (s : Hstate Env) (e1 : Env) (screenshot_bytes : list Z)
  (screenshot : Image) :
  get_param step "images" (VStrs []) = VStrs names ->
  emu_get_screenshot (env (self s)) = (e1, Ok screenshot_bytes) ->
  bytes_to_cv2_image screenshot_bytes = Ok screenshot ->
  exists handler,
    find_and_click_multiple Env Image emu_get_screenshot bytes_to_cv2_image
      find_template emu_click step = Some handler
    /\ match List.find (fun name =>
                          match find_template screenshot name with
                          | Some _ => true
                          | None => false
                          end) names with
       | None =>
           exists s',
             handler s = (Ok (false, VNone), s')
             /\ trace s' = trace s ++ [Screenshot]
       | Some name =>
           exists x y w h next_step s',
             find_template screenshot name = Some (x, y, w, h)
             /\ handler s = (Ok (true, next_step), s')
             /\ trace s' = trace s ++ [Screenshot; Click (x + w / 2) (y + h / 2)]
             /\ (next_step <> VNone ->
                 get_param step "priority_image" VNone = VStr name
                 /\ next_step = get_param step "next_step_on_priority" VNone)
             /\ (get_param step "priority_image" VNone = VStr name ->
                 next_step = get_param step "next_step_on_priority" VNone)
       end.
Proof.
  intros Himages Hget Hdecode.
  destruct (find_and_click_multiple_run Env Image emu_get_screenshot
              bytes_to_cv2_image find_template emu_click step names s e1
              screenshot_bytes screenshot Himages Hget Hdecode)
    as (handler & Hhandler & Hrun).
  exists handler. split; [ exact Hhandler | ]. rewrite Hrun.
  pose proof (click_first_spec Env Image find_template emu_click screenshot
                (get_param step "priority_image" VNone)
                (get_param step "next_step_on_priority" VNone) names
                {| self := with_env Env e1 (self s);
                   trace := trace s ++ [Screenshot] |}) as Hloop.
  unfold first_found in Hloop. unfold catch.
  destruct (List.find _ names) as [name | ].
  - destruct Hloop as (x & y & w & h & next_step & s' & Hfound & -> & Htrace
                       & Hjump & Hpriority).
    exists x, y, w, h, next_step, s'.
    split; [ exact Hfound | ]. split; [ reflexivity | ].
    split; [ rewrite Htrace; cbn [trace]; rewrite <- app_assoc; reflexivity | ].
    split; assumption.
  - rewrite Hloop. eexists. split; reflexivity.
Qed.

Lemma first_image_found_is_clicked_witness :
  exists handler,
    find_and_click_multiple unit picture (fun e => (e, Ok [137; 80]))
      (fun _ => Ok lobby) lookup_template (fun _ _ e => (e, false))
      multi_step = Some handler
    /\ match List.find (fun name =>
                          match lookup_template lobby name with
                          | Some _ => true
                          | None => false
                          end) ["cannon"; "skip"; "shoot"] with
       | None =>
           exists s',
             handler (still_bot 574) = (Ok (false, VNone), s')
             /\ trace s' = trace (still_bot 574) ++ [Screenshot]
       | Some name =>
           exists x y w h next_step s',
             lookup_template lobby name = Some (x, y, w, h)
             /\ handler (still_bot 574) = (Ok (true, next_step), s')
             /\ trace s'
                = trace (still_bot 574)
                  ++ [Screenshot; Click (x + w / 2) (y + h / 2)]
             /\ (next_step <> VNone ->
                 get_param multi_step "priority_image" VNone = VStr name
                 /\ next_step
                    = get_param multi_step "next_step_on_priority" VNone)
             /\ (get_param multi_step "priority_image" VNone = VStr name ->
                 next_step
                 = get_param multi_step "next_step_on_priority" VNone)
       end.
Proof.
  apply (first_image_found_is_clicked unit picture
           (fun e => (e, Ok [137; 80])) (fun _ => Ok lobby) lookup_template
           (fun _ _ e => (e, false)) multi_step ["cannon"; "skip"; "shoot"]
           (still_bot 574) tt [137; 80] lobby).
  - reflexivity.
  - reflexivity.
  - reflexivity.
Defined.

(** ** The server list *)

(** A list of servers that moves with the scrolling: the emulator is
    the number of screens scrolled down; screen 15 shows the [lobby],
    the others one server far down the list. *)
Definition depths : picture :=
  {| templates := []; servers := [ (12, (400, 500)) ] |}.

Definition screen_at (screenshot_bytes : list Z) : result picture :=
  match screenshot_bytes with
  | [position] => if position =? 15 then Ok lobby else Ok depths
  | _ => Ok depths
  end.

Definition scroll (start_x start_y end_x end_y duration_ms : Z) (e : Z)
  : Z * bool :=
  (if end_y <? start_y then e + 1 else e - 1, true).

Definition scrolling_bot (server : Z) : Hstate Z :=
  {| self :=
       {| env := 0; bot_current_server := server;
          bot_current_season := Season.get_season_for_server server;
          end_server := 1;
          success_count := 0; failure_count := 0;
          completed_servers := []; failed_servers := [] |};
     trace := [] |}.

(** [select_server] when the wanted server is on no screen, whatever
    the screens show instead: after 20 screens, each followed by a
    scroll down, and 5 scrolls back up, it takes one more screenshot,
    clicks the largest number listed on that screenshot below the wanted
    one and makes it the bot's current server, whether the click
    succeeds or not; the flag it returns is the click's.  When no
    number listed there is below the wanted one it fails and leaves the
    current server alone. *)
Theorem select_server_takes_largest_lower (Env Image : Type)
  (emu_get_screenshot : Env -> Env * result (list Z))
  (bytes_to_cv2_image : list Z -> result Image)
  (find_server_numbers : Image -> result (list (Z * (Z * Z))))
  (emu_click : Z -> Z -> Env -> Env * bool)
  (emu_swipe : Z -> Z -> Z -> Z -> Z -> Env -> Env * bool)
  (time_sleep : Z -> Env -> Env)
  (server_numbers : list (Z * (Z * Z))) (step : TutorialStep)
  (s : Hstate Env) (e' : Env) (screenshot_bytes : list Z)
  (screenshot : Image) :
  never_shows emu_get_screenshot bytes_to_cv2_image find_server_numbers
    (bot_current_server (self s)) ->
  let listed :=
    Nat.iter 5 (scrolled_up Env emu_swipe time_sleep)
      (Nat.iter 20 (scrolled_down Env emu_get_screenshot emu_swipe time_sleep)
         (env (self s))) in
  emu_get_screenshot listed = (e', Ok screenshot_bytes) ->
  bytes_to_cv2_image screenshot_bytes = Ok screenshot ->
  find_server_numbers screenshot = Ok server_numbers ->
  let target := bot_current_server (self s) in
  let scrolled :=
    trace s ++ concat (replicate 20 scroll_down)
    ++ concat (replicate 5 scroll_up) ++ [Screenshot] in
  exists s',
    match first_below target (sort_descending server_numbers) with
    | Some (server_number, (x, y)) =>
        (exists success,
            select_server Env Image emu_get_screenshot bytes_to_cv2_image
              find_server_numbers emu_click emu_swipe time_sleep step s
            = (Ok (success, None), s')
            /\ success = snd (emu_click x y e')
            /\ bot_current_server (self s') = server_number
            /\ trace s' = scrolled ++ [Click x y])
        /\ In (server_number, (x, y)) server_numbers
        /\ server_number < target
        /\ Forall (fun c => c.1 < target -> c.1 <= server_number)
             server_numbers
    | None =>
        (select_server Env Image emu_get_screenshot bytes_to_cv2_image
           find_server_numbers emu_click emu_swipe time_sleep step s
         = (Ok (false, None), s')
         /\ bot_current_server (self s') = target
         /\ trace s' = scrolled)
        /\ Forall (fun c => target <= c.1) server_numbers
    end.
Proof.
  intros Hscreen listed Hget Hdecode Hnumbers target scrolled.
  destruct (select_server_misses Env Image emu_get_screenshot
              bytes_to_cv2_image find_server_numbers emu_click emu_swipe
              time_sleep server_numbers step s e' screenshot_bytes screenshot
              Hscreen Hget Hdecode Hnumbers)
    as (s' & Hrun).
  pose proof (first_below_largest target server_numbers) as Hchoice.
  fold target in Hrun. exists s'.
  destruct (first_below target (sort_descending server_numbers))
    as [[server_number [x y]] | ].
  - split; [ exact Hrun | exact Hchoice ].
  - split; [ exact Hrun | exact Hchoice ].
Qed.

Lemma select_server_takes_largest_lower_witness :
  let scrolled :=
    [] ++ concat (replicate 20 scroll_down)
    ++ concat (replicate 5 scroll_up) ++ [Screenshot] in
  exists s',
    (exists success,
        select_server Z picture (fun e => (e, Ok [e])) screen_at
          (fun p => Ok (servers p)) (fun _ _ e => (e, false)) scroll
          (fun _ e => e) server_step (scrolling_bot 574)
        = (Ok (success, None), s')
        /\ success = false
        /\ bot_current_server (self s') = 573
        /\ trace s' = scrolled ++ [Click 400 300])
    /\ In (573, (400, 300)) (servers lobby)
    /\ 573 < 574
    /\ Forall (fun c => c.1 < 574 -> c.1 <= 573) (servers lobby).
Proof.
  apply (select_server_takes_largest_lower Z picture
           (fun e => (e, Ok [e])) screen_at
           (fun p => Ok (servers p)) (fun _ _ e => (e, false))
           scroll (fun _ e => e)
           (servers lobby) server_step (scrolling_bot 574) 15 [15] lobby).
  - intros e. destruct (Z.eq_dec e 15) as [-> | Hother].
    + exists 15, [15], lobby, (servers lobby).
      repeat split; repeat constructor; cbn; lia.
    + exists e, [e], depths, (servers depths).
      split; [ reflexivity | ]. split.
      * unfold screen_at.
        destruct (Z.eqb_spec e 15); [ contradiction | reflexivity ].
      * split; [ reflexivity | ]. repeat constructor; cbn; lia.
  - reflexivity.
  - reflexivity.
  - reflexivity.
Defined.

End Handlers.
